(** * GM Vault: the vault configuration parser and the cache service

    A shallow embedding of [src/js/parsers/ConfigParser.js] (parse, validate,
    migrate), of the [Page] model it builds, and of the rendered-HTML cache of
    the cache service, followed by the properties the specification states
    about them.

    JavaScript values are a tagged union; a thrown exception is the [Throw]
    case of a small error monad, so that "never throws" is a statement about
    the embedded function and not an assumption of the model. *)

From Stdlib Require Import List String Ascii ZArith Bool Arith Lia DecimalString.
Import ListNotations.
Local Open Scope string_scope.
Local Open Scope list_scope.
Set Warnings "-register-all".

(* ================================================================== *)
(** * JavaScript values *)
(* ================================================================== *)

(** The numbers that are not finite.  [JSON.parse] gives [Infinity] for a
    literal beyond the range of a double ([1e400]) and [-Infinity] for its
    negative; [NaN] comes from arithmetic only. *)
Inductive non_finite : Type := Infinity | NegInfinity | NaN.

(** The values the parser can meet.  A finite number is only ever tested
    for truthiness and copied, so an integer stands for it; the numbers that
    are not finite are apart, because [JSON.stringify] writes them as [null].
    An array is an object too: besides its elements it can own named
    properties ([migrated.categories = [] ] on an array input creates one).
    An object is its list of own properties in enumeration order. *)
Inductive value : Type :=
| VUndefined
| VNull
| VBool (b : bool)
| VNum (n : Z)
| VNonFinite (x : non_finite)
| VStr (s : string)
| VArr (elems : list value) (props : list (string * value))
| VObj (fields : list (string * value)).

(** What a [throw] carries.  [TypeError]: reading or writing a property of
    [null]/[undefined], writing one on a primitive in strict code (a class
    body is strict), calling something that is not a function.
    [SyntaxError]: [JSON.parse(undefined)]. *)
Inductive exn : Type := TypeError | SyntaxError.

Inductive result (A : Type) : Type :=
| Ok (a : A)
| Throw (e : exn).
Arguments Ok {A} a.
Arguments Throw {A} e.

Definition bind {A B : Type} (m : result A) (f : A -> result B) : result B :=
  match m with
  | Ok a => f a
  | Throw e => Throw e
  end.

(** [try { body } catch (e) { handler e }] *)
Definition try_catch {A : Type} (body : result A) (handler : exn -> result A) : result A :=
  match body with
  | Ok a => Ok a
  | Throw e => handler e
  end.

Declare Scope js_scope.
Delimit Scope js_scope with js.
Notation "x <- m ;; k" := (bind m (fun x => k))
  (at level 100, m at next level, right associativity) : js_scope.
Local Open Scope js_scope.

Module JS.

(** [!!v] *)
Definition truthy (v : value) : bool :=
  match v with
  | VUndefined | VNull => false
  | VBool b => b
  | VNum n => negb (Z.eqb n 0)
  | VNonFinite NaN => false
  | VNonFinite _ => true
  | VStr s => negb (String.eqb s "")
  | VArr _ _ | VObj _ => true
  end.

(** [typeof v === 'string'] *)
Definition is_string (v : value) : bool :=
  match v with VStr _ => true | _ => false end.

(** [Array.isArray(v)] *)
Definition isArray (v : value) : bool :=
  match v with VArr _ _ => true | _ => false end.

(** [v !== undefined] *)
Definition is_defined (v : value) : bool :=
  match v with VUndefined => false | _ => true end.

(** [a || b], for operands whose evaluation has no effect *)
Definition or_else (a b : value) : value := if truthy a then a else b.

Definition empty_array : value := VArr [] [].

(** Own-property lookup in continuation-passing form: [cont] receives the
    first binding of [k], or [undefined].  The continuation form keeps the
    value it hands over a structural part of the property list, which is what
    lets the recursive descent of the parser be a [Fixpoint]. *)
Definition own_k {A : Type} (k : string) (cont : value -> A) : list (string * value) -> A :=
  fix go (fs : list (string * value)) : A :=
    match fs with
    | [] => cont VUndefined
    | (k', v) :: rest => if String.eqb k' k then cont v else go rest
    end.

Definition own (k : string) (fs : list (string * value)) : value :=
  own_k k (fun v => v) fs.

(** [v.k] for the property names the parser reads ([categories], [name],
    [pages], [url], ...: none of them is inherited from a prototype).
    Reading a property of [null] or [undefined] throws. *)
Definition get_k {A : Type} (v : value) (k : string) (cont : value -> result A) : result A :=
  match v with
  | VUndefined | VNull => Throw TypeError
  | VObj fs => own_k k cont fs
  | VArr _ props => own_k k cont props
  | VBool _ | VNum _ | VNonFinite _ | VStr _ => cont VUndefined
  end.

Definition get (v : value) (k : string) : result value := get_k v k Ok.

(** [a || b] handing the chosen operand to a continuation *)
Definition or_k {A : Type} (a b : value) (cont : value -> A) : A :=
  if truthy a then cont a else cont b.

(** Assignment to an own property: an existing binding is overwritten in
    place, a new one goes last. *)
Fixpoint assign (k : string) (x : value) (fs : list (string * value)) : list (string * value) :=
  match fs with
  | [] => [(k, x)]
  | (k', v) :: rest =>
      if String.eqb k' k then (k', x) :: rest else (k', v) :: assign k x rest
  end.

(** [v.k = x] in strict code *)
Definition set (v : value) (k : string) (x : value) : result value :=
  match v with
  | VObj fs => Ok (VObj (assign k x fs))
  | VArr elems props => Ok (VArr elems (assign k x props))
  | VUndefined | VNull | VBool _ | VNum _ | VNonFinite _ | VStr _ => Throw TypeError
  end.

(** Monadic map over a list, left to right *)
Definition mapM {A B : Type} (f : A -> result B) : list A -> result (list B) :=
  fix go (l : list A) : result (list B) :=
    match l with
    | [] => Ok []
    | x :: rest => y <- f x ;; ys <- go rest ;; Ok (y :: ys)
    end.

(** [l.filter(keep).map(f)] in one pass over [l]: [f] runs on the entries
    [keep] accepts, in order. *)
Definition filter_mapM {A B : Type} (keep : A -> result bool) (f : A -> result B)
  : list A -> result (list B) :=
  fix go (l : list A) : result (list B) :=
    match l with
    | [] => Ok []
    | x :: rest =>
        b <- keep x ;;
        if b then y <- f x ;; ys <- go rest ;; Ok (y :: ys) else go rest
    end.

(** [l.forEach((x, index) => body)] threading the state the body mutates *)
Definition forEach {St : Type} (body : St -> value -> nat -> result St)
  : list value -> nat -> St -> result St :=
  fix go (l : list value) (index : nat) (s : St) : result St :=
    match l with
    | [] => Ok s
    | x :: rest => s' <- body s x index ;; go rest (S index) s'
    end.

(** [v.map(f)]: only an array has a [map] method; the call on anything else
    is a call of [undefined]. *)
Definition array_map (v : value) (f : value -> result value) : result value :=
  match v with
  | VArr elems _ => ys <- mapM f elems ;; Ok (VArr ys [])
  | _ => Throw TypeError
  end.

(** [v.filter(x => x)] on an array *)
Definition array_filter_truthy (v : value) : result value :=
  match v with
  | VArr elems _ => Ok (VArr (filter truthy elems) [])
  | _ => Throw TypeError
  end.

(** [JSON.parse(JSON.stringify(v))] below the top level: a number that is
    not finite is written as [null], an [undefined] array element becomes
    [null], an [undefined] property is left out, the named properties of an
    array are not serialised. *)
Fixpoint JSON_clone (v : value) : value :=
  match v with
  | VNonFinite _ => VNull
  | VArr elems _ =>
      VArr (map (fun e => match e with
                          | VUndefined => VNull
                          | _ => JSON_clone e
                          end) elems) []
  | VObj fs =>
      VObj ((fix go (fs : list (string * value)) : list (string * value) :=
               match fs with
               | [] => []
               | (k, VUndefined) :: rest => go rest
               | (k, v) :: rest => (k, JSON_clone v) :: go rest
               end) fs)
  | _ => v
  end.

(** [JSON.parse(JSON.stringify(v))]: [JSON.stringify(undefined)] is
    [undefined], which [JSON.parse] rejects; [JSON.stringify(Infinity)] is
    the text [null]. *)
Definition JSON_parse_stringify (v : value) : result value :=
  match v with
  | VUndefined => Throw SyntaxError
  | _ => Ok (JSON_clone v)
  end.

(** Template-literal interpolation of an array index *)
Definition index_to_string (index : nat) : string :=
  NilEmpty.string_of_uint (Nat.to_uint index).

(** A value as [JSON.parse] produces it, or a fragment of one: no
    [undefined] and no [NaN] inside, no named properties on arrays.
    [Infinity] and [-Infinity] are among them. *)
Fixpoint is_json (v : value) : bool :=
  match v with
  | VUndefined | VNonFinite NaN => false
  | VArr elems props =>
      forallb is_json elems && match props with [] => true | _ => false end
  | VObj fs => forallb (fun kv => is_json (snd kv)) fs
  | _ => true
  end.

(** A value that [JSON.stringify] writes and [JSON.parse] reads back as it
    is: a JSON value in which every number is finite. *)
Fixpoint json_fixed (v : value) : bool :=
  match v with
  | VUndefined | VNonFinite _ => false
  | VArr elems props =>
      forallb json_fixed elems && match props with [] => true | _ => false end
  | VObj fs => forallb (fun kv => json_fixed (snd kv)) fs
  | _ => true
  end.

End JS.

Notation "x <-- v '.[' k ']' ;; rest" := (JS.get_k v k (fun x => rest))
  (at level 100, v at next level, right associativity) : js_scope.

(* ================================================================== *)
(** * The models the parser builds *)
(* ================================================================== *)

(** [src/js/models/Page.js]: the constructor stores [name] and [url] as
    given and defaults each option with [||]. *)
Module Page.

Record t : Type := mk {
  name : value;
  url : value;
  visibleToPlayers : value;
  blockTypes : value;
  icon : value;
  linkedTokenId : value
}.

(** [new Page(name, url, options)], [options] defaulting to [{}] *)
Definition new (name url options : value) : result t :=
  let options := match options with VUndefined => VObj [] | _ => options end in
  v <- JS.get options "visibleToPlayers" ;;
  b <- JS.get options "blockTypes" ;;
  i <- JS.get options "icon" ;;
  l <- JS.get options "linkedTokenId" ;;
  Ok (mk name url (JS.or_else v (VBool false)) (JS.or_else b VNull) (JS.or_else i VNull) (JS.or_else l VNull)).

(** [Page.fromJSON(json)]: the options are passed on as they are read,
    [undefined] included. *)
Definition fromJSON (json : value) : result t :=
  name <- JS.get json "name" ;;
  url <- JS.get json "url" ;;
  visibleToPlayers <- JS.get json "visibleToPlayers" ;;
  blockTypes <- JS.get json "blockTypes" ;;
  icon <- JS.get json "icon" ;;
  linkedTokenId <- JS.get json "linkedTokenId" ;;
  new name url (VObj [("visibleToPlayers", visibleToPlayers);
                      ("blockTypes", blockTypes);
                      ("icon", icon);
                      ("linkedTokenId", linkedTokenId)]).

Section Serialisation.

(** [x > 0] for an [x] that is a string, an array or an object: the
    language converts it to a number first; that conversion is not
    modelled, and the comparison is left uninterpreted. *)
Variable gt_zero_after_conversion : value -> bool.

(** [x > 0]: [undefined] converts to [NaN], [null] to [0], [true] to [1]. *)
Definition gt_zero (x : value) : bool :=
  match x with
  | VUndefined | VNull => false
  | VBool b => b
  | VNum n => Z.ltb 0 n
  | VNonFinite Infinity => true
  | VNonFinite _ => false
  | VStr _ | VArr _ _ | VObj _ => gt_zero_after_conversion x
  end.

(** [v.length > 0]: the length of an array is the number of its elements,
    the length of a string is zero for the empty string only, a boolean or a
    number has no [length], an object has the [length] it owns. *)
Definition length_gt_zero (v : value) : result bool :=
  match v with
  | VUndefined | VNull => Throw TypeError
  | VArr elems _ => Ok (negb (Nat.eqb (List.length elems) 0))
  | VStr s => Ok (negb (String.eqb s ""))
  | VBool _ | VNum _ | VNonFinite _ => Ok false
  | VObj fs => Ok (gt_zero (JS.own "length" fs))
  end.

(** [toJSON()] *)
Definition toJSON (page : t) : result value :=
  let json := VObj [("name", name page); ("url", url page)] in
  json <- (if JS.truthy (visibleToPlayers page)
           then JS.set json "visibleToPlayers" (VBool true) else Ok json) ;;
  nonEmpty <- (if JS.truthy (blockTypes page)
               then length_gt_zero (blockTypes page) else Ok false) ;;
  json <- (if nonEmpty then JS.set json "blockTypes" (blockTypes page) else Ok json) ;;
  json <- (if JS.truthy (icon page) then JS.set json "icon" (icon page) else Ok json) ;;
  json <- (if JS.truthy (linkedTokenId page)
           then JS.set json "linkedTokenId" (linkedTokenId page) else Ok json) ;;
  Ok json.

End Serialisation.

End Page.

Module Category.

(** Modelled from the spec: the Category model ([src/js/models/Category.js]
    is not among the sources).  "Attributes: [name], [pages: ordered
    sequence of Page], [categories: ordered sequence of Category] (children;
    same type), [collapsed]": the constructor
    [new Category(name, { pages, categories, collapsed })] stores what it is
    given. *)
Inductive t : Type :=
| mk (name : value) (pages : list Page.t) (categories : list t) (collapsed : value).

Definition name (c : t) : value := let (n, _, _, _) := c in n.
Definition pages (c : t) : list Page.t := let (_, p, _, _) := c in p.
Definition categories (c : t) : list t := let (_, _, s, _) := c in s.
Definition collapsed (c : t) : value := let (_, _, _, b) := c in b.

End Category.

Module Config.

(** Modelled from the spec: the Config model ([src/js/models/Config.js] is
    not among the sources).  "Attributes: [categories: ordered sequence of
    Category]"; "default-constructed Config has an empty category
    sequence". *)
Record t : Type := mk { categories : list Category.t }.

(** [new Config()] *)
Definition empty : t := mk [].

(** [new Config({ categories })] *)
Definition new (categories : list Category.t) : t := mk categories.

End Config.

(* ================================================================== *)
(** * ConfigParser *)
(* ================================================================== *)

Module ConfigParser.

Import JS.

(** [a && b]: [b] is evaluated only when [a] is truthy *)
Definition and_then (a : value) (b : result value) : result value :=
  if truthy a then b else Ok a.

(** [errors.push(msg)] *)
Definition push (errors : list string) (msg : string) : list string :=
  errors ++ [msg].

(** [v.forEach(body)] on an array *)
Definition array_forEach {St : Type} (v : value)
  (body : St -> value -> nat -> result St) (s : St) : result St :=
  match v with
  | VArr elems _ => forEach body elems 0 s
  | _ => Throw TypeError
  end.

(** ** parse *)

Definition _parsePage (pageJson : value) : result Page.t :=
  name <- get pageJson "name" ;;
  url <- get pageJson "url" ;;
  visibleToPlayers <- get pageJson "visibleToPlayers" ;;
  blockTypes <- get pageJson "blockTypes" ;;
  icon <- get pageJson "icon" ;;
  linkedTokenId <- get pageJson "linkedTokenId" ;;
  Page.new name url
    (VObj [("visibleToPlayers", or_else visibleToPlayers (VBool false));
           ("blockTypes", or_else blockTypes VNull);
           ("icon", or_else icon VNull);
           ("linkedTokenId", or_else linkedTokenId VNull)]).

(** [page => page && page.name && page.url] *)
Definition keep_page (page : value) : result bool :=
  a <- and_then page (get page "name") ;;
  b <- and_then a (get page "url") ;;
  Ok (truthy b).

Definition _parsePages (pagesJson : value) : result (list Page.t) :=
  match pagesJson with
  | VArr elems _ => filter_mapM keep_page _parsePage elems
  | _ => Ok []
  end.

(** [cat => cat && cat.name] *)
Definition keep_category (cat : value) : result bool :=
  a <- and_then cat (get cat "name") ;;
  Ok (truthy a).

(** The body of [_parseCategories], with the function it maps over the kept
    entries as a parameter: [_parseCategories] and [_parseCategory] call each
    other. *)
Definition _parseCategories_with (parseCategory : value -> result Category.t)
  (categoriesJson : value) : result (list Category.t) :=
  match categoriesJson with
  | VArr elems _ => filter_mapM keep_category parseCategory elems
  | _ => Ok []
  end.

Fixpoint _parseCategory (categoryJson : value) : result Category.t :=
  pagesJson <- get categoryJson "pages" ;;
  pages <- _parsePages (or_else pagesJson empty_array) ;;
  categoriesJson <-- categoryJson.["categories"] ;;
  or_k categoriesJson empty_array (fun categoriesJson =>
  subcategories <- _parseCategories_with _parseCategory categoriesJson ;;
  name <- get categoryJson "name" ;;
  collapsed <- get categoryJson "collapsed" ;;
  Ok (Category.mk name pages subcategories (or_else collapsed (VBool false)))).

Definition _parseCategories (categoriesJson : value) : result (list Category.t) :=
  _parseCategories_with _parseCategory categoriesJson.

(** The [try] block of [parse] *)
Definition parse_body (json : value) : result Config.t :=
  categoriesJson <- get json "categories" ;;
  categories <- _parseCategories (or_else categoriesJson empty_array) ;;
  Ok (Config.new categories).

(** Logging is not modelled. *)
Definition parse (json : value) : result Config.t :=
  if negb (truthy json) then Ok Config.empty
  else try_catch (parse_body json) (fun _ => Ok Config.empty).

(** ** parse, whatever the model constructors do

    [Category.js] and [Config.js] are not among the sources: above, their
    constructors store what they are given, as the data model of the
    specification says.  Here the two constructor calls inside the [try]
    block of [parse] are left open: [new Category(name, { pages, categories,
    collapsed })] and [new Config({ categories })] may return anything, or
    throw, at any depth of the descent.  [new Config()] on the two ways out
    is the default-constructed Config. *)
Section Models.

Variable new_Category :
  value -> list Page.t -> list Category.t -> value -> result Category.t.
Variable new_Config : list Category.t -> result Config.t.

Fixpoint _parseCategory_using (categoryJson : value) : result Category.t :=
  pagesJson <- get categoryJson "pages" ;;
  pages <- _parsePages (or_else pagesJson empty_array) ;;
  categoriesJson <-- categoryJson.["categories"] ;;
  or_k categoriesJson empty_array (fun categoriesJson =>
  subcategories <- _parseCategories_with _parseCategory_using categoriesJson ;;
  name <- get categoryJson "name" ;;
  collapsed <- get categoryJson "collapsed" ;;
  new_Category name pages subcategories (or_else collapsed (VBool false))).

Definition _parseCategories_using (categoriesJson : value) : result (list Category.t) :=
  _parseCategories_with _parseCategory_using categoriesJson.

Definition parse_body_using (json : value) : result Config.t :=
  categoriesJson <- get json "categories" ;;
  categories <- _parseCategories_using (or_else categoriesJson empty_array) ;;
  new_Config categories.

Definition parse_using (json : value) : result Config.t :=
  if negb (truthy json) then Ok Config.empty
  else try_catch (parse_body_using json) (fun _ => Ok Config.empty).

End Models.

(** The constructors of the data model: they store what they are given. *)
Definition storing_Category (name : value) (pages : list Page.t)
  (categories : list Category.t) (collapsed : value) : result Category.t :=
  Ok (Category.mk name pages categories collapsed).

Definition storing_Config (categories : list Category.t) : result Config.t :=
  Ok (Config.new categories).

(** ** validate *)

Record validation : Type := mk_validation {
  valid : bool;
  errors : list string
}.

Definition dquote : string := String "034"%char EmptyString.

Definition _validatePage (page : value) (path : string) : result (list string) :=
  let errors := [] in
  if negb (truthy page) then Ok (push errors (path ++ ": página vacía")) else
  name <- get page "name" ;;
  let errors :=
    if negb (truthy name) || negb (is_string name)
    then push errors (path ++ ": falta nombre o no es string") else errors in
  url <- get page "url" ;;
  let errors :=
    if negb (truthy url) || negb (is_string url)
    then push errors (path ++ ": falta URL o no es string") else errors in
  blockTypes <- get page "blockTypes" ;;
  let errors :=
    if truthy blockTypes && negb (isArray blockTypes)
    then push errors (path ++ ".blockTypes: debe ser un array") else errors in
  Ok errors.

Fixpoint _validateCategory (category : value) (path : string) : result (list string) :=
  let errors := [] in
  if negb (truthy category) then Ok (push errors (path ++ ": categoría vacía")) else
  name <- get category "name" ;;
  let errors :=
    if negb (truthy name) || negb (is_string name)
    then push errors (path ++ ": falta nombre o no es string") else errors in
  pages <- get category "pages" ;;
  errors <-
    (if truthy pages && negb (isArray pages)
     then Ok (push errors (path ++ ".pages: debe ser un array"))
     else if truthy pages
     then array_forEach pages (fun errors page index =>
            pageErrors <- _validatePage page
                            (path ++ ".pages[" ++ index_to_string index ++ "]") ;;
            Ok (errors ++ pageErrors)) errors
     else Ok errors) ;;
  categories <-- category.["categories"] ;;
  errors <-
    (if truthy categories && negb (isArray categories)
     then Ok (push errors (path ++ ".categories: debe ser un array"))
     else if truthy categories
     then array_forEach categories (fun errors subcat index =>
            subcatErrors <- _validateCategory subcat
                              (path ++ ".categories[" ++ index_to_string index ++ "]") ;;
            Ok (errors ++ subcatErrors)) errors
     else Ok errors) ;;
  Ok errors.

Definition validate (json : value) : result validation :=
  let errors := [] in
  if negb (truthy json)
  then Ok (mk_validation false (push errors "Configuración vacía")) else
  categories <- get json "categories" ;;
  if negb (truthy categories)
  then Ok (mk_validation false
             (push errors ("Falta el campo " ++ dquote ++ "categories" ++ dquote))) else
  if negb (isArray categories)
  then Ok (mk_validation false
             (push errors (dquote ++ "categories" ++ dquote ++ " debe ser un array"))) else
  errors <- array_forEach categories (fun errors cat index =>
              catErrors <- _validateCategory cat
                             ("categories[" ++ index_to_string index ++ "]") ;;
              Ok (errors ++ catErrors)) errors ;;
  Ok (mk_validation (Nat.eqb (List.length errors) 0) errors).

(** ** migrate *)

(** [...(x && { k: x })] inside an object literal: a falsy [x] spreads
    nothing. *)
Definition spread_if (k : string) (x : value) : list (string * value) :=
  if truthy x then [(k, x)] else [].

Definition _migratePage (page : value) : result value :=
  if negb (truthy page) then Ok VNull else
  url <- get page "url" ;;
  if negb (truthy url) then Ok VNull else
  name <- get page "name" ;;
  visibleToPlayers <- get page "visibleToPlayers" ;;
  visible <- get page "visible" ;;
  blockTypes <- get page "blockTypes" ;;
  icon <- get page "icon" ;;
  linkedTokenId <- get page "linkedTokenId" ;;
  Ok (VObj ([("name", or_else name (VStr "Unnamed Page"));
             ("url", url);
             ("visibleToPlayers", or_else (or_else visibleToPlayers visible) (VBool false))]
            ++ spread_if "blockTypes" blockTypes
            ++ spread_if "icon" icon
            ++ spread_if "linkedTokenId" linkedTokenId)).

Fixpoint _migrateCategory (category : value) : result value :=
  if negb (truthy category) then Ok VNull else
  name <- get category "name" ;;
  pagesJson <- get category "pages" ;;
  pages <- array_map (or_else pagesJson empty_array) _migratePage ;;
  pages <- array_filter_truthy pages ;;
  categoriesJson <-- category.["categories"] ;;
  or_k categoriesJson empty_array (fun categoriesJson =>
  categories <- array_map categoriesJson _migrateCategory ;;
  categories <- array_filter_truthy categories ;;
  let migrated := VObj [("name", or_else name (VStr "Unnamed Category"));
                        ("pages", pages);
                        ("categories", categories)] in
  collapsed <- get category "collapsed" ;;
  if is_defined collapsed then set migrated "collapsed" collapsed else Ok migrated).

Definition migrate (json : value) : result value :=
  if negb (truthy json) then Ok (VObj [("categories", VArr [] [])]) else
  migrated <- JSON_parse_stringify json ;;
  categories <- get migrated "categories" ;;
  migrated <- (if negb (truthy categories)
               then set migrated "categories" (VArr [] [])
               else Ok migrated) ;;
  categories <- get migrated "categories" ;;
  categories <- array_map categories _migrateCategory ;;
  set migrated "categories" categories.

End ConfigParser.

(* ================================================================== *)
(** * CacheService *)
(* ================================================================== *)

Module CacheService.

(** Modelled from the spec: the cache service
    ([src/js/services/CacheService.js] is not among the sources, only its
    unit tests are).  Three independent tiers keyed by page identifier: the
    persisted blocks cache, the persisted page-info cache, and the
    rendered-HTML cache "held only in process memory, bounded to a fixed
    capacity".  The rendered-HTML tier is a JavaScript object
    ([Object.keys(cacheService.localHtmlCache)] in the tests): its keys keep
    their insertion order, and writing an existing key keeps its place. *)
Record t : Type := mk {
  blocksCache : list (string * value);
  pageInfoCache : list (string * value);
  localHtmlCache : list (string * string)
}.

(** Modelled from the spec: "Capacity is fixed at 20 entries." *)
Definition MAX_LOCAL_HTML : nat := 20.

(** [new CacheService()] with an empty persisted store *)
Definition new : t := mk [] [] [].

Fixpoint lookup {V : Type} (k : string) (m : list (string * V)) : option V :=
  match m with
  | [] => None
  | (k', v) :: rest => if String.eqb k' k then Some v else lookup k rest
  end.

Fixpoint put {V : Type} (k : string) (x : V) (m : list (string * V)) : list (string * V) :=
  match m with
  | [] => [(k, x)]
  | (k', v) :: rest =>
      if String.eqb k' k then (k', x) :: rest else (k', v) :: put k x rest
  end.

Fixpoint remove {V : Type} (k : string) (m : list (string * V)) : list (string * V) :=
  match m with
  | [] => []
  | (k', v) :: rest =>
      if String.eqb k' k then remove k rest else (k', v) :: remove k rest
  end.

(** Modelled from the spec: "[getCachedBlocks(pageId)] -> sequence of block
    | null"; a miss ([null]) is [None]. *)
Definition getCachedBlocks (s : t) (pageId : string) : option value :=
  lookup pageId (blocksCache s).

(** Modelled from the spec: [setCachedBlocks(pageId, blocks, forceRefresh)];
    "the exact forced-vs-lazy semantics are a caller contract, not enforced
    internally", and the tests read back what was set with
    [forceRefresh = false]: the entry is written either way. *)
Definition setCachedBlocks (s : t) (pageId : string) (blocks : value) (forceRefresh : bool) : t :=
  mk (put pageId blocks (blocksCache s)) (pageInfoCache s) (localHtmlCache s).

(** Modelled from the spec: "[removeCachedBlocks(pageId)] deletes the entry;
    absence is not an error." *)
Definition removeCachedBlocks (s : t) (pageId : string) : t :=
  mk (remove pageId (blocksCache s)) (pageInfoCache s) (localHtmlCache s).

Definition getCachedPageInfo (s : t) (pageId : string) : option value :=
  lookup pageId (pageInfoCache s).

(** Modelled from the spec: "[setCachedPageInfo(pageId, info)] stamps
    [cachedAt] with the current time at write"; the clock is the argument
    [now]. *)
Definition setCachedPageInfo (s : t) (pageId : string) (info : list (string * value)) (now : value) : t :=
  mk (blocksCache s)
     (put pageId (VObj (JS.assign "cachedAt" now info)) (pageInfoCache s))
     (localHtmlCache s).

Definition getHtmlFromLocalCache (s : t) (pageId : string) : option string :=
  lookup pageId (localHtmlCache s).

(** Modelled from the spec: "Insertion beyond capacity evicts the oldest
    entry by insertion order (FIFO, not LRU)". *)
Definition saveHtmlToLocalCache (s : t) (pageId html : string) : t :=
  let cache := put pageId html (localHtmlCache s) in
  let cache := if Nat.ltb MAX_LOCAL_HTML (List.length cache) then List.tl cache else cache in
  mk (blocksCache s) (pageInfoCache s) cache.

(** Modelled from the spec: "[clearLocalCache()] empties the in-memory HTML
    tier only". *)
Definition clearLocalCache (s : t) : t :=
  mk (blocksCache s) (pageInfoCache s) [].

(** The calls a client can make, and the service as a state machine.  The
    two reads leave the state as it is. *)
Inductive call : Type :=
| SaveHtml (pageId html : string)
| GetHtml (pageId : string)
| ClearLocal
| SetBlocks (pageId : string) (blocks : value) (forceRefresh : bool)
| GetBlocks (pageId : string)
| RemoveBlocks (pageId : string)
| SetPageInfo (pageId : string) (info : list (string * value)) (now : value)
| GetPageInfo (pageId : string).

Definition step (s : t) (c : call) : t :=
  match c with
  | SaveHtml pageId html => saveHtmlToLocalCache s pageId html
  | ClearLocal => clearLocalCache s
  | SetBlocks pageId blocks forceRefresh => setCachedBlocks s pageId blocks forceRefresh
  | RemoveBlocks pageId => removeCachedBlocks s pageId
  | SetPageInfo pageId info now => setCachedPageInfo s pageId info now
  | GetHtml _ | GetBlocks _ | GetPageInfo _ => s
  end.

Definition run (calls : list call) (s : t) : t := fold_left step calls s.

End CacheService.

(* ================================================================== *)
(** * Definitions used to state the properties *)
(* ================================================================== *)

Module Props.

Import JS ConfigParser.

(** [v.k] for a [v] that is neither [null] nor [undefined] *)
Definition prop (v : value) (k : string) : value :=
  match v with
  | VObj fs => own k fs
  | VArr _ ps => own k ps
  | _ => VUndefined
  end.

Definition prop_k {A : Type} (v : value) (k : string) (cont : value -> A) : A :=
  match v with
  | VObj fs => own_k k cont fs
  | VArr _ ps => own_k k cont ps
  | _ => cont VUndefined
  end.

Definition nullish (v : value) : bool :=
  match v with VUndefined | VNull => true | _ => false end.

(** [Infinity], [-Infinity] and [NaN]: the values [JSON.stringify] writes
    as [null] *)
Definition is_non_finite (v : value) : bool :=
  match v with VNonFinite _ => true | _ => false end.

(** Truthy, and still truthy in the copy [JSON.parse(JSON.stringify(...))]
    makes *)
Definition json_truthy (v : value) : bool := truthy v && negb (is_non_finite v).

(** The elements of an array; nothing for any other value *)
Definition elements (v : value) : list value :=
  match v with VArr elems _ => elems | _ => [] end.

(** Size of a value, the measure of the inductions on nested
    configurations *)
Fixpoint vsize (v : value) : nat :=
  match v with
  | VArr elems ps =>
      S (list_sum (map vsize elems) + list_sum (map (fun kv => vsize (snd kv)) ps))
  | VObj fs => S (list_sum (map (fun kv => vsize (snd kv)) fs))
  | _ => 0
  end.

Definition unwrap {A : Type} (d : A) (r : result A) : A :=
  match r with Ok a => a | Throw _ => d end.

(** The error lists of the two validators, as plain functions *)
Definition page_errors (page : value) (path : string) : list string :=
  unwrap [] (_validatePage page path).

Definition category_errors (category : value) (path : string) : list string :=
  unwrap [] (_validateCategory category path).

(** What [forEach] gathers from a body that appends [g x index] *)
Fixpoint collect (g : value -> nat -> list string) (l : list value) (index : nat) : list string :=
  match l with
  | [] => []
  | x :: rest => g x index ++ collect g rest (S index)
  end.

(** The three groups of errors of a category that is not falsy *)
Definition name_errors (category : value) (path : string) : list string :=
  if truthy (prop category "name") && is_string (prop category "name")
  then [] else [(path ++ ": falta nombre o no es string")%string].

Definition pages_errors (category : value) (path : string) : list string :=
  let pages := prop category "pages" in
  if truthy pages && negb (isArray pages)
  then [(path ++ ".pages: debe ser un array")%string]
  else collect (fun page index =>
                  page_errors page (path ++ ".pages[" ++ index_to_string index ++ "]"))
               (elements pages) 0.

Definition subcategories_errors (category : value) (path : string) : list string :=
  let categories := prop category "categories" in
  if truthy categories && negb (isArray categories)
  then [(path ++ ".categories: debe ser un array")%string]
  else collect (fun subcat index =>
                  category_errors subcat
                    (path ++ ".categories[" ++ index_to_string index ++ "]"))
               (elements categories) 0.

(** The entries [_parseCategories] and [_parsePages] keep *)
Definition category_kept (cat : value) : bool :=
  truthy cat && truthy (prop cat "name").

(** [cat] is an entry the descent of [parse] reaches from the array
    [entries]: a kept entry of it, or of the [categories] of a kept entry, at
    any depth. *)
Inductive descends_to : value -> value -> Prop :=
| descends_here entries cat :
    In cat (elements entries) -> category_kept cat = true ->
    descends_to entries cat
| descends_below entries cat parent :
    In parent (elements entries) -> category_kept parent = true ->
    descends_to (prop parent "categories") cat ->
    descends_to entries cat.

Definition page_kept (page : value) : bool :=
  truthy page && truthy (prop page "name") && truthy (prop page "url").

(** What the parser builds from a kept page and from a kept category *)
Definition parsed_page (page : value) : Page.t :=
  Page.mk (prop page "name") (prop page "url")
          (or_else (prop page "visibleToPlayers") (VBool false))
          (or_else (prop page "blockTypes") VNull)
          (or_else (prop page "icon") VNull)
          (or_else (prop page "linkedTokenId") VNull).

Definition parsed_category (cat : value) : Category.t :=
  unwrap (Category.mk VUndefined [] [] VUndefined) (_parseCategory cat).

(** The pages [_migratePage] keeps *)
Definition has_usable_url (page : value) : bool :=
  truthy page && truthy (prop page "url").

(** What [_migratePage] returns *)
Definition migrated_page (page : value) : value :=
  if has_usable_url page
  then VObj ([("name", or_else (prop page "name") (VStr "Unnamed Page"));
              ("url", prop page "url");
              ("visibleToPlayers",
               or_else (or_else (prop page "visibleToPlayers") (prop page "visible"))
                       (VBool false))]
             ++ spread_if "blockTypes" (prop page "blockTypes")
             ++ spread_if "icon" (prop page "icon")
             ++ spread_if "linkedTokenId" (prop page "linkedTokenId"))
  else VNull.

(** The object [_migrateCategory] builds from the migrated pages and
    subcategories of a category that is not falsy *)
Definition migrated_category_of (category : value) (pages categories : list value) : value :=
  VObj ([("name", or_else (prop category "name") (VStr "Unnamed Category"));
         ("pages", VArr (filter truthy pages) []);
         ("categories", VArr (filter truthy categories) [])]
        ++ (if is_defined (prop category "collapsed")
            then [("collapsed", prop category "collapsed")] else [])).

(** ** The validation rules, one constructor per rule

    Three of the rules ask of a field ([pages], [categories], [blockTypes])
    that "if present, [it] must be an array".  The test that tells whether a
    field is present is a parameter of the rules: [validate] tests whether
    the field is truthy; the words of the specification ask for no more than
    the field being there. *)
Section Rules.

Variable present : value -> bool.

Inductive page_violation (page : value) (path : string) : string -> Prop :=
| pv_empty :
    truthy page = false ->
    page_violation page path (path ++ ": página vacía")
| pv_name :
    truthy page = true ->
    truthy (prop page "name") && is_string (prop page "name") = false ->
    page_violation page path (path ++ ": falta nombre o no es string")
| pv_url :
    truthy page = true ->
    truthy (prop page "url") && is_string (prop page "url") = false ->
    page_violation page path (path ++ ": falta URL o no es string")
| pv_blockTypes :
    truthy page = true ->
    present (prop page "blockTypes") = true ->
    isArray (prop page "blockTypes") = false ->
    page_violation page path (path ++ ".blockTypes: debe ser un array").

Inductive category_violation : value -> string -> string -> Prop :=
| cv_empty category path :
    truthy category = false ->
    category_violation category path (path ++ ": categoría vacía")
| cv_name category path :
    truthy category = true ->
    truthy (prop category "name") && is_string (prop category "name") = false ->
    category_violation category path (path ++ ": falta nombre o no es string")
| cv_pages category path :
    truthy category = true ->
    present (prop category "pages") = true ->
    isArray (prop category "pages") = false ->
    category_violation category path (path ++ ".pages: debe ser un array")
| cv_page category path index page msg :
    truthy category = true ->
    nth_error (elements (prop category "pages")) index = Some page ->
    page_violation page (path ++ ".pages[" ++ index_to_string index ++ "]") msg ->
    category_violation category path msg
| cv_categories category path :
    truthy category = true ->
    present (prop category "categories") = true ->
    isArray (prop category "categories") = false ->
    category_violation category path (path ++ ".categories: debe ser un array")
| cv_subcategory category path index subcat msg :
    truthy category = true ->
    nth_error (elements (prop category "categories")) index = Some subcat ->
    category_violation subcat (path ++ ".categories[" ++ index_to_string index ++ "]") msg ->
    category_violation category path msg.

Inductive config_violation (json : value) : string -> Prop :=
| cfv_category index cat msg :
    nth_error (elements (prop json "categories")) index = Some cat ->
    category_violation cat ("categories[" ++ index_to_string index ++ "]") msg ->
    config_violation json msg.

End Rules.

(** The rules as [validate] tests them: a field is present when it is
    truthy. *)
Definition tested_violation : value -> string -> Prop := config_violation truthy.

(** Modelled from the spec: "every category must have a string [name];
    category [pages]/[categories] sub-fields, if present, must be arrays, and
    each element is validated by the same rules one level down; every page
    must have string [name] and [url]; a page's [blockTypes], if present,
    must be an array".  A field is present when the object has it, whatever
    its value.  A name or url is a string that is not empty (the data model
    has them "required, non-empty"), and an entry that is falsy has none of
    what the rules ask for. *)
Definition specified_violation : value -> string -> Prop := config_violation is_defined.

(** A [pages], [categories] or [blockTypes] that is there and is falsy,
    in a category or page that [validate] visits: a field the words of the
    rule reject, and the test of [validate] lets pass. *)
Inductive page_falsy_field (page : value) (path : string) : string -> Prop :=
| pf_blockTypes :
    truthy page = true ->
    is_defined (prop page "blockTypes") = true ->
    truthy (prop page "blockTypes") = false ->
    page_falsy_field page path (path ++ ".blockTypes: debe ser un array").

Inductive category_falsy_field : value -> string -> string -> Prop :=
| cf_pages category path :
    truthy category = true ->
    is_defined (prop category "pages") = true ->
    truthy (prop category "pages") = false ->
    category_falsy_field category path (path ++ ".pages: debe ser un array")
| cf_page category path index page msg :
    truthy category = true ->
    nth_error (elements (prop category "pages")) index = Some page ->
    page_falsy_field page (path ++ ".pages[" ++ index_to_string index ++ "]") msg ->
    category_falsy_field category path msg
| cf_categories category path :
    truthy category = true ->
    is_defined (prop category "categories") = true ->
    truthy (prop category "categories") = false ->
    category_falsy_field category path (path ++ ".categories: debe ser un array")
| cf_subcategory category path index subcat msg :
    truthy category = true ->
    nth_error (elements (prop category "categories")) index = Some subcat ->
    category_falsy_field subcat (path ++ ".categories[" ++ index_to_string index ++ "]") msg ->
    category_falsy_field category path msg.

Inductive unreported_violation (json : value) : string -> Prop :=
| unreported_in_category index cat msg :
    nth_error (elements (prop json "categories")) index = Some cat ->
    category_falsy_field cat ("categories[" ++ index_to_string index ++ "]") msg ->
    unreported_violation json msg.

(** ** Inputs on which [migrate] returns *)

Definition arrayish (v : value) : bool := negb (truthy v) || isArray v.

Fixpoint category_migratable (category : value) : bool :=
  negb (truthy category) ||
  (arrayish (prop category "pages") &&
   prop_k category "categories" (fun categories =>
     arrayish categories &&
     match categories with
     | VArr elems _ => forallb category_migratable elems
     | _ => true
     end)).

Definition holds_properties (v : value) : bool :=
  match v with VObj _ | VArr _ _ => true | _ => false end.

Definition migratable (json : value) : bool :=
  negb (truthy json) ||
  (holds_properties json &&
   arrayish (prop json "categories") &&
   forallb category_migratable (elements (prop json "categories"))).

(** ** Inputs whose names, urls and block types have the types [validate]
    asks for *)

Definition string_if_truthy (v : value) : bool := negb (truthy v) || is_string v.

Definition page_well_typed (page : value) : bool :=
  negb (has_usable_url page) ||
  (is_string (prop page "url") &&
   string_if_truthy (prop page "name") &&
   arrayish (prop page "blockTypes")).

Fixpoint category_well_typed (category : value) : bool :=
  negb (truthy category) ||
  (string_if_truthy (prop category "name") &&
   forallb page_well_typed (elements (prop category "pages")) &&
   prop_k category "categories" (fun categories =>
     match categories with
     | VArr elems _ => forallb category_well_typed elems
     | _ => true
     end)).

Definition config_well_typed (json : value) : bool :=
  forallb (fun cat => truthy cat && category_well_typed cat)
          (elements (prop json "categories")).

(** ** The same conditions, on the input of [migrate]

    [migrate] works on the copy [JSON.parse(JSON.stringify(json))], in which
    a number that is not finite has become [null]: on the input, such a
    number counts as falsy. *)

(** Falsy, an array, or a number the copy holds as [null] *)
Definition json_arrayish (v : value) : bool := negb (json_truthy v) || isArray v.

Fixpoint json_category_migratable (category : value) : bool :=
  negb (json_truthy category) ||
  (json_arrayish (prop category "pages") &&
   prop_k category "categories" (fun categories =>
     json_arrayish categories &&
     match categories with
     | VArr elems _ => forallb json_category_migratable elems
     | _ => true
     end)).

Definition json_migratable (json : value) : bool :=
  negb (truthy json) ||
  (holds_properties json &&
   json_arrayish (prop json "categories") &&
   forallb json_category_migratable (elements (prop json "categories"))).

(** No entry of the top-level [categories] is falsy or a number that is not
    finite, and names, urls and block types have the types [validate] asks
    for *)
Definition json_config_well_typed (json : value) : bool :=
  forallb (fun cat => json_truthy cat && category_well_typed cat)
          (elements (prop json "categories")).

(** ** The order of insertion into the rendered-HTML tier *)

(** [Object.keys(cacheService.localHtmlCache)] *)
Definition html_keys (s : CacheService.t) : list string :=
  map fst (CacheService.localHtmlCache s).

(** The index, counting the calls from [index] on, of the call that
    inserted [pageId] last: a [saveHtmlToLocalCache(pageId, ...)] made when
    [getHtmlFromLocalCache(pageId)] was [null].  A save of a key the tier
    holds inserts nothing, and neither does a read. *)
Fixpoint last_insertion (calls : list CacheService.call) (s : CacheService.t)
  (index : nat) (pageId : string) (last : option nat) : option nat :=
  match calls with
  | [] => last
  | c :: rest =>
      last_insertion rest (CacheService.step s c) (S index) pageId
        (match c with
         | CacheService.SaveHtml k _ =>
             if String.eqb k pageId
             then match CacheService.getHtmlFromLocalCache s pageId with
                  | None => Some index
                  | Some _ => last
                  end
             else last
         | _ => last
         end)
  end.

Definition inserted_at (calls : list CacheService.call) (pageId : string) : option nat :=
  last_insertion calls CacheService.new 0 pageId None.

Definition inserted_before (calls : list CacheService.call) (a b : string) : bool :=
  match inserted_at calls a, inserted_at calls b with
  | Some i, Some j => Nat.ltb i j
  | _, _ => false
  end.

(** The keys are listed in the order of their insertion, each inserted
    before the call of index [index]. *)
Fixpoint in_insertion_order (inserted : string -> option nat) (index : nat)
  (keys : list string) : Prop :=
  match keys with
  | [] => True
  | k :: rest =>
      (exists i, inserted k = Some i /\ i < index /\
                 forall k', In k' rest -> exists j, inserted k' = Some j /\ i < j) /\
      in_insertion_order inserted index rest
  end.

(** After [calls] on a new service, [pageId] is in the tier and every
    other key of the tier was inserted after it. *)
Definition oldest (calls : list CacheService.call) (pageId : string) : bool :=
  let keys := html_keys (CacheService.run calls CacheService.new) in
  existsb (String.eqb pageId) keys &&
  forallb (fun k => String.eqb k pageId || inserted_before calls pageId k) keys.

End Props.

(* ================================================================== *)
(** * Concrete configurations *)
(* ================================================================== *)

Module Examples.

Definition obj (fs : list (string * value)) : value := VObj fs.
Definition arr (elems : list value) : value := VArr elems [].
Definition config (categories : list value) : value := obj [("categories", arr categories)].

(** A configuration in the old shape: [visible] instead of
    [visibleToPlayers], a page without [url], a category without [name]. *)
Definition legacy_config : value :=
  config
    [obj [("name", VStr "Test");
          ("pages", arr [obj [("name", VStr "Page"); ("url", VStr "https://...");
                              ("visible", VBool true)];
                         obj [("name", VStr "Invalid")]]);
          ("categories",
           arr [obj [("pages", arr [obj [("url", VStr "https://notion.so/page");
                                         ("blockTypes", arr [VStr "quote"])]]);
                     ("collapsed", VBool true)]])]].

(** [{ categories: [{ name: 5 }] }] *)
Definition numeric_name_config : value := config [obj [("name", VNum 5)]].

(** [{ categories: [null] }] *)
Definition null_entry_config : value := config [VNull].

(** [JSON.parse('{"categories":[1e400]}')] *)
Definition infinite_entry_config : value := config [VNonFinite Infinity].

(** [JSON.parse('{"categories":[{"name":"A","pages":1e400}]}')] *)
Definition infinite_pages_config : value :=
  config [obj [("name", VStr "A"); ("pages", VNonFinite Infinity)]].

(** A constructor that rejects one name: [new Category('Boom', ...)]
    throws, every other call stores what it is given. *)
Definition exploding_Category (name : value) (pages : list Page.t)
  (categories : list Category.t) (collapsed : value) : result Category.t :=
  match name with
  | VStr "Boom" => Throw TypeError
  | _ => ConfigParser.storing_Category name pages categories collapsed
  end.

(** [{ categories: [{ name: 'A' }, { name: 'B', categories: [{ name: 'C' },
    { name: 'Boom' }] }] }] *)
Definition boom_config : value :=
  config [obj [("name", VStr "A")];
          obj [("name", VStr "B");
               ("categories", arr [obj [("name", VStr "C")];
                                   obj [("name", VStr "Boom")]])]].

(** [{ categories: [{ name: 'A', pages: 'x' }] }] *)
Definition string_pages_config : value :=
  config [obj [("name", VStr "A"); ("pages", VStr "x")]].

(** [{ categories: [{ name: 'A', pages: 0 }] }] *)
Definition zero_pages_config : value :=
  config [obj [("name", VStr "A"); ("pages", VNum 0)]].

(** [{ categories: [{ name: 'A', categories: false,
    pages: [{ name: 'P', url: 'u', blockTypes: '' }] }] }] *)
Definition falsy_fields_config : value :=
  config [obj [("name", VStr "A");
               ("categories", VBool false);
               ("pages", arr [obj [("name", VStr "P"); ("url", VStr "u");
                                   ("blockTypes", VStr "")]])]].

(** [{ categories: [{ name: 'A', pages: {} }] }] *)
Definition object_pages_config : value :=
  config [obj [("name", VStr "A"); ("pages", obj [])]].

(** [{ name: 'P', url: 'u', visibleToPlayers: false, visible: true }] *)
Definition hidden_page_with_legacy_flag : value :=
  obj [("name", VStr "P"); ("url", VStr "u");
       ("visibleToPlayers", VBool false); ("visible", VBool true)].

(** [{ categories: [{ name: 'Test', pages: [{ name: 'Page', url: 'https://...' },
    { url: 'https://...' }] }, { pages: 7 }] }] *)
Definition invalid_config : value :=
  config
    [obj [("name", VStr "Test");
          ("pages", arr [obj [("name", VStr "Page"); ("url", VStr "https://...")];
                         obj [("url", VStr "https://...")]])];
     obj [("pages", VNum 7)]].

(** [{ categories: [{ name: 'NPCs', pages: [...] }, null, { pages: [] },
    { name: 'Places' }] }] *)
Definition sparse_config : value :=
  config
    [obj [("name", VStr "NPCs");
          ("pages", arr [obj [("name", VStr "Gandalf"); ("url", VStr "https://notion.so/gandalf")];
                         VNull;
                         obj [("name", VStr "No url")]])];
     VNull;
     obj [("pages", arr [])];
     obj [("name", VStr "Places")]].

(** [saveHtmlToLocalCache(`page-${i}`, `<div>${i}</div>`)] for [i] from
    [first] to [first + count - 1] *)
Definition saves (first count : nat) : list CacheService.call :=
  map (fun i => CacheService.SaveHtml ("page-" ++ JS.index_to_string i)
                                      ("<div>" ++ JS.index_to_string i ++ "</div>"))
      (seq first count).

End Examples.

(* ================================================================== *)
(** * UIRenderer: what a player can see *)
(* ================================================================== *)

Module UIRenderer.

Import JS.

(** [l.some(pred)]: stops at the first entry [pred] accepts *)
Definition someM {A : Type} (pred : A -> result bool) : list A -> result bool :=
  fix go (l : list A) : result bool :=
    match l with
    | [] => Ok false
    | x :: rest => b <- pred x ;; if b then Ok true else go rest
    end.

(** [v.some(pred)]: only an array has a [some] method *)
Definition array_some (v : value) (pred : value -> result bool) : result bool :=
  match v with
  | VArr elems _ => someM pred elems
  | _ => Throw TypeError
  end.

(** [v === true] *)
Definition is_true (v : value) : bool :=
  match v with VBool true => true | _ => false end.

(** [p => p.visibleToPlayers === true] *)
Definition page_visible (p : value) : result bool :=
  v <- get p "visibleToPlayers" ;; Ok (is_true v).

Fixpoint hasVisibleContentForPlayers (category : value) : result bool :=
  pages <- get category "pages" ;;
  direct <- (if truthy pages then array_some pages page_visible else Ok false) ;;
  if direct then Ok true else
  categories <-- category.["categories"] ;;
  if truthy categories
  then array_some categories hasVisibleContentForPlayers
  else Ok false.

End UIRenderer.

(* ================================================================== *)
(** * The debug-mode function *)
(* ================================================================== *)

(** The serverless function that reports the debug mode (the second
    handler of [src/netlify/functions/notion-api.js]).  The event carries the
    HTTP method and the query parameters; the environment carries the two
    variables the handler reads.  Nothing inside its [try] block throws on
    such an event, so its [catch] branch is not modelled. *)
Module DebugMode.

Record event : Type := mk_event {
  httpMethod : string;
  queryStringParameters : option (list (string * string))
}.

Record env : Type := mk_env {
  DEBUG_MODE : option string;
  OWNER_TOKEN : option string
}.

Record response : Type := mk_response {
  statusCode : nat;
  headers : list (string * string);
  body : string
}.

Fixpoint param (k : string) (q : list (string * string)) : option string :=
  match q with
  | [] => None
  | (k', v) :: rest => if String.eqb k' k then Some v else param k rest
  end.

(** [x === s] for an [x] that is a string or [undefined] *)
Definition is_string_eq (x : option string) (s : string) : bool :=
  match x with Some x => String.eqb x s | None => false end.

(** Truthiness of an environment variable: set and not empty *)
Definition set_and_not_empty (x : option string) : bool :=
  match x with Some x => negb (String.eqb x "") | None => false end.

Definition dq : string := String "034"%char EmptyString.

(** [JSON.stringify({ debug: b })] *)
Definition stringify_debug (b : bool) : string :=
  "{" ++ dq ++ "debug" ++ dq ++ ":" ++ (if b then "true" else "false") ++ "}".

(** [JSON.stringify({ error: 'Method not allowed' })] *)
Definition stringify_method_not_allowed : string :=
  "{" ++ dq ++ "error" ++ dq ++ ":" ++ dq ++ "Method not allowed" ++ dq ++ "}".

(** [event.queryStringParameters?.token] *)
Definition userToken (e : event) : option string :=
  match queryStringParameters e with
  | Some q => param "token" q
  | None => None
  end.

(** The value of [DEBUG_MODE] the handler puts in the body *)
Definition debug_mode (e : event) (v : env) : bool :=
  let DEBUG_MODE_ENV :=
    is_string_eq (DEBUG_MODE v) "true" || is_string_eq (DEBUG_MODE v) "1" in
  if set_and_not_empty (OWNER_TOKEN v)
  then DEBUG_MODE_ENV &&
       match userToken e, OWNER_TOKEN v with
       | Some t, Some o => String.eqb t o
       | _, _ => false
       end
  else DEBUG_MODE_ENV.

Definition handler (e : event) (v : env) : response :=
  if String.eqb (httpMethod e) "OPTIONS"
  then mk_response 200
         [("Access-Control-Allow-Origin", "*");
          ("Access-Control-Allow-Headers", "Content-Type");
          ("Access-Control-Allow-Methods", "GET, OPTIONS")]
         ""
  else if negb (String.eqb (httpMethod e) "GET")
  then mk_response 405 [("Access-Control-Allow-Origin", "*")] stringify_method_not_allowed
  else mk_response 200
         [("Content-Type", "application/json");
          ("Access-Control-Allow-Origin", "*");
          ("Access-Control-Allow-Headers", "Content-Type");
          ("Access-Control-Allow-Methods", "GET, OPTIONS")]
         (stringify_debug (debug_mode e v)).

End DebugMode.

(* ================================================================== *)
(** * Definitions used to state further properties *)
(* ================================================================== *)

Module Shape.

Import JS ConfigParser Props.

(** The entries of a category in the JSON: itself, the entries of its
    [pages] array, and the entries of the categories of its [categories]
    array. *)
Fixpoint json_entries (category : value) : nat :=
  1 + List.length (elements (prop category "pages"))
  + prop_k category "categories" (fun categories =>
      match categories with
      | VArr elems _ => list_sum (map json_entries elems)
      | _ => 0
      end).

Definition config_json_entries (json : value) : nat :=
  list_sum (map json_entries (elements (prop json "categories"))).

(** The categories and pages of a parsed category, and of a Config *)
Fixpoint category_entries (c : Category.t) : nat :=
  match c with
  | Category.mk _ pages categories _ =>
      1 + List.length pages + list_sum (map category_entries categories)
  end.

Definition config_entries (c : Config.t) : nat :=
  list_sum (map category_entries (Config.categories c)).

(** A category that [parse] keeps with all its pages and, at every depth,
    all its subcategories *)
Fixpoint fully_kept (category : value) : bool :=
  category_kept category &&
  forallb page_kept (elements (prop category "pages")) &&
  prop_k category "categories" (fun categories =>
    match categories with
    | VArr elems _ => forallb fully_kept elems
    | _ => true
    end).



(** A category on which [hasVisibleContentForPlayers] reads no property of
    [null] or [undefined] and calls [some] on arrays only *)
Fixpoint renderable (category : value) : bool :=
  negb (nullish category) &&
  arrayish (prop category "pages") &&
  forallb (fun page => negb (nullish page)) (elements (prop category "pages")) &&
  prop_k category "categories" (fun categories =>
    arrayish categories &&
    match categories with
    | VArr elems _ => forallb renderable elems
    | _ => true
    end).

(** A page with [visibleToPlayers: true] in the category or below it *)
Inductive has_visible_page : value -> Prop :=
| hvp_page category page :
    In page (elements (prop category "pages")) ->
    prop page "visibleToPlayers" = VBool true ->
    has_visible_page category
| hvp_subcategory category subcat :
    In subcat (elements (prop category "categories")) ->
    has_visible_page subcat ->
    has_visible_page category.

(** [msg] is [path] followed by something *)
Definition starts_with (path msg : string) : Prop :=
  exists rest, msg = (path ++ rest)%string.

(** Whether [toJSON] writes the [blockTypes] of a page *)
Definition block_types_kept (gt : value -> bool) (page : Page.t) : bool :=
  truthy (Page.blockTypes page) &&
  unwrap false (Page.length_gt_zero gt (Page.blockTypes page)).

(** What [toJSON] writes *)
Definition serialised (gt : value -> bool) (page : Page.t) : value :=
  VObj ([("name", Page.name page); ("url", Page.url page)]
        ++ (if truthy (Page.visibleToPlayers page)
            then [("visibleToPlayers", VBool true)] else [])
        ++ (if block_types_kept gt page
            then [("blockTypes", Page.blockTypes page)] else [])
        ++ spread_if "icon" (Page.icon page)
        ++ spread_if "linkedTokenId" (Page.linkedTokenId page)).

(** The page read back from what [toJSON] wrote *)
Definition reloaded (gt : value -> bool) (page : Page.t) : Page.t :=
  Page.mk (Page.name page) (Page.url page)
          (VBool (truthy (Page.visibleToPlayers page)))
          (if block_types_kept gt page then Page.blockTypes page else VNull)
          (or_else (Page.icon page) VNull)
          (or_else (Page.linkedTokenId page) VNull).

End Shape.

(* ================================================================== *)
(** * Property reads and the monad *)
(* ================================================================== *)

Import JS ConfigParser Props.

Lemma own_k_eq {A : Type} (k : string) (cont : value -> A) (fs : list (string * value)) :
  own_k k cont fs = cont (own k fs).
Proof.
  induction fs as [|[k' v] rest IH]; simpl; [reflexivity|].
  destruct (String.eqb k' k); [reflexivity|exact IH].
Qed.

Lemma prop_k_eq {A : Type} (v : value) (k : string) (cont : value -> A) :
  prop_k v k cont = cont (prop v k).
Proof. destruct v; simpl; try reflexivity; apply own_k_eq. Qed.

Lemma get_prop (v : value) (k : string) :
  get v k = if nullish v then Throw TypeError else Ok (prop v k).
Proof. destruct v; simpl; try reflexivity; unfold get; simpl; apply own_k_eq. Qed.

Lemma truthy_not_nullish (v : value) : truthy v = true -> nullish v = false.
Proof. destruct v; simpl; congruence. Qed.

Lemma get_truthy (v : value) (k : string) :
  truthy v = true -> get v k = Ok (prop v k).
Proof. intros H. rewrite get_prop, (truthy_not_nullish v H). reflexivity. Qed.

Lemma get_k_eq {A : Type} (v : value) (k : string) (cont : value -> result A) :
  get_k v k cont = bind (get v k) cont.
Proof.
  destruct v; simpl; try reflexivity; unfold get; simpl;
    rewrite own_k_eq; symmetry; rewrite own_k_eq; reflexivity.
Qed.

Lemma get_k_truthy {A : Type} (v : value) (k : string) (cont : value -> result A) :
  truthy v = true -> get_k v k cont = cont (prop v k).
Proof. intros H. rewrite get_k_eq, (get_truthy v k H). reflexivity. Qed.

Lemma or_k_eq {A : Type} (a b : value) (cont : value -> A) :
  or_k a b cont = cont (or_else a b).
Proof. unfold or_k, or_else. destruct (truthy a); reflexivity. Qed.

(** ** The recursive functions, one step unfolded *)

Lemma bind_ext {A B : Type} (m : result A) (k1 k2 : A -> result B) :
  (forall a, k1 a = k2 a) -> bind m k1 = bind m k2.
Proof. intros H. destruct m; simpl; [apply H|reflexivity]. Qed.

Ltac unfold_reads :=
  repeat first
    [ rewrite own_k_eq
    | rewrite or_k_eq
    | progress cbn beta iota delta [bind]
    | apply bind_ext; intros ? ].

Lemma _migrateCategory_eq (category : value) :
  truthy category = true ->
  _migrateCategory category =
    (pages <- array_map (or_else (prop category "pages") empty_array) _migratePage ;;
     pages <- array_filter_truthy pages ;;
     categories <- array_map (or_else (prop category "categories") empty_array)
                             _migrateCategory ;;
     categories <- array_filter_truthy categories ;;
     let migrated := VObj [("name", or_else (prop category "name") (VStr "Unnamed Category"));
                           ("pages", pages);
                           ("categories", categories)] in
     if is_defined (prop category "collapsed")
     then set migrated "collapsed" (prop category "collapsed")
     else Ok migrated).
Proof.
  intros H.
  destruct category; simpl in H; try discriminate; subst;
    cbn [_migrateCategory truthy negb get get_k prop]; rewrite ?H;
    cbn [negb]; unfold_reads; reflexivity.
Qed.

Lemma _migrateCategory_falsy (category : value) :
  truthy category = false -> _migrateCategory category = Ok VNull.
Proof.
  intros H. destruct category; simpl in H; try discriminate; subst;
    cbn [_migrateCategory truthy negb]; rewrite ?H; reflexivity.
Qed.

Lemma _validateCategory_falsy (category : value) (path : string) :
  truthy category = false ->
  _validateCategory category path = Ok [(path ++ ": categoría vacía")%string].
Proof.
  intros H. destruct category; simpl in H; try discriminate; subst;
    cbn [_validateCategory truthy negb]; rewrite ?H; reflexivity.
Qed.

Lemma _validateCategory_eq (category : value) (path : string) :
  truthy category = true ->
  _validateCategory category path =
    (let errors :=
       if negb (truthy (prop category "name")) || negb (is_string (prop category "name"))
       then [(path ++ ": falta nombre o no es string")%string] else [] in
     errors <-
       (if truthy (prop category "pages") && negb (isArray (prop category "pages"))
        then Ok (push errors (path ++ ".pages: debe ser un array"))
        else if truthy (prop category "pages")
        then array_forEach (prop category "pages") (fun errors page index =>
               pageErrors <- _validatePage page
                               (path ++ ".pages[" ++ index_to_string index ++ "]") ;;
               Ok (errors ++ pageErrors)) errors
        else Ok errors) ;;
     errors <-
       (if truthy (prop category "categories") && negb (isArray (prop category "categories"))
        then Ok (push errors (path ++ ".categories: debe ser un array"))
        else if truthy (prop category "categories")
        then array_forEach (prop category "categories") (fun errors subcat index =>
               subcatErrors <- _validateCategory subcat
                                 (path ++ ".categories[" ++ index_to_string index ++ "]") ;;
               Ok (errors ++ subcatErrors)) errors
        else Ok errors) ;;
     Ok errors).
Proof.
  intros H.
  destruct category; simpl in H; try discriminate; subst;
    cbn [_validateCategory truthy negb get get_k prop]; rewrite ?H;
    cbn [negb]; unfold_reads; reflexivity.
Qed.

Lemma _parseCategory_eq (categoryJson : value) :
  truthy categoryJson = true ->
  _parseCategory categoryJson =
    (pages <- _parsePages (or_else (prop categoryJson "pages") empty_array) ;;
     subcategories <- _parseCategories (or_else (prop categoryJson "categories") empty_array) ;;
     Ok (Category.mk (prop categoryJson "name") pages subcategories
           (or_else (prop categoryJson "collapsed") (VBool false)))).
Proof.
  intros H. unfold _parseCategories.
  destruct categoryJson; simpl in H; try discriminate; subst;
    cbn [_parseCategory truthy negb get get_k prop]; rewrite ?H;
    cbn [negb]; unfold_reads; reflexivity.
Qed.

(** ** Sizes *)

Lemma list_sum_In (f : value -> nat) (l : list value) (x : value) :
  In x l -> f x <= list_sum (map f l).
Proof.
  induction l as [|y l IH]; simpl; [tauto|].
  intros [->|H]; [lia|]. specialize (IH H). lia.
Qed.

Lemma own_size (k : string) (fs : list (string * value)) :
  vsize (own k fs) <= list_sum (map (fun kv => vsize (snd kv)) fs).
Proof.
  unfold own. induction fs as [|[k' v] rest IH]; simpl; [lia|].
  destruct (String.eqb k' k); simpl; lia.
Qed.

Lemma vsize_element (elems : list value) (ps : list (string * value)) (e : value) :
  In e elems -> vsize e < vsize (VArr elems ps).
Proof. intros H. simpl. pose proof (list_sum_In vsize elems e H). lia. Qed.

Lemma prop_size (v : value) (k : string) : vsize (prop v k) <= vsize v.
Proof.
  destruct v; simpl; try lia.
  - pose proof (own_size k props). lia.
  - pose proof (own_size k fields). lia.
Qed.

(** An element of an array-valued property is smaller than its owner. *)
Lemma prop_element_size (v : value) (k : string) (e : value) :
  In e (elements (prop v k)) -> vsize e < vsize v.
Proof.
  intros H. pose proof (prop_size v k) as Hp.
  destruct (prop v k) eqn:E; simpl in H; try tauto.
  pose proof (vsize_element elems props e H). lia.
Qed.

Lemma or_else_empty_elements (v : value) :
  elements (or_else v empty_array) = elements v.
Proof.
  unfold or_else. destruct (truthy v) eqn:E; [reflexivity|].
  destruct v; try reflexivity; discriminate.
Qed.

(** ** Lists in the monad *)

Lemma mapM_Ok {A B : Type} (f : A -> result B) (g : A -> B) (l : list A) :
  (forall x, In x l -> f x = Ok (g x)) -> mapM f l = Ok (map g l).
Proof.
  induction l as [|x l IH]; intros H; simpl; [reflexivity|].
  rewrite (H x (or_introl eq_refl)). simpl.
  rewrite IH by (intros y Hy; apply H; right; exact Hy). reflexivity.
Qed.

Lemma mapM_fixed {A : Type} (f : A -> result A) (l : list A) :
  (forall x, In x l -> f x = Ok x) -> mapM f l = Ok l.
Proof.
  intros H. rewrite (mapM_Ok f (fun x => x) l H), map_id. reflexivity.
Qed.

Lemma mapM_inv {A B : Type} (f : A -> result B) (l : list A) (l' : list B) :
  mapM f l = Ok l' -> Forall2 (fun x y => f x = Ok y) l l'.
Proof.
  revert l'. induction l as [|x l IH]; simpl; intros l' H.
  - injection H as <-. constructor.
  - destruct (f x) as [y|] eqn:Ex; simpl in H; [|discriminate].
    destruct (mapM f l) as [ys|] eqn:El; simpl in H; [|discriminate].
    injection H as <-. constructor; [exact Ex|apply IH; reflexivity].
Qed.

Lemma mapM_Throw {A B : Type} (f : A -> result B) (l : list A) (x : A) (e : exn) :
  In x l -> f x = Throw e -> exists e', mapM f l = Throw e'.
Proof.
  induction l as [|y l IH]; simpl; [tauto|].
  intros [->|H] Hx.
  - rewrite Hx. simpl. eauto.
  - destruct (f y); simpl; [|eauto].
    destruct (IH H Hx) as [e' ->]. simpl. eauto.
Qed.

Lemma filter_mapM_Ok {A B : Type} (keep : A -> result bool) (f : A -> result B)
      (p : A -> bool) (g : A -> B) (l : list A) :
  (forall x, In x l -> keep x = Ok (p x)) ->
  (forall x, In x l -> p x = true -> f x = Ok (g x)) ->
  filter_mapM keep f l = Ok (map g (filter p l)).
Proof.
  induction l as [|x l IH]; intros Hk Hf; simpl; [reflexivity|].
  rewrite (Hk x (or_introl eq_refl)). simpl.
  assert (IH' : filter_mapM keep f l = Ok (map g (filter p l))).
  { apply IH; intros y Hy; [apply Hk|apply Hf]; right; exact Hy. }
  destruct (p x) eqn:Ep.
  - rewrite (Hf x (or_introl eq_refl) Ep). simpl. rewrite IH'. reflexivity.
  - exact IH'.
Qed.

Lemma forEach_collect (f : value -> nat -> result (list string))
      (g : value -> nat -> list string) (l : list value) :
  (forall x index, In x l -> f x index = Ok (g x index)) ->
  forall index errors,
    forEach (fun errors x index => es <- f x index ;; Ok (errors ++ es)) l index errors
    = Ok (errors ++ collect g l index).
Proof.
  induction l as [|x l IH]; intros H index errors; simpl.
  - rewrite app_nil_r. reflexivity.
  - rewrite (H x index (or_introl eq_refl)). simpl.
    rewrite IH by (intros y i Hy; apply H; right; exact Hy).
    rewrite <- app_assoc. reflexivity.
Qed.

Lemma in_collect (g : value -> nat -> list string) (l : list value) (index : nat) (msg : string) :
  In msg (collect g l index) <->
  exists i x, nth_error l i = Some x /\ In msg (g x (index + i)).
Proof.
  revert index. induction l as [|y l IH]; intros index; simpl.
  - split; [tauto|]. intros (i & x & H & _). destruct i; discriminate.
  - rewrite in_app_iff, IH. split.
    + intros [H|(i & x & Hn & Hi)].
      * exists 0, y. rewrite Nat.add_0_r. auto.
      * exists (S i), x. rewrite Nat.add_succ_r. auto.
    + intros ([|i] & x & Hn & Hi); simpl in Hn.
      * injection Hn as ->. rewrite Nat.add_0_r in Hi. auto.
      * right. exists i, x. rewrite Nat.add_succ_r in Hi. auto.
Qed.

Lemma collect_nil (g : value -> nat -> list string) (l : list value) (index : nat) :
  (forall x i, In x l -> g x i = []) -> collect g l index = [].
Proof.
  revert index. induction l as [|y l IH]; intros index H; simpl; [reflexivity|].
  rewrite (H y index (or_introl eq_refl)). simpl.
  apply IH. intros x i Hx. apply H. right. exact Hx.
Qed.

(** ** validate returns on every input *)

Lemma _validatePage_total (page : value) (path : string) :
  _validatePage page path = Ok (page_errors page path).
Proof.
  unfold page_errors, _validatePage.
  destruct (truthy page) eqn:Hp; simpl; [|reflexivity].
  rewrite !(get_truthy page _ Hp). simpl. reflexivity.
Qed.

Lemma page_errors_eq (page : value) (path : string) :
  page_errors page path =
    if truthy page then
      (if truthy (prop page "name") && is_string (prop page "name")
       then [] else [(path ++ ": falta nombre o no es string")%string])
      ++ (if truthy (prop page "url") && is_string (prop page "url")
          then [] else [(path ++ ": falta URL o no es string")%string])
      ++ (if truthy (prop page "blockTypes") && negb (isArray (prop page "blockTypes"))
          then [(path ++ ".blockTypes: debe ser un array")%string] else [])
    else [(path ++ ": página vacía")%string].
Proof.
  unfold page_errors, _validatePage, push.
  destruct (truthy page) eqn:Hp; simpl; [|reflexivity].
  rewrite !(get_truthy page _ Hp). simpl.
  destruct (truthy (prop page "name")), (is_string (prop page "name")),
    (truthy (prop page "url")), (is_string (prop page "url")),
    (truthy (prop page "blockTypes") && negb (isArray (prop page "blockTypes")));
    reflexivity.
Qed.

Lemma array_forEach_collect (f : value -> nat -> result (list string))
      (g : value -> nat -> list string) (v : value) (errors : list string) :
  isArray v = true ->
  (forall x index, In x (elements v) -> f x index = Ok (g x index)) ->
  array_forEach v (fun errors x index => es <- f x index ;; Ok (errors ++ es)) errors
  = Ok (errors ++ collect g (elements v) 0).
Proof.
  intros Ha H. destruct v; simpl in Ha; try discriminate.
  simpl. apply forEach_collect. exact H.
Qed.

Lemma falsy_elements (v : value) : truthy v = false -> elements v = [].
Proof. destruct v; simpl; congruence. Qed.

Lemma _validateCategory_total_eq (n : nat) :
  forall category path, vsize category < n ->
    _validateCategory category path = Ok (category_errors category path) /\
    category_errors category path =
      if truthy category
      then name_errors category path ++ pages_errors category path
           ++ subcategories_errors category path
      else [(path ++ ": categoría vacía")%string].
Proof.
  induction n as [|n IH]; intros category path Hn; [lia|].
  unfold category_errors at 1 2.
  destruct (truthy category) eqn:Hc.
  2:{ rewrite (_validateCategory_falsy _ _ Hc). simpl. auto. }
  rewrite (_validateCategory_eq _ _ Hc).
  cbv zeta.
  assert (Hpages :
    (if truthy (prop category "pages") && negb (isArray (prop category "pages"))
     then Ok (push (name_errors category path) (path ++ ".pages: debe ser un array"))
     else if truthy (prop category "pages")
     then array_forEach (prop category "pages") (fun errors page index =>
            pageErrors <- _validatePage page
                            (path ++ ".pages[" ++ index_to_string index ++ "]") ;;
            Ok (errors ++ pageErrors)) (name_errors category path)
     else Ok (name_errors category path))
    = Ok (name_errors category path ++ pages_errors category path)).
  { unfold pages_errors. cbv zeta.
    destruct (truthy (prop category "pages")) eqn:Ht; simpl.
    - destruct (isArray (prop category "pages")) eqn:Ha; simpl; [|reflexivity].
      apply array_forEach_collect with
        (f := fun page index => _validatePage page (path ++ ".pages[" ++ index_to_string index ++ "]"))
        (g := fun page index => page_errors page (path ++ ".pages[" ++ index_to_string index ++ "]"));
        [exact Ha|].
      intros p i _. apply _validatePage_total.
    - rewrite (falsy_elements _ Ht). simpl. rewrite app_nil_r. reflexivity. }
  assert (Hname :
    (if negb (truthy (prop category "name")) || negb (is_string (prop category "name"))
     then [(path ++ ": falta nombre o no es string")%string] else [])
    = name_errors category path).
  { unfold name_errors.
    destruct (truthy (prop category "name")), (is_string (prop category "name")); reflexivity. }
  rewrite Hname, Hpages. cbn [bind].
  assert (Hcats :
    (if truthy (prop category "categories") && negb (isArray (prop category "categories"))
     then Ok (push (name_errors category path ++ pages_errors category path)
                (path ++ ".categories: debe ser un array"))
     else if truthy (prop category "categories")
     then array_forEach (prop category "categories") (fun errors subcat index =>
            subcatErrors <- _validateCategory subcat
                              (path ++ ".categories[" ++ index_to_string index ++ "]") ;;
            Ok (errors ++ subcatErrors))
            (name_errors category path ++ pages_errors category path)
     else Ok (name_errors category path ++ pages_errors category path))
    = Ok ((name_errors category path ++ pages_errors category path)
          ++ subcategories_errors category path)).
  { unfold subcategories_errors. cbv zeta.
    destruct (truthy (prop category "categories")) eqn:Ht; simpl.
    - destruct (isArray (prop category "categories")) eqn:Ha; simpl; [|reflexivity].
      apply array_forEach_collect with
        (f := fun subcat index => _validateCategory subcat (path ++ ".categories[" ++ index_to_string index ++ "]"))
        (g := fun subcat index => category_errors subcat (path ++ ".categories[" ++ index_to_string index ++ "]"));
        [exact Ha|].
      intros c i Hin. apply IH.
      pose proof (prop_element_size _ _ _ Hin). lia.
    - rewrite (falsy_elements _ Ht). simpl. rewrite app_nil_r. reflexivity. }
  rewrite Hcats. cbn [bind unwrap]. rewrite <- app_assoc. auto.
Qed.

Lemma _validateCategory_total (category : value) (path : string) :
  _validateCategory category path = Ok (category_errors category path).
Proof. apply (_validateCategory_total_eq (S (vsize category))). lia. Qed.

Lemma category_errors_eq (category : value) (path : string) :
  category_errors category path =
    if truthy category
    then name_errors category path ++ pages_errors category path
         ++ subcategories_errors category path
    else [(path ++ ": categoría vacía")%string].
Proof. apply (_validateCategory_total_eq (S (vsize category))). lia. Qed.

(** [validate] as a plain function of its input *)
Lemma validate_eq (json : value) :
  validate json =
    Ok (if negb (truthy json)
        then mk_validation false ["Configuración vacía"]
        else if negb (truthy (prop json "categories"))
        then mk_validation false ["Falta el campo " ++ dquote ++ "categories" ++ dquote]
        else if negb (isArray (prop json "categories"))
        then mk_validation false [dquote ++ "categories" ++ dquote ++ " debe ser un array"]
        else let errors :=
               collect (fun cat index =>
                          category_errors cat ("categories[" ++ index_to_string index ++ "]"))
                       (elements (prop json "categories")) 0 in
             mk_validation (Nat.eqb (List.length errors) 0) errors)%string.
Proof.
  unfold validate.
  destruct (truthy json) eqn:Hj; simpl; [|reflexivity].
  rewrite (get_truthy _ _ Hj). simpl.
  destruct (truthy (prop json "categories")) eqn:Ht; simpl; [|reflexivity].
  destruct (isArray (prop json "categories")) eqn:Ha; simpl; [|reflexivity].
  rewrite array_forEach_collect with
    (f := fun cat index => _validateCategory cat ("categories[" ++ index_to_string index ++ "]"))
    (g := fun cat index => category_errors cat ("categories[" ++ index_to_string index ++ "]")).
  - reflexivity.
  - exact Ha.
  - intros c i _. apply _validateCategory_total.
Qed.

(** ** parse returns on every input *)

Lemma or_else_idem (a b : value) : or_else (or_else a b) b = or_else a b.
Proof.
  unfold or_else. destruct (truthy a) eqn:Ha; [rewrite Ha; reflexivity|].
  destruct (truthy b); reflexivity.
Qed.

Lemma _parsePage_total (page : value) :
  truthy page = true -> _parsePage page = Ok (parsed_page page).
Proof.
  intros Hp. unfold _parsePage, parsed_page.
  rewrite !(get_truthy page _ Hp). cbn [bind].
  unfold Page.new, get. simpl. rewrite !or_else_idem. reflexivity.
Qed.

Lemma keep_page_total (page : value) : keep_page page = Ok (page_kept page).
Proof.
  unfold keep_page, page_kept, and_then.
  destruct (truthy page) eqn:Hp; simpl.
  - rewrite !(get_truthy page _ Hp). simpl.
    destruct (truthy (prop page "name")) eqn:Hn; simpl; [reflexivity|].
    rewrite Hn. reflexivity.
  - rewrite Hp. simpl. rewrite Hp. reflexivity.
Qed.

Lemma keep_category_total (cat : value) : keep_category cat = Ok (category_kept cat).
Proof.
  unfold keep_category, category_kept, and_then.
  destruct (truthy cat) eqn:Hc; simpl.
  - rewrite (get_truthy cat _ Hc). reflexivity.
  - rewrite Hc. reflexivity.
Qed.

Lemma page_kept_truthy (page : value) : page_kept page = true -> truthy page = true.
Proof. unfold page_kept. destruct (truthy page); simpl; congruence. Qed.

Lemma category_kept_truthy (cat : value) : category_kept cat = true -> truthy cat = true.
Proof. unfold category_kept. destruct (truthy cat); simpl; congruence. Qed.

Lemma _parsePages_total (pagesJson : value) :
  _parsePages pagesJson = Ok (map parsed_page (filter page_kept (elements pagesJson))).
Proof.
  destruct pagesJson; try reflexivity. simpl.
  apply filter_mapM_Ok.
  - intros p _. apply keep_page_total.
  - intros p _ Hk. apply _parsePage_total, page_kept_truthy, Hk.
Qed.

Lemma _parseCategory_total_eq (n : nat) :
  forall cat, vsize cat < n -> truthy cat = true ->
    _parseCategory cat = Ok (parsed_category cat) /\
    parsed_category cat =
      Category.mk (prop cat "name")
        (map parsed_page (filter page_kept (elements (prop cat "pages"))))
        (map parsed_category (filter category_kept (elements (prop cat "categories"))))
        (or_else (prop cat "collapsed") (VBool false)).
Proof.
  induction n as [|n IH]; intros cat Hn Hc; [lia|].
  unfold parsed_category at 1 2.
  rewrite (_parseCategory_eq _ Hc).
  rewrite _parsePages_total, or_else_empty_elements. cbn [bind].
  assert (Hs : _parseCategories (or_else (prop cat "categories") empty_array)
               = Ok (map parsed_category
                       (filter category_kept (elements (prop cat "categories"))))).
  { rewrite <- (or_else_empty_elements (prop cat "categories")).
    assert (Hin : forall c, In c (elements (or_else (prop cat "categories") empty_array)) ->
                            vsize c < n).
    { intros c Hc'. rewrite or_else_empty_elements in Hc'.
      pose proof (prop_element_size _ _ _ Hc'). lia. }
    destruct (or_else (prop cat "categories") empty_array); try reflexivity.
    unfold _parseCategories, _parseCategories_with. simpl elements in *.
    apply filter_mapM_Ok.
    - intros c _. apply keep_category_total.
    - intros c Hc' Hk. apply IH; [apply Hin, Hc'|apply category_kept_truthy, Hk]. }
  rewrite Hs. cbn [bind unwrap]. auto.
Qed.

Lemma _parseCategory_total (cat : value) :
  truthy cat = true -> _parseCategory cat = Ok (parsed_category cat).
Proof. intros H. apply (_parseCategory_total_eq (S (vsize cat))); [lia|exact H]. Qed.

Lemma parsed_category_eq (cat : value) :
  truthy cat = true ->
  parsed_category cat =
    Category.mk (prop cat "name")
      (map parsed_page (filter page_kept (elements (prop cat "pages"))))
      (map parsed_category (filter category_kept (elements (prop cat "categories"))))
      (or_else (prop cat "collapsed") (VBool false)).
Proof. intros H. apply (_parseCategory_total_eq (S (vsize cat))); [lia|exact H]. Qed.

Lemma _parseCategories_total (categoriesJson : value) :
  _parseCategories categoriesJson
  = Ok (map parsed_category (filter category_kept (elements categoriesJson))).
Proof.
  destruct categoriesJson; try reflexivity.
  unfold _parseCategories, _parseCategories_with. simpl.
  apply filter_mapM_Ok.
  - intros c _. apply keep_category_total.
  - intros c _ Hk. apply _parseCategory_total, category_kept_truthy, Hk.
Qed.

Lemma parse_body_total (json : value) :
  truthy json = true ->
  parse_body json
  = Ok (Config.new (map parsed_category
                      (filter category_kept (elements (prop json "categories"))))).
Proof.
  intros Hj. unfold parse_body. rewrite (get_truthy _ _ Hj). cbn [bind].
  rewrite _parseCategories_total, or_else_empty_elements. reflexivity.
Qed.

Lemma parse_eq (json : value) :
  parse json =
    Ok (if truthy json
        then Config.new (map parsed_category
                           (filter category_kept (elements (prop json "categories"))))
        else Config.empty).
Proof.
  unfold parse. destruct (truthy json) eqn:Hj; simpl; [|reflexivity].
  rewrite (parse_body_total _ Hj). reflexivity.
Qed.

(** ** migrate, unfolded *)

Lemma _migratePage_total (page : value) :
  _migratePage page = Ok (migrated_page page).
Proof.
  unfold _migratePage, migrated_page, has_usable_url.
  destruct (truthy page) eqn:Hp; simpl; [|reflexivity].
  rewrite !(get_truthy page _ Hp). cbn [bind].
  destruct (truthy (prop page "url")); reflexivity.
Qed.

Lemma arrayish_cases (v : value) :
  arrayish v = true -> or_else v empty_array = VArr (elements v) (match v with VArr _ ps => ps | _ => [] end).
Proof.
  unfold arrayish, or_else, empty_array.
  destruct (truthy v) eqn:Ht; simpl.
  - destruct v; simpl; try discriminate. reflexivity.
  - intros _. rewrite (falsy_elements v Ht). destruct v; simpl in *; congruence.
Qed.

Lemma array_map_arrayish (v : value) (f : value -> result value) :
  arrayish v = true ->
  array_map (or_else v empty_array) f = (ys <- mapM f (elements v) ;; Ok (VArr ys [])).
Proof. intros H. rewrite (arrayish_cases v H). reflexivity. Qed.

Lemma array_map_not_arrayish (v : value) (f : value -> result value) :
  arrayish v = false -> array_map (or_else v empty_array) f = Throw TypeError.
Proof.
  unfold arrayish, or_else. destruct (truthy v) eqn:Ht; simpl; [|discriminate].
  destruct v; simpl; try reflexivity. discriminate.
Qed.

Lemma category_migratable_eq (category : value) :
  category_migratable category =
    negb (truthy category) ||
    (arrayish (prop category "pages") &&
     (arrayish (prop category "categories") &&
      forallb category_migratable (elements (prop category "categories")))).
Proof.
  assert (E : forall cats,
    match cats with VArr elems _ => forallb category_migratable elems | _ => true end
    = forallb category_migratable (elements cats)) by (intros []; reflexivity).
  destruct category; cbn [category_migratable prop prop_k];
    rewrite ?own_k_eq, ?E; reflexivity.
Qed.

Lemma category_well_typed_eq (category : value) :
  category_well_typed category =
    negb (truthy category) ||
    (string_if_truthy (prop category "name") &&
     forallb page_well_typed (elements (prop category "pages")) &&
     forallb category_well_typed (elements (prop category "categories"))).
Proof.
  assert (E : forall cats,
    match cats with VArr elems _ => forallb category_well_typed elems | _ => true end
    = forallb category_well_typed (elements cats)) by (intros []; reflexivity).
  destruct category; cbn [category_well_typed prop prop_k];
    rewrite ?own_k_eq, ?E; reflexivity.
Qed.

Lemma set_collapsed (category : value) (pages categories : value) :
  (if is_defined (prop category "collapsed")
   then set (VObj [("name", or_else (prop category "name") (VStr "Unnamed Category"));
                   ("pages", pages); ("categories", categories)])
            "collapsed" (prop category "collapsed")
   else Ok (VObj [("name", or_else (prop category "name") (VStr "Unnamed Category"));
                  ("pages", pages); ("categories", categories)]))
  = Ok (VObj ([("name", or_else (prop category "name") (VStr "Unnamed Category"));
               ("pages", pages); ("categories", categories)]
              ++ (if is_defined (prop category "collapsed")
                  then [("collapsed", prop category "collapsed")] else []))).
Proof. destruct (is_defined (prop category "collapsed")); reflexivity. Qed.

(** A category that is not falsy migrates exactly when [map] is called on
    arrays only, at this level and below. *)
Lemma _migrateCategory_inv (category migrated : value) :
  truthy category = true ->
  _migrateCategory category = Ok migrated ->
  exists categories,
    mapM _migrateCategory (elements (prop category "categories")) = Ok categories /\
    arrayish (prop category "pages") = true /\
    arrayish (prop category "categories") = true /\
    migrated = migrated_category_of category
                 (map migrated_page (elements (prop category "pages"))) categories.
Proof.
  intros Hc. rewrite (_migrateCategory_eq _ Hc).
  destruct (arrayish (prop category "pages")) eqn:Hp.
  2:{ rewrite (array_map_not_arrayish _ _ Hp). discriminate. }
  rewrite (array_map_arrayish _ _ Hp).
  rewrite (mapM_Ok _migratePage migrated_page) by (intros; apply _migratePage_total).
  cbn [bind array_filter_truthy].
  destruct (arrayish (prop category "categories")) eqn:Hs.
  2:{ rewrite (array_map_not_arrayish _ _ Hs). discriminate. }
  rewrite (array_map_arrayish _ _ Hs).
  destruct (mapM _migrateCategory (elements (prop category "categories")))
    as [categories|] eqn:Hm; cbn [bind array_filter_truthy]; [|discriminate].
  cbv zeta. rewrite set_collapsed. intros [= <-].
  exists categories. auto.
Qed.

Lemma _migrateCategory_intro (category : value) (categories : list value) :
  truthy category = true ->
  arrayish (prop category "pages") = true ->
  arrayish (prop category "categories") = true ->
  mapM _migrateCategory (elements (prop category "categories")) = Ok categories ->
  _migrateCategory category
  = Ok (migrated_category_of category
          (map migrated_page (elements (prop category "pages"))) categories).
Proof.
  intros Hc Hp Hs Hm. rewrite (_migrateCategory_eq _ Hc).
  rewrite (array_map_arrayish _ _ Hp).
  rewrite (mapM_Ok _migratePage migrated_page) by (intros; apply _migratePage_total).
  cbn [bind array_filter_truthy].
  rewrite (array_map_arrayish _ _ Hs), Hm. cbn [bind array_filter_truthy].
  cbv zeta. rewrite set_collapsed. reflexivity.
Qed.

Lemma Forall2_In_l {A B : Type} (R : A -> B -> Prop) (l : list A) (l' : list B) (x : A) :
  Forall2 R l l' -> In x l -> exists y, In y l' /\ R x y.
Proof.
  induction 1 as [|a b l l' Hab _ IH]; simpl; [tauto|].
  intros [->|H]; [eauto|]. destruct (IH H) as (y & Hy & Hr). eauto.
Qed.

Lemma Forall2_In_r {A B : Type} (R : A -> B -> Prop) (l : list A) (l' : list B) (y : B) :
  Forall2 R l l' -> In y l' -> exists x, In x l /\ R x y.
Proof.
  induction 1 as [|a b l l' Hab _ IH]; simpl; [tauto|].
  intros [->|H]; [eauto|]. destruct (IH H) as (x & Hx & Hr). eauto.
Qed.

Lemma mapM_total {A B : Type} (f : A -> result B) (l : list A) :
  (forall x, In x l -> exists y, f x = Ok y) -> exists l', mapM f l = Ok l'.
Proof.
  induction l as [|x l IH]; intros H; simpl; [eauto|].
  destruct (H x (or_introl eq_refl)) as [y ->].
  destruct IH as [l' ->]; [intros z Hz; apply H; right; exact Hz|].
  simpl. eauto.
Qed.

Lemma _migrateCategory_returns_iff (n : nat) :
  forall category, vsize category < n ->
    (exists migrated, _migrateCategory category = Ok migrated) <->
    category_migratable category = true.
Proof.
  induction n as [|n IH]; intros category Hn; [lia|].
  rewrite category_migratable_eq.
  destruct (truthy category) eqn:Hc; simpl.
  2:{ rewrite (_migrateCategory_falsy _ Hc). split; eauto. }
  split.
  - intros [migrated Hm].
    destruct (_migrateCategory_inv _ _ Hc Hm) as (cs & Hcs & Hp & Hs & _).
    rewrite Hp, Hs. simpl. apply forallb_forall. intros c Hin.
    apply IH; [pose proof (prop_element_size _ _ _ Hin); lia|].
    apply mapM_inv in Hcs.
    destruct (Forall2_In_l _ _ _ c Hcs Hin) as (y & _ & Hy). eauto.
  - intros H. apply andb_true_iff in H as [Hp H].
    apply andb_true_iff in H as [Hs Hall].
    destruct (mapM_total _migrateCategory (elements (prop category "categories")))
      as [cs Hcs].
    { intros c Hin. apply IH; [pose proof (prop_element_size _ _ _ Hin); lia|].
      rewrite forallb_forall in Hall. apply Hall, Hin. }
    rewrite (_migrateCategory_intro _ cs Hc Hp Hs Hcs). eauto.
Qed.

(** ** Assignment and the JSON round trip *)

Lemma own_assign (k : string) (x : value) (fs : list (string * value)) :
  own k (assign k x fs) = x.
Proof.
  unfold own. induction fs as [|[k' v] rest IH]; simpl.
  - rewrite String.eqb_refl. reflexivity.
  - destruct (String.eqb k' k) eqn:E; simpl; rewrite E; [reflexivity|exact IH].
Qed.

Lemma assign_assign (k : string) (x y : value) (fs : list (string * value)) :
  assign k x (assign k y fs) = assign k x fs.
Proof.
  induction fs as [|[k' v] rest IH]; simpl.
  - rewrite String.eqb_refl. reflexivity.
  - destruct (String.eqb k' k) eqn:E; simpl; rewrite E; [reflexivity|].
    rewrite IH. reflexivity.
Qed.

Lemma json_fixed_assign (k : string) (x : value) (fs : list (string * value)) :
  json_fixed x = true ->
  forallb (fun kv => json_fixed (snd kv)) fs = true ->
  forallb (fun kv => json_fixed (snd kv)) (assign k x fs) = true.
Proof.
  intros Hx. induction fs as [|[k' v] rest IH]; simpl.
  - rewrite Hx. reflexivity.
  - intros H. apply andb_true_iff in H as [Hv Hr].
    destruct (String.eqb k' k); simpl.
    + rewrite Hx, Hr. reflexivity.
    + rewrite Hv, (IH Hr). reflexivity.
Qed.

Lemma json_fixed_own (k : string) (fs : list (string * value)) :
  forallb (fun kv => json_fixed (snd kv)) fs = true ->
  is_defined (own k fs) = true -> json_fixed (own k fs) = true.
Proof.
  unfold own. induction fs as [|[k' v] rest IH]; simpl; [discriminate|].
  intros H. apply andb_true_iff in H as [Hv Hr].
  destruct (String.eqb k' k); auto.
Qed.

Lemma json_fixed_prop (v : value) (k : string) :
  json_fixed v = true -> is_defined (prop v k) = true -> json_fixed (prop v k) = true.
Proof.
  destruct v; simpl; try discriminate.
  - intros H. apply andb_true_iff in H as [_ H].
    destruct props; [discriminate|discriminate].
  - apply json_fixed_own.
Qed.

Lemma truthy_is_defined (v : value) : truthy v = true -> is_defined v = true.
Proof. destruct v; simpl; congruence. Qed.

Lemma json_fixed_elements (v e : value) :
  json_fixed v = true -> In e (elements v) -> json_fixed e = true.
Proof.
  destruct v; simpl; try tauto.
  intros H Hin. apply andb_true_iff in H as [H _].
  rewrite forallb_forall in H. apply H, Hin.
Qed.

Lemma json_fixed_prop_element (v : value) (k : string) (e : value) :
  json_fixed v = true -> In e (elements (prop v k)) -> json_fixed e = true.
Proof.
  intros Hv Hin. apply (json_fixed_elements (prop v k)); [|exact Hin].
  apply json_fixed_prop; [exact Hv|].
  destruct (prop v k); simpl in *; tauto.
Qed.

Lemma JSON_clone_fixed_n (n : nat) :
  forall v, vsize v < n -> json_fixed v = true -> JSON_clone v = v.
Proof.
  induction n as [|n IH]; intros v Hn Hj; [lia|].
  destruct v; try reflexivity; try discriminate.
  - simpl in Hj. apply andb_true_iff in Hj as [He Hp].
    destruct props; [|discriminate].
    simpl. f_equal.
    rewrite <- (map_id elems) at 2. apply map_ext_in.
    intros e Hin. rewrite forallb_forall in He. specialize (He e Hin).
    assert (JSON_clone e = e) as E.
    { apply IH; [|exact He]. pose proof (vsize_element elems [] e Hin). lia. }
    destruct e; try exact E. discriminate.
  - simpl in Hj. simpl. f_equal.
    assert (Hs : forall kv, In kv fields -> vsize (snd kv) < n).
    { intros kv Hin. simpl in Hn.
      pose proof (in_map (fun kv => vsize (snd kv)) _ _ Hin) as Hm.
      assert (vsize (snd kv) <= list_sum (map (fun kv => vsize (snd kv)) fields)).
      { clear -Hin. induction fields as [|a l IHl]; simpl in *; [tauto|].
        destruct Hin as [->|H]; [lia|]. specialize (IHl H). lia. }
      lia. }
    clear Hn. induction fields as [|[k x] rest IHr]; [reflexivity|].
    simpl in Hj. apply andb_true_iff in Hj as [Hx Hr].
    assert (JSON_clone x = x) as E.
    { apply IH; [apply (Hs (k, x)); left; reflexivity|exact Hx]. }
    rewrite IHr by (auto; intros kv Hin; apply Hs; right; exact Hin).
    destruct x; try (rewrite E; reflexivity). discriminate.
Qed.

Lemma JSON_clone_fixed (v : value) : json_fixed v = true -> JSON_clone v = v.
Proof. apply (JSON_clone_fixed_n (S (vsize v))). lia. Qed.

Lemma JSON_clone_json_fixed_n (n : nat) :
  forall v, vsize v < n -> is_defined v = true -> json_fixed (JSON_clone v) = true.
Proof.
  induction n as [|n IH]; intros v Hn Hd; [lia|].
  destruct v; try reflexivity; try discriminate.
  - simpl. rewrite andb_true_r. apply forallb_forall.
    intros y Hy. apply in_map_iff in Hy as (e & <- & Hin).
    assert (vsize e < n) by (pose proof (vsize_element elems props e Hin); lia).
    destruct e; try reflexivity; apply IH; auto.
  - simpl.
    assert (Hs : forall kv, In kv fields -> vsize (snd kv) < n).
    { intros kv Hin. simpl in Hn.
      assert (vsize (snd kv) <= list_sum (map (fun kv => vsize (snd kv)) fields)).
      { clear -Hin. induction fields as [|a l IHl]; simpl in *; [tauto|].
        destruct Hin as [->|H]; [lia|]. specialize (IHl H). lia. }
      lia. }
    clear Hn Hd. induction fields as [|[k x] rest IHr]; [reflexivity|].
    assert (Hrest : forall kv, In kv rest -> vsize (snd kv) < n)
      by (intros kv Hin; apply Hs; right; exact Hin).
    specialize (IHr Hrest).
    assert (Hx : vsize x < n) by (apply (Hs (k, x)); left; reflexivity).
    destruct x; try exact IHr;
      cbn [forallb snd]; rewrite IHr, andb_true_r;
      try reflexivity; apply IH; auto.
Qed.

Lemma JSON_clone_json_fixed (v : value) :
  is_defined v = true -> json_fixed (JSON_clone v) = true.
Proof. apply (JSON_clone_json_fixed_n (S (vsize v))). lia. Qed.

Lemma JSON_clone_truthy (v : value) : truthy (JSON_clone v) = json_truthy v.
Proof. destruct v as [| | | |[| |]| | |]; try reflexivity; unfold json_truthy; simpl;
         rewrite andb_true_r; reflexivity. Qed.

Lemma json_truthy_truthy (v : value) : json_truthy v = true -> truthy v = true.
Proof. unfold json_truthy. intros H. apply andb_true_iff in H. tauto. Qed.

Lemma json_fixed_truthy (v : value) :
  json_fixed v = true -> json_truthy v = truthy v.
Proof. destruct v; simpl; try discriminate; intros _; unfold json_truthy; simpl;
         rewrite ?andb_true_r; reflexivity. Qed.

Lemma JSON_parse_stringify_truthy (v : value) :
  truthy v = true -> JSON_parse_stringify v = Ok (JSON_clone v).
Proof. destruct v; simpl; try discriminate; reflexivity. Qed.

(** ** migrate at the top level *)

Lemma set_holds_properties (v : value) (k : string) (x : value) :
  holds_properties v = false -> set v k x = Throw TypeError.
Proof. destruct v; simpl; try reflexivity; discriminate. Qed.

Lemma prop_set (v : value) (k : string) (x v' : value) :
  set v k x = Ok v' -> prop v' k = x.
Proof.
  destruct v; simpl; try discriminate; intros [= <-]; simpl; apply own_assign.
Qed.

Lemma set_set (v : value) (k : string) (x y v' : value) :
  set v k y = Ok v' -> set v' k x = set v k x.
Proof.
  destruct v; simpl; try discriminate; intros [= <-]; simpl;
    rewrite assign_assign; reflexivity.
Qed.

Lemma holds_properties_truthy (v : value) : holds_properties v = true -> truthy v = true.
Proof. destruct v; simpl; congruence. Qed.

Lemma migrate_falsy (json : value) :
  truthy json = false -> migrate json = Ok (VObj [("categories", VArr [] [])]).
Proof. intros H. unfold migrate. rewrite H. reflexivity. Qed.

Lemma migrate_eq (json : value) :
  truthy json = true ->
  migrate json =
    (let migrated := JSON_clone json in
     if holds_properties migrated
     then categories <- array_map (or_else (prop migrated "categories") empty_array)
                                  _migrateCategory ;;
          set migrated "categories" categories
     else Throw TypeError).
Proof.
  intros Hj. unfold migrate. rewrite Hj. cbn [negb].
  rewrite (JSON_parse_stringify_truthy _ Hj). cbn [bind]. cbv zeta.
  destruct (truthy (JSON_clone json)) eqn:Hm.
  2:{ destruct json; try discriminate; reflexivity. }
  set (m := JSON_clone json) in *. clearbody m.
  rewrite (get_truthy _ _ Hm). cbn [bind].
  destruct (holds_properties m) eqn:Hh.
  - destruct (truthy (prop m "categories")) eqn:Ht; cbn [negb bind].
    + rewrite (get_truthy _ _ Hm). cbn [bind].
      unfold or_else. rewrite Ht. reflexivity.
    + destruct (set m "categories" (VArr [] [])) as [m'|] eqn:Hs.
      2:{ destruct m; discriminate. }
      cbn [bind].
      assert (Hm' : truthy m' = true).
      { destruct m; simpl in Hs; try discriminate; injection Hs as <-; reflexivity. }
      rewrite (get_truthy _ _ Hm'), (prop_set _ _ _ _ Hs). cbn [bind].
      unfold or_else. rewrite Ht. unfold empty_array. cbn [array_map mapM bind].
      apply (set_set _ _ _ _ _ Hs).
  - assert (Hu : prop m "categories" = VUndefined) by (destruct m; try reflexivity; discriminate).
    rewrite Hu. cbn [truthy negb]. rewrite (set_holds_properties _ _ _ Hh). reflexivity.
Qed.

Lemma migratable_returns (json : value) :
  json_fixed json = true ->
  (exists migrated, migrate json = Ok migrated) <-> migratable json = true.
Proof.
  intros Hjson. unfold migratable.
  destruct (truthy json) eqn:Hj; cbn [negb orb].
  2:{ rewrite (migrate_falsy _ Hj). split; eauto. }
  rewrite (migrate_eq _ Hj). cbv zeta. rewrite (JSON_clone_fixed _ Hjson).
  destruct (holds_properties json) eqn:Hh; cbn [andb].
  2:{ split; [intros [? ?]; discriminate|discriminate]. }
  destruct (arrayish (prop json "categories")) eqn:Ha; cbn [andb].
  2:{ rewrite (array_map_not_arrayish _ _ Ha). split; [intros [? ?]; discriminate|discriminate]. }
  rewrite (array_map_arrayish _ _ Ha).
  split.
  - intros [migrated Hm].
    destruct (mapM _migrateCategory (elements (prop json "categories"))) as [cs|] eqn:Hcs;
      [|discriminate].
    apply forallb_forall. intros c Hin.
    apply (_migrateCategory_returns_iff (S (vsize c))); [lia|].
    apply mapM_inv in Hcs.
    destruct (Forall2_In_l _ _ _ c Hcs Hin) as (y & _ & Hy). eauto.
  - intros Hall.
    destruct (mapM_total _migrateCategory (elements (prop json "categories"))) as [cs Hcs].
    { intros c Hin. apply (_migrateCategory_returns_iff (S (vsize c))); [lia|].
      rewrite forallb_forall in Hall. apply Hall, Hin. }
    rewrite Hcs. cbn [bind].
    destruct json; try discriminate; simpl; eauto.
Qed.

(** ** Migrating what migrate returned *)

Lemma truthy_or_else (a b : value) : truthy b = true -> truthy (or_else a b) = true.
Proof. intros H. unfold or_else. destruct (truthy a) eqn:Ha; congruence. Qed.


Lemma or_else_false_undefined (a : value) :
  or_else (or_else (or_else a (VBool false)) VUndefined) (VBool false)
  = or_else a (VBool false).
Proof.
  unfold or_else.
  destruct (truthy a) eqn:Ha; simpl; rewrite ?Ha; simpl; rewrite ?Ha; reflexivity.
Qed.

Lemma migrated_page_truthy (page : value) :
  truthy (migrated_page page) = has_usable_url page.
Proof. unfold migrated_page. destruct (has_usable_url page); reflexivity. Qed.

Lemma migrated_page_fixed (page : value) :
  migrated_page (migrated_page page) = migrated_page page.
Proof.
  unfold migrated_page at 2 3.
  destruct (has_usable_url page) eqn:Hu; [|reflexivity].
  unfold has_usable_url in Hu. apply andb_true_iff in Hu as [Hp Hurl].
  unfold spread_if.
  destruct (truthy (prop page "blockTypes")) eqn:Hb,
           (truthy (prop page "icon")) eqn:Hi,
           (truthy (prop page "linkedTokenId")) eqn:Hl;
    unfold migrated_page, has_usable_url, spread_if; simpl;
    rewrite ?Hurl, ?Hb, ?Hi, ?Hl; simpl;
    rewrite or_else_idem, or_else_false_undefined; reflexivity.
Qed.

Lemma json_fixed_truthy_prop (v : value) (k : string) :
  json_fixed v = true -> truthy (prop v k) = true -> json_fixed (prop v k) = true.
Proof. intros Hv Ht. apply json_fixed_prop; [exact Hv|apply truthy_is_defined, Ht]. Qed.

Lemma json_fixed_or_else (a b : value) :
  (truthy a = true -> json_fixed a = true) -> json_fixed b = true ->
  json_fixed (or_else a b) = true.
Proof. intros Ha Hb. unfold or_else. destruct (truthy a); auto. Qed.

Lemma json_fixed_spread_if (v : value) (k k' : string) :
  json_fixed v = true ->
  forallb (fun kv => json_fixed (snd kv)) (spread_if k' (prop v k)) = true.
Proof.
  intros Hv. unfold spread_if. destruct (truthy (prop v k)) eqn:Ht; [|reflexivity].
  simpl. rewrite (json_fixed_truthy_prop _ _ Hv Ht). reflexivity.
Qed.

Lemma json_fixed_migrated_page (page : value) :
  json_fixed page = true -> json_fixed (migrated_page page) = true.
Proof.
  intros Hj. unfold migrated_page.
  destruct (has_usable_url page) eqn:Hu; [|reflexivity].
  unfold has_usable_url in Hu. apply andb_true_iff in Hu as [Hp Hurl].
  assert (Hname : json_fixed (or_else (prop page "name") (VStr "Unnamed Page")) = true).
  { apply json_fixed_or_else; [apply json_fixed_truthy_prop, Hj|reflexivity]. }
  assert (Hvis : json_fixed (or_else (or_else (prop page "visibleToPlayers")
                                           (prop page "visible")) (VBool false)) = true).
  { apply json_fixed_or_else; [|reflexivity].
    unfold or_else. destruct (truthy (prop page "visibleToPlayers")) eqn:Hv;
      apply json_fixed_truthy_prop, Hj. }
  cbn [json_fixed]. rewrite !forallb_app. cbn [forallb snd].
  rewrite !json_fixed_spread_if by exact Hj.
  rewrite (json_fixed_truthy_prop _ _ Hj Hurl), Hname, Hvis. reflexivity.
Qed.

Lemma filter_filter {A : Type} (f : A -> bool) (l : list A) :
  filter f (filter f l) = filter f l.
Proof.
  induction l as [|x l IH]; simpl; [reflexivity|].
  destruct (f x) eqn:E; simpl; rewrite ?E, IH; reflexivity.
Qed.

Lemma map_fixed {A : Type} (f : A -> A) (l : list A) :
  (forall x, In x l -> f x = x) -> map f l = l.
Proof.
  intros H. rewrite <- (map_id l) at 2. apply map_ext_in. exact H.
Qed.

Lemma migrated_pages_fixed (pages : list value) :
  filter truthy (map migrated_page (filter truthy (map migrated_page pages)))
  = filter truthy (map migrated_page pages).
Proof.
  rewrite (map_fixed migrated_page (filter truthy (map migrated_page pages))).
  - apply filter_filter.
  - intros y Hy. apply filter_In in Hy as [Hy _].
    apply in_map_iff in Hy as (p & <- & _). apply migrated_page_fixed.
Qed.

Lemma migrated_category_of_fixed (category : value) (pages categories : list value) :
  migrated_category_of
    (migrated_category_of category (map migrated_page pages) categories)
    (map migrated_page
       (elements (prop (migrated_category_of category (map migrated_page pages) categories)
                       "pages")))
    (filter truthy categories)
  = migrated_category_of category (map migrated_page pages) categories.
Proof.
  unfold migrated_category_of at 1.
  assert (Hn : prop (migrated_category_of category (map migrated_page pages) categories) "name"
               = or_else (prop category "name") (VStr "Unnamed Category")) by reflexivity.
  assert (Hp : prop (migrated_category_of category (map migrated_page pages) categories) "pages"
               = VArr (filter truthy (map migrated_page pages)) []) by reflexivity.
  assert (Hc : prop (migrated_category_of category (map migrated_page pages) categories)
                    "collapsed"
               = if is_defined (prop category "collapsed")
                 then prop category "collapsed" else VUndefined).
  { unfold migrated_category_of.
    destruct (is_defined (prop category "collapsed")); reflexivity. }
  rewrite Hn, Hp, Hc. cbn [elements].
  rewrite or_else_idem, migrated_pages_fixed, filter_filter.
  unfold migrated_category_of.
  destruct (is_defined (prop category "collapsed")) eqn:Hd; rewrite ?Hd; reflexivity.
Qed.

Lemma _migrateCategory_fixed_n (n : nat) :
  forall category migrated,
    vsize category < n -> json_fixed category = true ->
    _migrateCategory category = Ok migrated ->
    _migrateCategory migrated = Ok migrated /\ json_fixed migrated = true.
Proof.
  induction n as [|n IH]; intros category migrated Hn Hj Hm; [lia|].
  destruct (truthy category) eqn:Hc.
  2:{ rewrite (_migrateCategory_falsy _ Hc) in Hm. injection Hm as <-. auto. }
  destruct (_migrateCategory_inv _ _ Hc Hm) as (cs & Hcs & Hp & Hs & ->).
  assert (Hsub : forall y, In y cs -> _migrateCategory y = Ok y /\ json_fixed y = true).
  { intros y Hy. apply mapM_inv in Hcs.
    destruct (Forall2_In_r _ _ _ y Hcs Hy) as (x & Hx & Hxy).
    apply (IH x y); [|apply (json_fixed_prop_element _ _ _ Hj Hx)|exact Hxy].
    pose proof (prop_element_size _ _ _ Hx). lia. }
  split.
  - rewrite (_migrateCategory_intro _ (filter truthy cs)); try reflexivity.
    + rewrite migrated_category_of_fixed. reflexivity.
    + cbn [migrated_category_of prop app own own_k String.eqb Ascii.eqb Bool.eqb elements].
      apply mapM_fixed. intros y Hy. apply filter_In in Hy as [Hy _]. apply Hsub, Hy.
  - unfold migrated_category_of. cbn [json_fixed]. rewrite forallb_app. cbn [forallb snd json_fixed].
    rewrite !andb_true_r.
    rewrite json_fixed_or_else; [|apply json_fixed_truthy_prop, Hj|reflexivity].
    assert (H1 : forallb json_fixed
                   (filter truthy (map migrated_page (elements (prop category "pages"))))
                 = true).
    { apply forallb_forall. intros y Hy. apply filter_In in Hy as [Hy _].
      apply in_map_iff in Hy as (p & <- & Hin).
      apply json_fixed_migrated_page, (json_fixed_prop_element _ _ _ Hj Hin). }
    assert (H2 : forallb json_fixed (filter truthy cs) = true).
    { apply forallb_forall. intros y Hy. apply filter_In in Hy as [Hy _]. apply Hsub, Hy. }
    rewrite H1, H2. cbn [andb].
    destruct (is_defined (prop category "collapsed")) eqn:Hd; [|reflexivity].
    cbn [forallb snd]. rewrite (json_fixed_prop _ _ Hj Hd). reflexivity.
Qed.

(** ** migrate is idempotent *)

Lemma _migrateCategory_fixed (category migrated : value) :
  json_fixed category = true ->
  _migrateCategory category = Ok migrated ->
  _migrateCategory migrated = Ok migrated /\ json_fixed migrated = true.
Proof. apply (_migrateCategory_fixed_n (S (vsize category))). lia. Qed.

(** What [migrate] returns for an input that is not falsy: the clone with
    its [categories] replaced by the migrated ones, each of which migrates to
    itself. *)
Lemma migrate_inv (json migrated : value) :
  truthy json = true ->
  migrate json = Ok migrated ->
  exists categories,
    mapM _migrateCategory (elements (prop (JSON_clone json) "categories")) = Ok categories /\
    set (JSON_clone json) "categories" (VArr categories []) = Ok migrated.
Proof.
  intros Hj. rewrite (migrate_eq _ Hj). cbv zeta.
  destruct (holds_properties (JSON_clone json)); [|discriminate].
  destruct (arrayish (prop (JSON_clone json) "categories")) eqn:Ha.
  2:{ rewrite (array_map_not_arrayish _ _ Ha). discriminate. }
  rewrite (array_map_arrayish _ _ Ha).
  destruct (mapM _migrateCategory (elements (prop (JSON_clone json) "categories")))
    as [cs|]; [|discriminate].
  cbn [bind]. intros H. exists cs. auto.
Qed.

Lemma migrate_fixed (json migrated : value) :
  migrate json = Ok migrated -> migrate migrated = Ok migrated.
Proof.
  intros Hm. destruct (truthy json) eqn:Hj.
  2:{ rewrite (migrate_falsy _ Hj) in Hm. injection Hm as <-. reflexivity. }
  destruct (migrate_inv _ _ Hj Hm) as (cs & Hcs & Hset).
  assert (Hjson : json_fixed (JSON_clone json) = true)
    by (apply JSON_clone_json_fixed, truthy_is_defined, Hj).
  assert (Hfix : forall y, In y cs -> _migrateCategory y = Ok y /\ json_fixed y = true).
  { intros y Hy. apply mapM_inv in Hcs.
    destruct (Forall2_In_r _ _ _ y Hcs Hy) as (x & Hx & Hxy).
    apply (_migrateCategory_fixed x y); [|exact Hxy].
    apply (json_fixed_prop_element _ _ _ Hjson Hx). }
  assert (Hcsj : forallb json_fixed cs = true)
    by (apply forallb_forall; intros y Hy; apply Hfix, Hy).
  assert (Hmap : mapM _migrateCategory cs = Ok cs)
    by (apply mapM_fixed; intros y Hy; apply Hfix, Hy).
  destruct (JSON_clone json) as [| | | | | |elems ps|fs] eqn:Hclone; try discriminate.
  - (* an array: [categories] is a named property the clone drops *)
    simpl in Hjson. apply andb_true_iff in Hjson as [He Hps].
    destruct ps; [|discriminate].
    simpl in Hcs. injection Hcs as <-.
    simpl in Hset. injection Hset as <-.
    assert (Hcl : JSON_clone (VArr elems [("categories", VArr [] [])]) = VArr elems []).
    { change (JSON_clone (VArr elems [("categories", VArr [] [])]))
        with (JSON_clone (VArr elems [])).
      apply JSON_clone_fixed. simpl. rewrite He. reflexivity. }
    rewrite migrate_eq by reflexivity. cbv zeta. rewrite Hcl. reflexivity.
  - simpl in Hset. injection Hset as <-.
    assert (Hy : json_fixed (VObj (assign "categories" (VArr cs []) fs)) = true).
    { simpl. apply json_fixed_assign; [|exact Hjson].
      simpl. rewrite Hcsj. reflexivity. }
    rewrite migrate_eq by reflexivity. cbv zeta.
    rewrite (JSON_clone_fixed _ Hy). cbn [holds_properties prop].
    rewrite own_assign. cbn [or_else truthy array_map]. rewrite Hmap. cbn [bind set].
    rewrite assign_assign. reflexivity.
Qed.

(** ** Validating what migrate returned *)

Lemma is_string_or_else (a : value) (s : string) :
  string_if_truthy a = true -> is_string (or_else a (VStr s)) = true.
Proof.
  unfold string_if_truthy, or_else. destruct (truthy a); simpl; [auto|reflexivity].
Qed.

Lemma migrated_page_valid (page : value) (path : string) :
  has_usable_url page = true -> page_well_typed page = true ->
  page_errors (migrated_page page) path = [].
Proof.
  intros Hu Hw. unfold page_well_typed in Hw. rewrite Hu in Hw. cbn [negb orb] in Hw.
  apply andb_true_iff in Hw as [Hw Hb]. apply andb_true_iff in Hw as [Hurl Hname].
  rewrite page_errors_eq. unfold migrated_page. rewrite Hu.
  unfold has_usable_url in Hu. apply andb_true_iff in Hu as [Hp Ht].
  cbn [truthy].
  assert (E1 : forall l, prop (VObj ([("name", or_else (prop page "name") (VStr "Unnamed Page"));
                                      ("url", prop page "url");
                                      ("visibleToPlayers",
                                       or_else (or_else (prop page "visibleToPlayers")
                                                        (prop page "visible")) (VBool false))]
                                     ++ l)) "name"
                      = or_else (prop page "name") (VStr "Unnamed Page")) by reflexivity.
  assert (E2 : forall l, prop (VObj ([("name", or_else (prop page "name") (VStr "Unnamed Page"));
                                      ("url", prop page "url");
                                      ("visibleToPlayers",
                                       or_else (or_else (prop page "visibleToPlayers")
                                                        (prop page "visible")) (VBool false))]
                                     ++ l)) "url"
                      = prop page "url") by reflexivity.
  rewrite E1, E2.
  rewrite (truthy_or_else _ _ (eq_refl : truthy (VStr "Unnamed Page") = true)).
  rewrite (is_string_or_else _ _ Hname), Ht, Hurl. cbn [andb app].
  unfold spread_if, arrayish in *.
  destruct (truthy (prop page "blockTypes")) eqn:Hbt; cbn [negb orb] in Hb.
  - cbn [prop app own own_k String.eqb Ascii.eqb Bool.eqb]. rewrite Hbt, Hb. reflexivity.
  - destruct (truthy (prop page "icon")), (truthy (prop page "linkedTokenId")); reflexivity.
Qed.

Lemma migrated_category_valid_n (n : nat) :
  forall category migrated path,
    vsize category < n -> truthy category = true ->
    category_well_typed category = true ->
    _migrateCategory category = Ok migrated ->
    category_errors migrated path = [].
Proof.
  induction n as [|n IH]; intros category migrated path Hn Hc Hw Hm; [lia|].
  rewrite category_well_typed_eq, Hc in Hw. cbn [negb orb] in Hw.
  apply andb_true_iff in Hw as [Hw Hsubs]. apply andb_true_iff in Hw as [Hname Hpages].
  destruct (_migrateCategory_inv _ _ Hc Hm) as (cs & Hcs & _ & _ & ->).
  rewrite category_errors_eq. cbn [migrated_category_of truthy].
  assert (E1 : name_errors (migrated_category_of category
                 (map migrated_page (elements (prop category "pages"))) cs) path = []).
  { unfold name_errors. cbn [migrated_category_of prop app own own_k String.eqb Ascii.eqb Bool.eqb].
    rewrite (truthy_or_else _ _ (eq_refl : truthy (VStr "Unnamed Category") = true)).
    rewrite (is_string_or_else _ _ Hname). reflexivity. }
  assert (E2 : pages_errors (migrated_category_of category
                 (map migrated_page (elements (prop category "pages"))) cs) path = []).
  { unfold pages_errors.
    cbn [migrated_category_of prop app own own_k String.eqb Ascii.eqb Bool.eqb
         truthy isArray negb andb elements].
    apply collect_nil. intros y i Hy. apply filter_In in Hy as [Hy Hty].
    apply in_map_iff in Hy as (p & <- & Hin).
    rewrite migrated_page_truthy in Hty.
    apply migrated_page_valid; [exact Hty|].
    rewrite forallb_forall in Hpages. apply Hpages, Hin. }
  assert (E3 : subcategories_errors (migrated_category_of category
                 (map migrated_page (elements (prop category "pages"))) cs) path = []).
  { unfold subcategories_errors.
    cbn [migrated_category_of prop app own own_k String.eqb Ascii.eqb Bool.eqb
         truthy isArray negb andb elements].
    apply collect_nil. intros y i Hy. apply filter_In in Hy as [Hy Hty].
    apply mapM_inv in Hcs.
    destruct (Forall2_In_r _ _ _ y Hcs Hy) as (c & Hin & Hcy).
    assert (Htc : truthy c = true).
    { destruct (truthy c) eqn:E; [reflexivity|].
      rewrite (_migrateCategory_falsy _ E) in Hcy. injection Hcy as <-. discriminate. }
    apply (IH c y); auto.
    - pose proof (prop_element_size _ _ _ Hin). lia.
    - rewrite forallb_forall in Hsubs. apply Hsubs, Hin. }
  fold (migrated_category_of category
          (map migrated_page (elements (prop category "pages"))) cs).
  rewrite E1, E2, E3. reflexivity.
Qed.

Lemma migrated_config_valid (json migrated : value) :
  json_fixed json = true ->
  config_well_typed json = true ->
  migrate json = Ok migrated ->
  validate migrated = Ok (mk_validation true []).
Proof.
  intros Hjson Hw Hm. destruct (truthy json) eqn:Hj.
  2:{ rewrite (migrate_falsy _ Hj) in Hm. injection Hm as <-. reflexivity. }
  destruct (migrate_inv _ _ Hj Hm) as (cs & Hcs & Hset).
  rewrite (JSON_clone_fixed _ Hjson) in Hcs, Hset.
  assert (Hp : prop migrated "categories" = VArr cs []) by (apply (prop_set _ _ _ _ Hset)).
  assert (Ht : truthy migrated = true).
  { destruct json; simpl in Hset; try discriminate; injection Hset as <-; reflexivity. }
  rewrite validate_eq, Ht, Hp. cbn [negb truthy isArray elements]. cbv zeta.
  rewrite collect_nil; [reflexivity|].
  intros y i Hy. apply mapM_inv in Hcs.
  destruct (Forall2_In_r _ _ _ y Hcs Hy) as (c & Hin & Hcy).
  unfold config_well_typed in Hw. rewrite forallb_forall in Hw.
  specialize (Hw c Hin). apply andb_true_iff in Hw as [Htc Hwc].
  apply (migrated_category_valid_n (S (vsize c)) c y); auto.
Qed.

(** ** The copy of a JSON value *)

Lemma is_json_own (k : string) (fs : list (string * value)) :
  forallb (fun kv => is_json (snd kv)) fs = true ->
  is_defined (own k fs) = true -> is_json (own k fs) = true.
Proof.
  unfold own. induction fs as [|[k' v] rest IH]; simpl; [discriminate|].
  intros H. apply andb_true_iff in H as [Hv Hr].
  destruct (String.eqb k' k); auto.
Qed.

Lemma is_json_prop (v : value) (k : string) :
  is_json v = true -> is_defined (prop v k) = true -> is_json (prop v k) = true.
Proof.
  destruct v; simpl; try discriminate.
  - intros H. apply andb_true_iff in H as [_ Hp]. destruct props; [|discriminate].
    discriminate.
  - apply is_json_own.
Qed.

Lemma is_json_elements (v e : value) :
  is_json v = true -> In e (elements v) -> is_json e = true.
Proof.
  destruct v; simpl; try tauto.
  intros H Hin. apply andb_true_iff in H as [H _].
  rewrite forallb_forall in H. apply H, Hin.
Qed.

Lemma is_json_prop_element (v : value) (k : string) (e : value) :
  is_json v = true -> In e (elements (prop v k)) -> is_json e = true.
Proof.
  intros Hv Hin. apply (is_json_elements (prop v k)); [|exact Hin].
  apply is_json_prop; [exact Hv|].
  destruct (prop v k); simpl in *; tauto.
Qed.

Lemma json_fixed_is_json_n (n : nat) :
  forall v, vsize v < n -> json_fixed v = true -> is_json v = true.
Proof.
  induction n as [|n IH]; intros v Hn Hj; [lia|].
  destruct v; try reflexivity; try discriminate.
  - simpl in *. apply andb_true_iff in Hj as [He Hp]. rewrite Hp, andb_true_r.
    apply forallb_forall. intros e Hin. rewrite forallb_forall in He.
    apply IH; [|apply He, Hin]. pose proof (list_sum_In vsize elems e Hin). lia.
  - simpl in *. apply forallb_forall. intros kv Hin. rewrite forallb_forall in Hj.
    apply IH; [|apply Hj, Hin].
    assert (vsize (snd kv) <= list_sum (map (fun kv => vsize (snd kv)) fields)).
    { clear -Hin. induction fields as [|a l IHl]; simpl in *; [tauto|].
      destruct Hin as [->|H]; [lia|]. specialize (IHl H). lia. }
    lia.
Qed.

Lemma json_fixed_is_json (v : value) : json_fixed v = true -> is_json v = true.
Proof. apply (json_fixed_is_json_n (S (vsize v))). lia. Qed.

Lemma is_json_defined (v : value) : is_json v = true -> is_defined v = true.
Proof. destruct v; simpl; congruence. Qed.

(** In the copy of a JSON value every property is the copy of the
    property, and every element the copy of the element. *)
Lemma own_clone (k : string) (fs : list (string * value)) :
  forallb (fun kv => is_json (snd kv)) fs = true ->
  prop (JSON_clone (VObj fs)) k = JSON_clone (own k fs).
Proof.
  cbn [JSON_clone prop]. unfold own.
  induction fs as [|[k' v] rest IH]; [reflexivity|].
  cbn [forallb snd]. intros H. apply andb_true_iff in H as [Hv Hr].
  specialize (IH Hr).
  destruct v; try discriminate; cbn [own_k]; destruct (String.eqb k' k);
    try reflexivity; exact IH.
Qed.

Lemma prop_clone (v : value) (k : string) :
  is_json v = true -> prop (JSON_clone v) k = JSON_clone (prop v k).
Proof.
  destruct v; try reflexivity.
  - intros H. simpl in H. apply andb_true_iff in H as [_ Hp].
    destruct props; [reflexivity|discriminate].
  - intros H. apply own_clone, H.
Qed.

Lemma elements_clone (v : value) :
  is_json v = true -> elements (JSON_clone v) = map JSON_clone (elements v).
Proof.
  destruct v; try reflexivity.
  intros H. simpl in H. apply andb_true_iff in H as [He _].
  cbn [JSON_clone elements]. apply map_ext_in. intros e Hin.
  rewrite forallb_forall in He. specialize (He e Hin).
  destruct e; try reflexivity; discriminate.
Qed.

Lemma isArray_clone (v : value) : isArray (JSON_clone v) = isArray v.
Proof. destruct v; reflexivity. Qed.

Lemma is_string_clone (v : value) : is_string (JSON_clone v) = is_string v.
Proof. destruct v; reflexivity. Qed.

Lemma holds_properties_clone (v : value) :
  holds_properties (JSON_clone v) = holds_properties v.
Proof. destruct v; reflexivity. Qed.

Lemma arrayish_clone (v : value) : arrayish (JSON_clone v) = json_arrayish v.
Proof. unfold arrayish, json_arrayish. rewrite JSON_clone_truthy, isArray_clone. reflexivity. Qed.

Lemma JSON_clone_clone (v : value) :
  is_defined v = true -> JSON_clone (JSON_clone v) = JSON_clone v.
Proof. intros H. apply JSON_clone_fixed, JSON_clone_json_fixed, H. Qed.

Lemma prop_elements_clone (v : value) (k : string) :
  is_json v = true ->
  elements (prop (JSON_clone v) k) = map JSON_clone (elements (prop v k)).
Proof.
  intros H. rewrite (prop_clone _ _ H).
  destruct (is_defined (prop v k)) eqn:Hd.
  - apply elements_clone, is_json_prop; assumption.
  - destruct (prop v k); try discriminate. reflexivity.
Qed.

Lemma json_category_migratable_eq (category : value) :
  json_category_migratable category =
    negb (json_truthy category) ||
    (json_arrayish (prop category "pages") &&
     (json_arrayish (prop category "categories") &&
      forallb json_category_migratable (elements (prop category "categories")))).
Proof.
  assert (E : forall cats,
    match cats with VArr elems _ => forallb json_category_migratable elems | _ => true end
    = forallb json_category_migratable (elements cats)) by (intros []; reflexivity).
  destruct category; cbn [json_category_migratable prop prop_k]; rewrite ?own_k_eq, ?E; reflexivity.
Qed.

Lemma forallb_map {A B : Type} (f : B -> bool) (g : A -> B) (l : list A) :
  forallb f (map g l) = forallb (fun x => f (g x)) l.
Proof. induction l as [|x l IH]; simpl; [reflexivity|]. rewrite IH. reflexivity. Qed.

Lemma forallb_ext_in {A : Type} (f g : A -> bool) (l : list A) :
  (forall x, In x l -> f x = g x) -> forallb f l = forallb g l.
Proof.
  induction l as [|x l IH]; simpl; intros H; [reflexivity|].
  rewrite (H x (or_introl eq_refl)), IH; [reflexivity|]. intros y Hy. apply H. right. exact Hy.
Qed.

(** What [_migrateCategory] asks of the copy is what
    [json_category_migratable] asks of the input. *)
Lemma category_migratable_clone_n (n : nat) :
  forall c, vsize c < n -> is_json c = true ->
    category_migratable (JSON_clone c) = json_category_migratable c.
Proof.
  induction n as [|n IH]; intros c Hn Hj; [lia|].
  rewrite category_migratable_eq, json_category_migratable_eq.
  rewrite JSON_clone_truthy, !(prop_clone _ _ Hj), !arrayish_clone.
  rewrite <- (prop_clone _ _ Hj), (prop_elements_clone _ _ Hj), forallb_map.
  rewrite (forallb_ext_in _ json_category_migratable); [reflexivity|].
  intros x Hin. apply IH; [|apply (is_json_prop_element _ _ _ Hj Hin)].
  pose proof (prop_element_size _ _ _ Hin). lia.
Qed.

Lemma category_migratable_clone (c : value) :
  is_json c = true -> category_migratable (JSON_clone c) = json_category_migratable c.
Proof. apply (category_migratable_clone_n (S (vsize c))). lia. Qed.

Lemma migrate_clone (json : value) :
  json_truthy json = true -> migrate json = migrate (JSON_clone json).
Proof.
  intros Hj. pose proof (json_truthy_truthy _ Hj) as Ht.
  rewrite (migrate_eq _ Ht), migrate_eq by (rewrite JSON_clone_truthy; exact Hj).
  rewrite (JSON_clone_clone _ (truthy_is_defined _ Ht)). reflexivity.
Qed.

Lemma holds_properties_json_truthy (v : value) :
  holds_properties v = true -> json_truthy v = true.
Proof. destruct v; simpl; try discriminate; reflexivity. Qed.

Lemma migratable_clone (json : value) :
  is_json json = true -> json_truthy json = true ->
  migratable (JSON_clone json) = json_migratable json.
Proof.
  intros Hj Ht. unfold migratable, json_migratable.
  rewrite JSON_clone_truthy, Ht, (json_truthy_truthy _ Ht). cbn [negb orb].
  rewrite holds_properties_clone, (prop_elements_clone _ _ Hj), forallb_map.
  rewrite (prop_clone _ _ Hj), arrayish_clone.
  rewrite (forallb_ext_in _ json_category_migratable); [reflexivity|].
  intros x Hin. apply category_migratable_clone, (is_json_prop_element _ _ _ Hj Hin).
Qed.

(** [migrate] throws nothing but a [TypeError]. *)
Lemma mapM_Throw_inv {A B : Type} (f : A -> result B) (l : list A) (e : exn) :
  mapM f l = Throw e -> exists x, In x l /\ f x = Throw e.
Proof.
  induction l as [|y l IH]; simpl; [discriminate|].
  destruct (f y) eqn:Ey; simpl.
  - destruct (mapM f l); simpl; [discriminate|].
    intros [= ->]. destruct (IH eq_refl) as (x & Hx & Hfx). eauto.
  - intros [= ->]. eauto.
Qed.

Lemma array_map_Throw (v : value) (f : value -> result value) (e : exn) :
  array_map v f = Throw e ->
  e = TypeError \/ exists x, In x (elements v) /\ f x = Throw e.
Proof.
  destruct v; simpl; try (intros [= <-]; left; reflexivity).
  destruct (mapM f elems) eqn:E; simpl; [discriminate|].
  intros [= ->]. right. apply mapM_Throw_inv, E.
Qed.

Lemma _migrateCategory_throws_n (n : nat) :
  forall c e, vsize c < n -> _migrateCategory c = Throw e -> e = TypeError.
Proof.
  induction n as [|n IH]; intros c e Hn H; [lia|].
  destruct (truthy c) eqn:Hc.
  2:{ rewrite (_migrateCategory_falsy _ Hc) in H. discriminate. }
  rewrite (_migrateCategory_eq _ Hc) in H.
  destruct (array_map (or_else (prop c "pages") empty_array) _migratePage) as [ps|e1] eqn:E1.
  2:{ cbn [bind] in H. injection H as <-.
      destruct (array_map_Throw _ _ _ E1) as [->|(x & _ & Hx)]; [reflexivity|].
      rewrite _migratePage_total in Hx. discriminate. }
  cbn [bind] in H.
  assert (Hps : exists l, ps = VArr l []).
  { destruct (or_else (prop c "pages") empty_array); simpl in E1; try discriminate.
    destruct (mapM _migratePage elems); simpl in E1; [|discriminate].
    injection E1 as <-. eauto. }
  destruct Hps as [l ->]. cbn [array_filter_truthy bind] in H.
  destruct (array_map (or_else (prop c "categories") empty_array) _migrateCategory)
    as [cs|e2] eqn:E2.
  2:{ cbn [bind] in H. injection H as <-.
      destruct (array_map_Throw _ _ _ E2) as [->|(x & Hin & Hx)]; [reflexivity|].
      apply (IH x); [|exact Hx].
      rewrite or_else_empty_elements in Hin.
      pose proof (prop_element_size _ _ _ Hin). lia. }
  cbn [bind] in H.
  assert (Hcs : exists l, cs = VArr l []).
  { destruct (or_else (prop c "categories") empty_array); simpl in E2; try discriminate.
    destruct (mapM _migrateCategory elems); simpl in E2; [|discriminate].
    injection E2 as <-. eauto. }
  destruct Hcs as [l' ->]. cbn [array_filter_truthy bind] in H. cbv zeta in H.
  destruct (is_defined (prop c "collapsed")); simpl in H; discriminate.
Qed.

Lemma migrate_throws_TypeError (json : value) (e : exn) :
  migrate json = Throw e -> e = TypeError.
Proof.
  destruct (truthy json) eqn:Hj.
  2:{ rewrite (migrate_falsy _ Hj). discriminate. }
  rewrite (migrate_eq _ Hj). cbv zeta.
  destruct (holds_properties (JSON_clone json)) eqn:Hh; [|intros [= <-]; reflexivity].
  destruct (array_map _ _) as [cs|e1] eqn:E1; cbn [bind].
  - destruct (JSON_clone json); simpl; discriminate.
  - intros [= ->]. destruct (array_map_Throw _ _ _ E1) as [->|(x & _ & Hx)]; [reflexivity|].
    apply (_migrateCategory_throws_n (S (vsize x)) x); [lia|exact Hx].
Qed.

(** [migrate] returns exactly on the inputs [json_migratable] accepts. *)
Lemma json_migratable_returns (json : value) :
  is_json json = true ->
  (exists migrated, migrate json = Ok migrated) <-> json_migratable json = true.
Proof.
  intros Hj. destruct (truthy json) eqn:Ht.
  { destruct (json_truthy json) eqn:Hjt.
    - rewrite (migrate_clone _ Hjt), <- (migratable_clone _ Hj Hjt).
      apply migratable_returns, JSON_clone_json_fixed, is_json_defined, Hj.
    - assert (Hh : holds_properties json = false).
      { destruct (holds_properties json) eqn:Hh; [|reflexivity].
        rewrite (holds_properties_json_truthy _ Hh) in Hjt. discriminate. }
      unfold json_migratable. rewrite Ht, Hh. cbn [negb orb andb].
      rewrite (migrate_eq _ Ht). cbv zeta. rewrite holds_properties_clone, Hh.
      split; [intros [? ?]; discriminate|discriminate]. }
  unfold json_migratable. rewrite Ht, (migrate_falsy _ Ht). split; eauto.
Qed.

Lemma truthy_clone_inv (v : value) : truthy (JSON_clone v) = true -> truthy v = true.
Proof. rewrite JSON_clone_truthy. apply json_truthy_truthy. Qed.

Lemma string_if_truthy_clone (v : value) :
  string_if_truthy v = true -> string_if_truthy (JSON_clone v) = true.
Proof.
  unfold string_if_truthy. rewrite is_string_clone.
  destruct (truthy (JSON_clone v)) eqn:E; [|reflexivity].
  rewrite (truthy_clone_inv _ E). auto.
Qed.

Lemma arrayish_json_arrayish (v : value) : arrayish v = true -> json_arrayish v = true.
Proof.
  unfold arrayish, json_arrayish, json_truthy.
  destruct (truthy v), (isArray v), (is_non_finite v); simpl; auto.
Qed.

Lemma page_well_typed_clone (page : value) :
  is_json page = true -> page_well_typed page = true ->
  page_well_typed (JSON_clone page) = true.
Proof.
  intros Hj. unfold page_well_typed, has_usable_url.
  rewrite !(prop_clone _ _ Hj), is_string_clone, arrayish_clone.
  destruct (truthy (JSON_clone page)) eqn:Hp; [|reflexivity].
  destruct (truthy (JSON_clone (prop page "url"))) eqn:Hu; [|reflexivity].
  rewrite (truthy_clone_inv _ Hp), (truthy_clone_inv _ Hu). cbn [andb negb orb].
  intros H. apply andb_true_iff in H as [H Hb]. apply andb_true_iff in H as [Hs Hn].
  rewrite Hs, (string_if_truthy_clone _ Hn), (arrayish_json_arrayish _ Hb). reflexivity.
Qed.

Lemma category_well_typed_clone_n (n : nat) :
  forall c, vsize c < n -> is_json c = true ->
    category_well_typed c = true -> category_well_typed (JSON_clone c) = true.
Proof.
  induction n as [|n IH]; intros c Hn Hj; [lia|].
  rewrite !category_well_typed_eq.
  destruct (truthy (JSON_clone c)) eqn:Hc; [|reflexivity].
  rewrite (truthy_clone_inv _ Hc). cbn [negb orb].
  intros H. apply andb_true_iff in H as [H Hsubs]. apply andb_true_iff in H as [Hname Hpages].
  rewrite (prop_clone _ _ Hj), (string_if_truthy_clone _ Hname).
  rewrite !(prop_elements_clone _ _ Hj), !forallb_map. cbn [andb].
  apply andb_true_iff. split; apply forallb_forall; intros x Hin.
  - apply page_well_typed_clone; [apply (is_json_prop_element _ _ _ Hj Hin)|].
    rewrite forallb_forall in Hpages. apply Hpages, Hin.
  - apply IH.
    + pose proof (prop_element_size _ _ _ Hin). lia.
    + apply (is_json_prop_element _ _ _ Hj Hin).
    + rewrite forallb_forall in Hsubs. apply Hsubs, Hin.
Qed.

Lemma config_well_typed_clone (json : value) :
  is_json json = true -> json_config_well_typed json = true ->
  config_well_typed (JSON_clone json) = true.
Proof.
  intros Hj. unfold json_config_well_typed, config_well_typed.
  rewrite (prop_elements_clone _ _ Hj), forallb_map. intros H.
  apply forallb_forall. intros x Hin. rewrite forallb_forall in H.
  specialize (H x Hin). apply andb_true_iff in H as [Ht Hw].
  rewrite JSON_clone_truthy, Ht.
  apply (category_well_typed_clone_n (S (vsize x))); [lia| |exact Hw].
  apply (is_json_prop_element _ _ _ Hj Hin).
Qed.

(** [validate] accepts what [migrate] returns on a well-typed JSON input. *)
Lemma json_migrated_config_valid (json migrated : value) :
  is_json json = true ->
  json_config_well_typed json = true ->
  migrate json = Ok migrated ->
  validate migrated = Ok (mk_validation true []).
Proof.
  intros Hj Hw Hm. destruct (truthy json) eqn:Ht.
  2:{ rewrite (migrate_falsy _ Ht) in Hm. injection Hm as <-. reflexivity. }
  destruct (json_truthy json) eqn:Hjt.
  - rewrite (migrate_clone _ Hjt) in Hm.
    apply (migrated_config_valid (JSON_clone json)); [| |exact Hm].
    + apply JSON_clone_json_fixed, is_json_defined, Hj.
    + apply config_well_typed_clone; assumption.
  - rewrite (migrate_eq _ Ht) in Hm. cbv zeta in Hm.
    rewrite holds_properties_clone in Hm.
    destruct (holds_properties json) eqn:Hh; [|discriminate].
    rewrite (holds_properties_json_truthy _ Hh) in Hjt. discriminate.
Qed.

Lemma category_migratable_json_n (n : nat) :
  forall c, vsize c < n ->
    category_migratable c = true -> json_category_migratable c = true.
Proof.
  induction n as [|n IH]; intros c Hn; [lia|].
  rewrite category_migratable_eq, json_category_migratable_eq.
  unfold json_truthy at 1.
  destruct (truthy c) eqn:Hc; [|reflexivity]. cbn [negb orb andb].
  intros H. apply andb_true_iff in H as [Hp H]. apply andb_true_iff in H as [Hs Hall].
  rewrite (arrayish_json_arrayish _ Hp), (arrayish_json_arrayish _ Hs). cbn [andb].
  apply orb_true_iff. right. apply forallb_forall. intros x Hin.
  apply IH; [pose proof (prop_element_size _ _ _ Hin); lia|].
  rewrite forallb_forall in Hall. apply Hall, Hin.
Qed.

Lemma category_kept_json_truthy (c : value) :
  category_kept c = true -> json_truthy c = true.
Proof.
  unfold category_kept. intros H. apply andb_true_iff in H as [_ H].
  apply holds_properties_json_truthy. destruct c; try discriminate; reflexivity.
Qed.

(** ** The errors validate returns are the rule violations *)

Lemma page_errors_violation (page : value) (path msg : string) :
  In msg (page_errors page path) <-> page_violation truthy page path msg.
Proof.
  rewrite page_errors_eq. split.
  - destruct (truthy page) eqn:Hp.
    + rewrite !in_app_iff.
      intros [H|[H|H]].
      * destruct (truthy (prop page "name") && is_string (prop page "name")) eqn:E;
          simpl in H; [tauto|]. destruct H as [<-|[]]. apply pv_name; assumption.
      * destruct (truthy (prop page "url") && is_string (prop page "url")) eqn:E;
          simpl in H; [tauto|]. destruct H as [<-|[]]. apply pv_url; assumption.
      * destruct (truthy (prop page "blockTypes") && negb (isArray (prop page "blockTypes")))
          eqn:E; simpl in H; [|tauto]. destruct H as [<-|[]].
        apply andb_true_iff in E as [E1 E2]. apply negb_true_iff in E2.
        apply pv_blockTypes; assumption.
    + intros [<-|[]]. apply pv_empty. exact Hp.
  - intros H. destruct H as [Hp|Hp E|Hp E|Hp E1 E2]; rewrite Hp.
    + left. reflexivity.
    + rewrite E. rewrite !in_app_iff. left. left. reflexivity.
    + rewrite E. rewrite !in_app_iff. right. left. left. reflexivity.
    + rewrite E1, E2. rewrite !in_app_iff. right. right. left. reflexivity.
Qed.

Lemma elements_nth_isArray (v : value) (i : nat) (x : value) :
  nth_error (elements v) i = Some x -> truthy v = true /\ isArray v = true.
Proof. destruct v; simpl; auto; destruct i; discriminate. Qed.

Lemma category_errors_violation_n (n : nat) :
  forall category path msg, vsize category < n ->
    (In msg (category_errors category path) <-> category_violation truthy category path msg).
Proof.
  induction n as [|n IH]; intros category path msg Hn; [lia|].
  rewrite category_errors_eq. split.
  - destruct (truthy category) eqn:Hc.
    2:{ intros [<-|[]]. apply cv_empty. exact Hc. }
    rewrite !in_app_iff. intros [H|[H|H]].
    + unfold name_errors in H.
      destruct (truthy (prop category "name") && is_string (prop category "name")) eqn:E;
        simpl in H; [tauto|]. destruct H as [<-|[]]. apply cv_name; assumption.
    + unfold pages_errors in H. cbv zeta in H.
      destruct (truthy (prop category "pages") && negb (isArray (prop category "pages")))
        eqn:E.
      * destruct H as [<-|[]].
        apply andb_true_iff in E as [E1 E2]. apply negb_true_iff in E2.
        apply cv_pages; assumption.
      * apply in_collect in H as (i & p & Hi & Hin). simpl in Hin.
        apply (cv_page truthy category path i p msg Hc Hi).
        apply page_errors_violation. exact Hin.
    + unfold subcategories_errors in H. cbv zeta in H.
      destruct (truthy (prop category "categories")
                && negb (isArray (prop category "categories"))) eqn:E.
      * destruct H as [<-|[]].
        apply andb_true_iff in E as [E1 E2]. apply negb_true_iff in E2.
        apply cv_categories; assumption.
      * apply in_collect in H as (i & c & Hi & Hin). simpl in Hin.
        apply (cv_subcategory truthy category path i c msg Hc Hi).
        apply IH; [|exact Hin].
        pose proof (prop_element_size _ _ _ (nth_error_In _ _ Hi)). lia.
  - intros H.
    destruct H as [c p Hc|c p Hc E|c p Hc E1 E2|c p i page m Hc Hi Hv
                  |c p Hc E1 E2|c p i sub m Hc Hi Hv]; rewrite Hc.
    + left. reflexivity.
    + rewrite !in_app_iff. left. unfold name_errors. rewrite E. left. reflexivity.
    + rewrite !in_app_iff. right. left. unfold pages_errors. rewrite E1, E2.
      left. reflexivity.
    + rewrite !in_app_iff. right. left. unfold pages_errors. cbv zeta.
      destruct (elements_nth_isArray _ _ _ Hi) as [_ Ha]. rewrite Ha, andb_false_r.
      apply in_collect. exists i, page. split; [exact Hi|].
      apply page_errors_violation. exact Hv.
    + rewrite !in_app_iff. right. right. unfold subcategories_errors. rewrite E1, E2.
      left. reflexivity.
    + rewrite !in_app_iff. right. right. unfold subcategories_errors. cbv zeta.
      destruct (elements_nth_isArray _ _ _ Hi) as [_ Ha]. rewrite Ha, andb_false_r.
      apply in_collect. exists i, sub. split; [exact Hi|].
      apply IH; [|exact Hv].
      pose proof (prop_element_size _ _ _ (nth_error_In _ _ Hi)). lia.
Qed.

Lemma category_errors_violation (category : value) (path msg : string) :
  In msg (category_errors category path) <-> category_violation truthy category path msg.
Proof. apply (category_errors_violation_n (S (vsize category))). lia. Qed.

(** ** Where the errors point *)

Import Shape.

Lemma string_append_assoc (a b c : string) :
  ((a ++ b) ++ c)%string = (a ++ (b ++ c))%string.
Proof. induction a as [|ch a IH]; simpl; [reflexivity|]. rewrite IH. reflexivity. Qed.

Lemma starts_with_append (path rest : string) : starts_with path (path ++ rest).
Proof. exists rest. reflexivity. Qed.

Lemma starts_with_longer (path more msg : string) :
  starts_with (path ++ more) msg -> starts_with path msg.
Proof.
  intros [rest ->]. exists (more ++ rest)%string. apply string_append_assoc.
Qed.

Lemma page_violation_path (present : value -> bool) (page : value) (path msg : string) :
  page_violation present page path msg -> starts_with path msg.
Proof. intros []; apply starts_with_append. Qed.

Lemma category_violation_path (present : value -> bool) (category : value)
      (path msg : string) :
  category_violation present category path msg -> starts_with path msg.
Proof.
  induction 1 as [c p Hc|c p Hc E|c p Hc E1 E2|c p i page m Hc Hi Hv
                 |c p Hc E1 E2|c p i sub m Hc Hi Hv IH];
    try apply starts_with_append.
  - apply page_violation_path in Hv. apply (starts_with_longer _ _ _ Hv).
  - apply (starts_with_longer _ _ _ IH).
Qed.


Lemma validate_array (json : value) :
  truthy json = true -> isArray (prop json "categories") = true ->
  validate json =
    Ok (let errors :=
          collect (fun cat index =>
                     category_errors cat ("categories[" ++ index_to_string index ++ "]"))
                  (elements (prop json "categories")) 0 in
        mk_validation (Nat.eqb (List.length errors) 0) errors).
Proof.
  intros Hj Ha. rewrite validate_eq, Hj, Ha.
  destruct (prop json "categories"); try discriminate. reflexivity.
Qed.

Lemma length_eqb_0 {A : Type} (l : list A) : Nat.eqb (List.length l) 0 = true <-> l = [].
Proof. destruct l; simpl; split; congruence. Qed.

(** ** The rendered-HTML cache *)

Import CacheService.

Lemma put_absent {V : Type} (k : string) (x : V) (m : list (string * V)) :
  lookup k m = None -> put k x m = m ++ [(k, x)].
Proof.
  induction m as [|[k' v] rest IH]; simpl; [reflexivity|].
  destruct (String.eqb k' k); [discriminate|].
  intros H. rewrite (IH H). reflexivity.
Qed.

Lemma put_length {V : Type} (k : string) (x : V) (m : list (string * V)) :
  List.length (put k x m) <= S (List.length m).
Proof.
  induction m as [|[k' v] rest IH]; simpl; [lia|].
  destruct (String.eqb k' k); simpl; lia.
Qed.

Lemma put_keys {V : Type} (k : string) (x : V) (m : list (string * V)) :
  map fst (put k x m)
  = match lookup k m with Some _ => map fst m | None => map fst m ++ [k] end.
Proof.
  induction m as [|[k' v] rest IH]; simpl; [reflexivity|].
  destruct (String.eqb k' k); simpl; [reflexivity|].
  rewrite IH. destruct (lookup k rest); reflexivity.
Qed.

Lemma lookup_None_keys {V : Type} (k : string) (m : list (string * V)) :
  lookup k m = None <-> ~ In k (map fst m).
Proof.
  induction m as [|[k' v] rest IH]; simpl; [tauto|].
  destruct (String.eqb k' k) eqn:E.
  - apply String.eqb_eq in E. split; [discriminate|]. intros H. exfalso. auto.
  - apply String.eqb_neq in E. rewrite IH. tauto.
Qed.

Lemma put_NoDup {V : Type} (k : string) (x : V) (m : list (string * V)) :
  NoDup (map fst m) -> NoDup (map fst (put k x m)).
Proof.
  intros H. rewrite put_keys. destruct (lookup k m) eqn:E; [exact H|].
  apply lookup_None_keys in E.
  apply NoDup_app; [exact H|repeat constructor; simpl; tauto|].
  intros a Ha [<-|[]]. auto.
Qed.

Lemma tl_NoDup {V : Type} (m : list (string * V)) :
  NoDup (map fst m) -> NoDup (map fst (List.tl m)).
Proof. destruct m; simpl; [auto|]. intros H. inversion H. assumption. Qed.

Lemma lookup_app {V : Type} (k : string) (m m' : list (string * V)) :
  lookup k (m ++ m') = match lookup k m with Some v => Some v | None => lookup k m' end.
Proof.
  induction m as [|[k' v] rest IH]; simpl; [reflexivity|].
  destruct (String.eqb k' k); [reflexivity|exact IH].
Qed.

(** The invariant of the rendered-HTML tier *)
Lemma step_invariant (s : t) (c : call) :
  List.length (localHtmlCache s) <= MAX_LOCAL_HTML /\ NoDup (map fst (localHtmlCache s)) ->
  List.length (localHtmlCache (step s c)) <= MAX_LOCAL_HTML
  /\ NoDup (map fst (localHtmlCache (step s c))).
Proof.
  intros [Hl Hn]. destruct c; simpl; auto.
  - pose proof (put_length pageId html (localHtmlCache s)) as Hp.
    pose proof (put_NoDup pageId html (localHtmlCache s) Hn) as Hd.
    destruct (Nat.ltb MAX_LOCAL_HTML (List.length (put pageId html (localHtmlCache s)))) eqn:E.
    + split; [|apply tl_NoDup, Hd].
      destruct (put pageId html (localHtmlCache s)); simpl in *; lia.
    + apply Nat.ltb_ge in E. auto.
  - split; [lia|constructor].
Qed.

Lemma run_invariant (calls : list call) (s : t) :
  List.length (localHtmlCache s) <= MAX_LOCAL_HTML /\ NoDup (map fst (localHtmlCache s)) ->
  List.length (localHtmlCache (run calls s)) <= MAX_LOCAL_HTML
  /\ NoDup (map fst (localHtmlCache (run calls s))).
Proof.
  revert s. induction calls as [|c calls IH]; intros s H; simpl; [exact H|].
  apply IH, step_invariant, H.
Qed.

Lemma run_reads (reads : list string) (s : t) : run (map GetHtml reads) s = s.
Proof. induction reads as [|r reads IH]; simpl; [reflexivity|exact IH]. Qed.

Lemma save_full_absent (s : t) (pageId html : string) :
  List.length (localHtmlCache s) = MAX_LOCAL_HTML ->
  getHtmlFromLocalCache s pageId = None ->
  localHtmlCache (saveHtmlToLocalCache s pageId html)
  = List.tl (localHtmlCache s) ++ [(pageId, html)].
Proof.
  unfold getHtmlFromLocalCache, saveHtmlToLocalCache. intros Hl Ha. simpl.
  rewrite (put_absent _ _ _ Ha), length_app, Hl. simpl.
  destruct (localHtmlCache s); [discriminate|reflexivity].
Qed.

Lemma lookup_put {V : Type} (k : string) (x : V) (m : list (string * V)) :
  lookup k (put k x m) = Some x.
Proof.
  induction m as [|[k' v] rest IH]; simpl; [rewrite String.eqb_refl; reflexivity|].
  destruct (String.eqb k' k) eqn:E; simpl; rewrite E; [reflexivity|exact IH].
Qed.

(** ** The order of the rendered-HTML tier *)

Lemma in_insertion_order_ext (T T' : string -> option nat) (idx idx' : nat) (keys : list string) :
  (forall k, In k keys -> T' k = T k) -> idx <= idx' ->
  in_insertion_order T idx keys -> in_insertion_order T' idx' keys.
Proof.
  intros Hext Hle. induction keys as [|k rest IH]; simpl; [auto|].
  intros [(i & Hi & Hlt & Hrest) Hord]. split.
  - exists i. rewrite (Hext k (or_introl eq_refl)). split; [exact Hi|]. split; [lia|].
    intros k' Hk'. destruct (Hrest k' Hk') as (j & Hj & Hij).
    exists j. rewrite (Hext k' (or_intror Hk')). auto.
  - apply IH; [|exact Hord]. intros k' Hk'. apply Hext. right. exact Hk'.
Qed.

Lemma in_insertion_order_snoc (T T' : string -> option nat) (idx : nat)
      (keys : list string) (k : string) :
  (forall k', In k' keys -> T' k' = T k') -> T' k = Some idx ->
  in_insertion_order T idx keys -> in_insertion_order T' (S idx) (keys ++ [k]).
Proof.
  intros Hext Hk. induction keys as [|k0 rest IH]; simpl.
  - intros _. split; [|exact I]. exists idx. split; [exact Hk|]. split; [lia|]. intros k' [].
  - intros [(i & Hi & Hlt & Hrest) Hord]. split.
    + exists i. rewrite (Hext k0 (or_introl eq_refl)). split; [exact Hi|]. split; [lia|].
      intros k' Hk'. apply in_app_iff in Hk' as [Hk'|[<-|[]]].
      * destruct (Hrest k' Hk') as (j & Hj & Hij).
        exists j. rewrite (Hext k' (or_intror Hk')). auto.
      * exists idx. auto.
    + apply IH; [|exact Hord]. intros k' Hk'. apply Hext. right. exact Hk'.
Qed.

Lemma in_insertion_order_tl (T : string -> option nat) (idx : nat) (keys : list string) :
  in_insertion_order T idx keys -> in_insertion_order T idx (List.tl keys).
Proof. destruct keys; simpl; tauto. Qed.

Lemma map_fst_tl {V : Type} (m : list (string * V)) :
  map fst (List.tl m) = List.tl (map fst m).
Proof. destruct m; reflexivity. Qed.

Lemma lookup_Some_keys {V : Type} (k : string) (m : list (string * V)) :
  In k (map fst m) -> exists v, lookup k m = Some v.
Proof.
  intros H. destruct (lookup k m) eqn:E; [eauto|].
  apply lookup_None_keys in E. contradiction.
Qed.

Lemma step_in_insertion_order (s : t) (c : call) (T : string -> option nat) (idx : nat) :
  in_insertion_order T idx (html_keys s) ->
  in_insertion_order
    (fun k => match c with
              | SaveHtml k' _ =>
                  if String.eqb k' k
                  then match getHtmlFromLocalCache s k with
                       | None => Some idx
                       | Some _ => T k
                       end
                  else T k
              | _ => T k
              end)
    (S idx) (html_keys (step s c)).
Proof.
  intros H. destruct c; simpl;
    try (apply (in_insertion_order_ext T _ idx); [reflexivity|lia|exact H]).
  - unfold html_keys, saveHtmlToLocalCache. cbn [localHtmlCache].
    assert (Hput : in_insertion_order
              (fun k => if String.eqb pageId k
                        then match getHtmlFromLocalCache s k with
                             | None => Some idx
                             | Some _ => T k
                             end
                        else T k)
              (S idx) (map fst (put pageId html (localHtmlCache s)))).
    { rewrite put_keys. unfold getHtmlFromLocalCache.
      destruct (lookup pageId (localHtmlCache s)) eqn:E.
      - apply (in_insertion_order_ext T _ idx); [|lia|exact H].
        intros k Hk. destruct (String.eqb pageId k) eqn:Ek; [|reflexivity].
        apply String.eqb_eq in Ek. subst k. rewrite E. reflexivity.
      - apply (in_insertion_order_snoc T); [| |exact H].
        + intros k Hk. destruct (String.eqb pageId k) eqn:Ek; [|reflexivity].
          apply String.eqb_eq in Ek. subst k.
          apply lookup_None_keys in E. contradiction.
        + rewrite String.eqb_refl, E. reflexivity. }
    destruct (Nat.ltb MAX_LOCAL_HTML _); [|exact Hput].
    rewrite map_fst_tl. apply in_insertion_order_tl, Hput.
  - exact I.
Qed.

Lemma run_in_insertion_order (calls : list call) :
  forall (s : t) (T : string -> option nat) (idx : nat),
    in_insertion_order T idx (html_keys s) ->
    in_insertion_order (fun k => last_insertion calls s idx k (T k))
                       (idx + List.length calls) (html_keys (run calls s)).
Proof.
  induction calls as [|c calls IH]; intros s T idx H; simpl.
  - apply (in_insertion_order_ext T _ idx); [reflexivity|lia|exact H].
  - replace (idx + S (List.length calls)) with (S idx + List.length calls) by lia.
    apply (IH (step s c) _ (S idx)). apply step_in_insertion_order, H.
Qed.

Lemma keys_in_insertion_order (calls : list call) :
  in_insertion_order (inserted_at calls) (List.length calls) (html_keys (run calls new)).
Proof. apply (run_in_insertion_order calls new (fun _ => None) 0). exact I. Qed.

(** The oldest key is the first of the tier. *)
Lemma oldest_iff_first (calls : list call) (k0 : string) (rest : list string) (k : string) :
  html_keys (run calls new) = k0 :: rest ->
  oldest calls k = true <-> k = k0.
Proof.
  intros Hkeys. pose proof (keys_in_insertion_order calls) as Hord.
  unfold oldest. cbv zeta. rewrite Hkeys in *. simpl in Hord.
  destruct Hord as [(i & Hi & _ & Hrest) _].
  split.
  - intros H. apply andb_true_iff in H as [Hin Hall].
    cbn [forallb] in Hall. apply andb_true_iff in Hall as [H0 _].
    apply orb_true_iff in H0 as [H0|H0]; [apply String.eqb_eq in H0; auto|].
    exfalso. cbn [existsb] in Hin. apply orb_true_iff in Hin as [Hin|Hin].
    { apply String.eqb_eq in Hin. subst k. unfold inserted_before in H0.
      rewrite Hi in H0. apply Nat.ltb_lt in H0. lia. }
    apply existsb_exists in Hin as (k' & Hk' & Hek). apply String.eqb_eq in Hek. subst k'.
    destruct (Hrest k Hk') as (j & Hj & Hij).
    unfold inserted_before in H0. rewrite Hi, Hj in H0. apply Nat.ltb_lt in H0. lia.
  - intros ->. cbn [existsb forallb]. rewrite String.eqb_refl. cbn [orb andb].
    apply forallb_forall. intros k' Hk'. apply orb_true_iff. right.
    destruct (Hrest k' Hk') as (j & Hj & Hij).
    unfold inserted_before. rewrite Hi, Hj. apply Nat.ltb_lt. exact Hij.
Qed.

Lemma save_keeps_others (s : t) (pageId html k : string) :
  List.length (localHtmlCache s) < MAX_LOCAL_HTML \/ getHtmlFromLocalCache s pageId <> None ->
  List.length (localHtmlCache s) <= MAX_LOCAL_HTML ->
  k <> pageId ->
  getHtmlFromLocalCache (saveHtmlToLocalCache s pageId html) k = getHtmlFromLocalCache s k.
Proof.
  unfold getHtmlFromLocalCache, saveHtmlToLocalCache. cbn [localHtmlCache].
  intros Hroom Hl Hk.
  assert (Hlook : lookup k (put pageId html (localHtmlCache s)) = lookup k (localHtmlCache s)).
  { clear Hroom Hl. induction (localHtmlCache s) as [|[k' v] rest IH]; simpl.
    - assert (String.eqb pageId k = false) as -> by (apply String.eqb_neq; congruence).
      reflexivity.
    - destruct (String.eqb k' pageId) eqn:E; simpl.
      + apply String.eqb_eq in E. subst k'.
        assert (String.eqb pageId k = false) as -> by (apply String.eqb_neq; congruence).
        reflexivity.
      + destruct (String.eqb k' k); [reflexivity|exact IH]. }
  assert (Hlen : List.length (put pageId html (localHtmlCache s)) <= MAX_LOCAL_HTML).
  { destruct Hroom as [Hlt|Hp].
    - pose proof (put_length pageId html (localHtmlCache s)). lia.
    - assert (E : List.length (map fst (put pageId html (localHtmlCache s)))
                  = List.length (map fst (localHtmlCache s))).
      { rewrite put_keys. destruct (lookup pageId (localHtmlCache s)); [reflexivity|].
        contradiction. }
      rewrite !length_map in E. lia. }
  apply Nat.ltb_ge in Hlen. rewrite Hlen. exact Hlook.
Qed.


(** ** The rules as the specification words them *)

Lemma page_violation_mono (p q : value -> bool) (page : value) (path msg : string) :
  (forall v, p v = true -> q v = true) ->
  page_violation p page path msg -> page_violation q page path msg.
Proof.
  intros Hpq []; [apply pv_empty|apply pv_name|apply pv_url|apply pv_blockTypes]; auto.
Qed.

Lemma category_violation_mono (p q : value -> bool) (category : value) (path msg : string) :
  (forall v, p v = true -> q v = true) ->
  category_violation p category path msg -> category_violation q category path msg.
Proof.
  intros Hpq. induction 1 as [c pa Hc|c pa Hc E|c pa Hc E1 E2|c pa i page m Hc Hi Hv
                             |c pa Hc E1 E2|c pa i sub m Hc Hi Hv IH].
  - apply cv_empty; auto.
  - apply cv_name; auto.
  - apply cv_pages; auto.
  - apply (cv_page q c pa i page m Hc Hi). apply (page_violation_mono p q); auto.
  - apply cv_categories; auto.
  - apply (cv_subcategory q c pa i sub m Hc Hi IH).
Qed.

Lemma falsy_not_array (v : value) : truthy v = false -> isArray v = false.
Proof. destruct v; simpl; congruence. Qed.

Lemma page_violation_specified (page : value) (path msg : string) :
  page_violation is_defined page path msg <->
  page_violation truthy page path msg \/ page_falsy_field page path msg.
Proof.
  split.
  - intros [Hp|Hp E|Hp E|Hp Hd Ha].
    + left. apply pv_empty; auto.
    + left. apply pv_name; auto.
    + left. apply pv_url; auto.
    + destruct (truthy (prop page "blockTypes")) eqn:Ht.
      * left. apply pv_blockTypes; auto.
      * right. apply pf_blockTypes; auto.
  - intros [H|[Hp Hd Ht]].
    + apply (page_violation_mono truthy is_defined); [apply truthy_is_defined|exact H].
    + apply pv_blockTypes; auto. apply falsy_not_array, Ht.
Qed.

Lemma category_violation_specified (category : value) (path msg : string) :
  category_violation is_defined category path msg <->
  category_violation truthy category path msg \/ category_falsy_field category path msg.
Proof.
  split.
  - induction 1 as [c pa Hc|c pa Hc E|c pa Hc Hd Ha|c pa i page m Hc Hi Hv
                   |c pa Hc Hd Ha|c pa i sub m Hc Hi Hv IH].
    + left. apply cv_empty; auto.
    + left. apply cv_name; auto.
    + destruct (truthy (prop c "pages")) eqn:Ht.
      * left. apply cv_pages; auto.
      * right. apply cf_pages; auto.
    + apply page_violation_specified in Hv as [Hv|Hf].
      * left. apply (cv_page truthy c pa i page m Hc Hi Hv).
      * right. apply (cf_page c pa i page m Hc Hi Hf).
    + destruct (truthy (prop c "categories")) eqn:Ht.
      * left. apply cv_categories; auto.
      * right. apply cf_categories; auto.
    + destruct IH as [IH|Hf].
      * left. apply (cv_subcategory truthy c pa i sub m Hc Hi IH).
      * right. apply (cf_subcategory c pa i sub m Hc Hi Hf).
  - intros [H|H].
    + apply (category_violation_mono truthy is_defined); [apply truthy_is_defined|exact H].
    + induction H as [c pa Hc Hd Ht|c pa i page m Hc Hi Hf|c pa Hc Hd Ht
                     |c pa i sub m Hc Hi Hf IH].
      * apply cv_pages; auto. apply falsy_not_array, Ht.
      * apply (cv_page is_defined c pa i page m Hc Hi).
        apply page_violation_specified. right. exact Hf.
      * apply cv_categories; auto. apply falsy_not_array, Ht.
      * apply (cv_subcategory is_defined c pa i sub m Hc Hi IH).
Qed.

Lemma specified_violation_iff (json : value) (msg : string) :
  specified_violation json msg <-> tested_violation json msg \/ unreported_violation json msg.
Proof.
  split.
  - intros [i c m Hi Hv]. apply category_violation_specified in Hv as [Hv|Hf].
    + left. apply (cfv_category truthy json i c m Hi Hv).
    + right. apply (unreported_in_category json i c m Hi Hf).
  - intros [[i c m Hi Hv]|[i c m Hi Hf]]; apply (cfv_category is_defined json i c m Hi);
      apply category_violation_specified; auto.
Qed.

(* ================================================================== *)
(** * The unit tests of the parser, evaluated on the embedding *)
(* ================================================================== *)

Example test_parse_valid_config :
  parse (Examples.config
           [Examples.obj
              [("name", VStr "NPCs");
               ("pages", Examples.arr
                  [Examples.obj [("name", VStr "Gandalf");
                                 ("url", VStr "https://notion.so/gandalf")]])]])
  = Ok (Config.new
          [Category.mk (VStr "NPCs")
             [Page.mk (VStr "Gandalf") (VStr "https://notion.so/gandalf")
                      (VBool false) VNull VNull VNull]
             [] (VBool false)]).
Proof. reflexivity. Qed.

Example test_parse_page_options :
  parse (Examples.config
           [Examples.obj
              [("name", VStr "Test");
               ("pages", Examples.arr
                  [Examples.obj [("name", VStr "Page");
                                 ("url", VStr "https://notion.so/page");
                                 ("visibleToPlayers", VBool true);
                                 ("blockTypes",
                                  Examples.arr [VStr "quote"; VStr "callout"])]])]])
  = Ok (Config.new
          [Category.mk (VStr "Test")
             [Page.mk (VStr "Page") (VStr "https://notion.so/page") (VBool true)
                      (Examples.arr [VStr "quote"; VStr "callout"]) VNull VNull]
             [] (VBool false)]).
Proof. reflexivity. Qed.

Example test_validate_null :
  validate VNull = Ok (mk_validation false ["Configuración vacía"]).
Proof. reflexivity. Qed.

Example test_validate_missing_categories :
  validate (Examples.obj [])
  = Ok (mk_validation false ["Falta el campo " ++ dquote ++ "categories" ++ dquote]%string).
Proof. reflexivity. Qed.

Example test_validate_page_without_url :
  validate (Examples.config
              [Examples.obj [("name", VStr "Test");
                             ("pages", Examples.arr [Examples.obj [("name", VStr "Page")]])]])
  = Ok (mk_validation false ["categories[0].pages[0]: falta URL o no es string"]).
Proof. reflexivity. Qed.

Example test_migrate_legacy_config :
  migrate Examples.legacy_config
  = Ok (Examples.config
          [Examples.obj
             [("name", VStr "Test");
              ("pages", Examples.arr
                 [Examples.obj [("name", VStr "Page"); ("url", VStr "https://...");
                                ("visibleToPlayers", VBool true)]]);
              ("categories", Examples.arr
                 [Examples.obj
                    [("name", VStr "Unnamed Category");
                     ("pages", Examples.arr
                        [Examples.obj [("name", VStr "Unnamed Page");
                                       ("url", VStr "https://notion.so/page");
                                       ("visibleToPlayers", VBool false);
                                       ("blockTypes", Examples.arr [VStr "quote"])]]);
                     ("categories", Examples.arr []);
                     ("collapsed", VBool true)]])]]).
Proof. reflexivity. Qed.

Example test_migrate_adds_categories :
  migrate (Examples.obj []) = Ok (Examples.config []).
Proof. reflexivity. Qed.

Example test_html_cache_limit :
  List.length (localHtmlCache (run (Examples.saves 0 21) new)) = 20 /\
  getHtmlFromLocalCache (run (Examples.saves 0 21) new) "page-0" = None /\
  getHtmlFromLocalCache (run (Examples.saves 0 21) new) "page-20" = Some "<div>20</div>".
Proof. repeat split; reflexivity. Qed.

(* ================================================================== *)
(** * The properties of the specification *)
(* ================================================================== *)

(** ** migrate and validate *)

(** C1, as stated, fails: [migrate] keeps a truthy name that is not a string
    as it is, and keeps a [null] entry of the top-level [categories], also
    one that was a number beyond the range of a double before the copy;
    [validate] rejects these outputs. *)
Lemma migrate_output_rejected_by_validate :
  (migrated <- migrate Examples.numeric_name_config ;; validate migrated)
  = Ok (mk_validation false ["categories[0]: falta nombre o no es string"])
  /\
  (migrated <- migrate Examples.null_entry_config ;; validate migrated)
  = Ok (mk_validation false ["categories[0]: categoría vacía"])
  /\
  is_json Examples.infinite_entry_config = true /\
  (migrated <- migrate Examples.infinite_entry_config ;; validate migrated)
  = Ok (mk_validation false ["categories[0]: categoría vacía"]).
Proof. repeat split; reflexivity. Qed.

(** C1, amended: for every JSON input (as [JSON.parse] gives it, numbers
    beyond the range of a double included) on which [migrate] returns, whose
    top-level [categories] has no entry that is falsy or such a number, and
    in which every truthy category name, every name and url of a page with a
    truthy url, and every truthy [blockTypes] of such a page has the type
    [validate] asks for (string, string, array), [validate] accepts what
    [migrate] returns, with no error. *)
Theorem migrate_output_validates (json migrated : value) :
  is_json json = true ->
  json_config_well_typed json = true ->
  migrate json = Ok migrated ->
  validate migrated = Ok (mk_validation true []).
Proof. apply json_migrated_config_valid. Qed.

Lemma migrate_output_validates_witness :
  (exists migrated,
      is_json Examples.legacy_config = true /\
      json_config_well_typed Examples.legacy_config = true /\
      migrate Examples.legacy_config = Ok migrated /\
      validate migrated = Ok (mk_validation true [])) /\
  (exists migrated,
      is_json Examples.infinite_pages_config = true /\
      json_config_well_typed Examples.infinite_pages_config = true /\
      migrate Examples.infinite_pages_config = Ok migrated /\
      validate migrated = Ok (mk_validation true [])).
Proof.
  split.
  - eexists. split; [reflexivity|]. split; [reflexivity|]. split; [reflexivity|].
    apply (migrate_output_validates Examples.legacy_config); reflexivity.
  - eexists. split; [reflexivity|]. split; [reflexivity|]. split; [reflexivity|].
    apply (migrate_output_validates Examples.infinite_pages_config); reflexivity.
Defined.

(** C2, as stated, fails: [migrate] calls [map] on a category's [pages]
    whatever it is, and a string or an object has no [map]. *)
Lemma migrate_throws_on_non_array_pages :
  migrate Examples.string_pages_config = Throw TypeError /\
  migrate Examples.object_pages_config = Throw TypeError /\
  migrate (VStr "abc") = Throw TypeError.
Proof. repeat split; reflexivity. Qed.

(** C2, amended: [parse] and [validate] return a value on every input;
    what [migrate] throws is a [TypeError]; [migrate] returns a value on a
    JSON input (as [JSON.parse] gives it) exactly when the input is falsy, or
    is an object or an array whose [categories], and every [pages] and
    [categories] of every category that is not falsy, at any depth, are
    arrays, falsy, or numbers that are not finite (the copy holds [null] for
    those, also where a category was one); on every other JSON input it
    throws a [TypeError]. *)
Theorem core_operations_return (json : value) :
  (exists config, parse json = Ok config) /\
  (exists result, validate json = Ok result) /\
  (forall e, migrate json = Throw e -> e = TypeError) /\
  (is_json json = true ->
   ((exists migrated, migrate json = Ok migrated) <-> json_migratable json = true) /\
   (json_migratable json = false -> migrate json = Throw TypeError)).
Proof.
  split; [rewrite parse_eq; eauto|].
  split; [rewrite validate_eq; eauto|].
  split; [apply migrate_throws_TypeError|].
  intros Hj. pose proof (json_migratable_returns json Hj) as H.
  split; [exact H|].
  intros Hm. destruct (migrate json) as [m|e] eqn:E.
  - assert (json_migratable json = true) by (apply H; eauto). congruence.
  - rewrite (migrate_throws_TypeError _ _ E). reflexivity.
Qed.

Lemma core_operations_return_witness :
  is_json Examples.legacy_config = true /\
  json_migratable Examples.legacy_config = true /\
  (exists migrated, migrate Examples.legacy_config = Ok migrated) /\
  is_json Examples.string_pages_config = true /\
  json_migratable Examples.string_pages_config = false /\
  migrate Examples.string_pages_config = Throw TypeError /\
  is_json Examples.infinite_pages_config = true /\
  json_migratable Examples.infinite_pages_config = true /\
  (exists migrated, migrate Examples.infinite_pages_config = Ok migrated) /\
  is_json (VNonFinite Infinity) = true /\
  json_migratable (VNonFinite Infinity) = false /\
  migrate (VNonFinite Infinity) = Throw TypeError.
Proof.
  split; [reflexivity|]. split; [reflexivity|].
  split.
  { destruct (core_operations_return Examples.legacy_config) as (_ & _ & _ & H).
    destruct (H eq_refl) as [Hiff _]. apply Hiff. reflexivity. }
  split; [reflexivity|]. split; [reflexivity|].
  split.
  { destruct (core_operations_return Examples.string_pages_config) as (_ & _ & _ & H).
    destruct (H eq_refl) as [_ Hthrow]. apply Hthrow. reflexivity. }
  split; [reflexivity|]. split; [reflexivity|].
  split.
  { destruct (core_operations_return Examples.infinite_pages_config) as (_ & _ & _ & H).
    destruct (H eq_refl) as [Hiff _]. apply Hiff. reflexivity. }
  split; [reflexivity|]. split; [reflexivity|].
  destruct (core_operations_return (VNonFinite Infinity)) as (_ & _ & _ & H).
  destruct (H eq_refl) as [_ Hthrow]. apply Hthrow. reflexivity.
Defined.

(** C3, as stated, fails: a page whose [visibleToPlayers] is present and
    [false] while [visible] is [true] is migrated to [visibleToPlayers: true],
    not to its own [visibleToPlayers]. *)
Lemma migratePage_legacy_flag_overrides_false :
  is_defined (prop Examples.hidden_page_with_legacy_flag "visibleToPlayers") = true /\
  prop Examples.hidden_page_with_legacy_flag "visibleToPlayers" = VBool false /\
  exists migrated,
    _migratePage Examples.hidden_page_with_legacy_flag = Ok migrated /\
    prop migrated "visibleToPlayers" = VBool true /\
    prop migrated "visibleToPlayers"
      <> prop Examples.hidden_page_with_legacy_flag "visibleToPlayers".
Proof.
  split; [reflexivity|]. split; [reflexivity|].
  eexists. split; [reflexivity|]. split; [reflexivity|]. discriminate.
Qed.

Lemma filter_truthy_migrated_pages (pages : list value) :
  filter truthy (map migrated_page pages) = map migrated_page (filter has_usable_url pages).
Proof.
  induction pages as [|p pages IH]; simpl; [reflexivity|].
  rewrite migrated_page_truthy. destruct (has_usable_url p); simpl; rewrite IH; reflexivity.
Qed.

(** C3, amended: [_migratePage] returns [null] exactly when the page is
    falsy or its [url] is falsy, and [_migrateCategory] drops exactly those
    pages; otherwise the migrated page has the page's [url], and its
    [visibleToPlayers] is the page's own [visibleToPlayers] when that is
    truthy, else the page's [visible] when that is truthy, else [false]. *)
Theorem migratePage_url_and_visibility :
  (forall page, exists migrated,
      _migratePage page = Ok migrated /\
      truthy migrated = has_usable_url page /\
      if has_usable_url page
      then prop migrated "url" = prop page "url" /\
           prop migrated "visibleToPlayers" =
             (if truthy (prop page "visibleToPlayers") then prop page "visibleToPlayers"
              else if truthy (prop page "visible") then prop page "visible"
              else VBool false)
      else migrated = VNull) /\
  (forall category migrated,
      truthy category = true ->
      _migrateCategory category = Ok migrated ->
      prop migrated "pages"
      = VArr (map migrated_page
                (filter has_usable_url (elements (prop category "pages")))) []).
Proof.
  split.
  - intros page. exists (migrated_page page).
    split; [apply _migratePage_total|].
    split; [apply migrated_page_truthy|].
    unfold migrated_page. destruct (has_usable_url page); [|reflexivity].
    split; [reflexivity|].
    cbn [prop app own own_k String.eqb Ascii.eqb Bool.eqb]. unfold or_else.
    destruct (truthy (prop page "visibleToPlayers")) eqn:Hv; rewrite ?Hv; [reflexivity|].
    destruct (truthy (prop page "visible")) eqn:Hl; rewrite ?Hl; reflexivity.
  - intros category migrated Hc Hm.
    destruct (_migrateCategory_inv _ _ Hc Hm) as (cs & _ & _ & _ & ->).
    cbn [migrated_category_of prop app own own_k String.eqb Ascii.eqb Bool.eqb].
    rewrite filter_truthy_migrated_pages. reflexivity.
Qed.

Lemma migratePage_url_and_visibility_witness :
  exists page category migrated,
    has_usable_url page = true /\
    truthy category = true /\
    _migrateCategory category = Ok migrated /\
    prop (migrated_page page) "visibleToPlayers" = VBool true /\
    prop migrated "pages" = VArr [migrated_page page] [].
Proof.
  exists (Examples.obj [("name", VStr "Page"); ("url", VStr "https://...");
                        ("visible", VBool true)]).
  exists (Examples.obj [("name", VStr "Test");
                        ("pages", Examples.arr
                           [Examples.obj [("name", VStr "Page"); ("url", VStr "https://...");
                                          ("visible", VBool true)];
                            Examples.obj [("name", VStr "Invalid")]])]).
  eexists.
  split; [reflexivity|]. split; [reflexivity|]. split; [reflexivity|].
  split; [reflexivity|].
  destruct migratePage_url_and_visibility as [_ H].
  apply (H (Examples.obj [("name", VStr "Test");
                          ("pages", Examples.arr
                             [Examples.obj [("name", VStr "Page"); ("url", VStr "https://...");
                                            ("visible", VBool true)];
                              Examples.obj [("name", VStr "Invalid")]])]));
    reflexivity.
Defined.

(** ** parse with open constructors *)

Lemma parse_using_storing (json : value) :
  parse_using storing_Category storing_Config json = parse json.
Proof. reflexivity. Qed.

Lemma _parseCategory_using_eq
      (new_Category : value -> list Page.t -> list Category.t -> value -> result Category.t)
      (categoryJson : value) :
  truthy categoryJson = true ->
  _parseCategory_using new_Category categoryJson =
    (pages <- _parsePages (or_else (prop categoryJson "pages") empty_array) ;;
     subcategories <- _parseCategories_using new_Category
                        (or_else (prop categoryJson "categories") empty_array) ;;
     new_Category (prop categoryJson "name") pages subcategories
       (or_else (prop categoryJson "collapsed") (VBool false))).
Proof.
  intros H. unfold _parseCategories_using.
  destruct categoryJson; simpl in H; try discriminate; subst;
    cbn [_parseCategory_using truthy negb get get_k prop]; rewrite ?H;
    cbn [negb]; unfold_reads; reflexivity.
Qed.

Lemma _parseCategories_using_elements
      (new_Category : value -> list Page.t -> list Category.t -> value -> result Category.t)
      (v : value) :
  _parseCategories_using new_Category (or_else v empty_array)
  = filter_mapM keep_category (_parseCategory_using new_Category) (elements v).
Proof.
  unfold _parseCategories_using, _parseCategories_with, or_else.
  destruct (truthy v) eqn:E; [destruct v; reflexivity|].
  destruct v; try reflexivity; discriminate.
Qed.

Lemma filter_mapM_Throw {A B : Type} (keep : A -> result bool) (f : A -> result B)
      (p : A -> bool) (l : list A) (x : A) (e : exn) :
  (forall y, In y l -> keep y = Ok (p y)) ->
  In x l -> p x = true -> f x = Throw e ->
  exists e', filter_mapM keep f l = Throw e'.
Proof.
  induction l as [|y l IH]; intros Hk Hin Hp Hx; [destruct Hin|].
  simpl. rewrite (Hk y (or_introl eq_refl)). cbn [bind].
  destruct Hin as [->|Hin].
  - rewrite Hp, Hx. simpl. eauto.
  - destruct (IH (fun z Hz => Hk z (or_intror Hz)) Hin Hp Hx) as [e' He'].
    destruct (p y); [|eauto].
    destruct (f y); simpl; [|eauto]. rewrite He'. simpl. eauto.
Qed.

(** An exception of the constructor, raised for a category at any depth
    of the descent, leaves [_parseCategories] as an exception. *)
Lemma _parseCategories_using_Throw
      (new_Category : value -> list Page.t -> list Category.t -> value -> result Category.t)
      (entries cat : value) (e : exn) :
  descends_to entries cat ->
  (forall pages categories collapsed,
      new_Category (prop cat "name") pages categories collapsed = Throw e) ->
  exists e', _parseCategories_using new_Category (or_else entries empty_array) = Throw e'.
Proof.
  intros Hd Hthrow. induction Hd as [entries cat Hin Hk|entries cat parent Hin Hk _ IH];
    rewrite _parseCategories_using_elements; specialize (IH Hthrow) || idtac.
  - assert (Hc : exists e', _parseCategory_using new_Category cat = Throw e').
    { rewrite (_parseCategory_using_eq _ _ (category_kept_truthy _ Hk)).
      rewrite _parsePages_total. cbn [bind].
      destruct (_parseCategories_using new_Category _); cbn [bind]; eauto. }
    destruct Hc as [e' He'].
    apply (filter_mapM_Throw _ _ category_kept _ cat e'); auto.
    intros y _. apply keep_category_total.
  - destruct IH as [e' He'].
    apply (filter_mapM_Throw _ _ category_kept _ parent e'); auto.
    + intros y _. apply keep_category_total.
    + rewrite (_parseCategory_using_eq _ _ (category_kept_truthy _ Hk)).
      rewrite _parsePages_total. cbn [bind]. rewrite He'. reflexivity.
Qed.

Lemma parse_using_returns
      (new_Category : value -> list Page.t -> list Category.t -> value -> result Category.t)
      (new_Config : list Category.t -> result Config.t) (json : value) :
  exists config, parse_using new_Category new_Config json = Ok config.
Proof.
  unfold parse_using. destruct (truthy json); cbn [negb]; [|eauto].
  destruct (parse_body_using new_Category new_Config json); simpl; eauto.
Qed.

Lemma parse_using_caught
      (new_Category : value -> list Page.t -> list Category.t -> value -> result Category.t)
      (new_Config : list Category.t -> result Config.t) (json : value) (e : exn) :
  parse_body_using new_Category new_Config json = Throw e ->
  parse_using new_Category new_Config json = Ok Config.empty.
Proof.
  intros H. unfold parse_using. rewrite H. destruct (truthy json); reflexivity.
Qed.

(** ** parse *)

(** C4: [parse(null)] and [parse(undefined)] return a Config with no
    category, and [parse] returns a Config on every input.  This holds
    whatever the constructors of [Category] and [Config] do inside the [try]
    block: [parse] still returns a Config on every input; an input on which
    the block throws gives the empty Config; and the block does throw, so
    that the empty Config is what [parse] returns, whenever the constructor
    of [Category] throws for a category the descent reaches, at any depth,
    or the constructor of [Config] throws. *)
Theorem parse_never_throws :
  parse VNull = Ok Config.empty /\
  parse VUndefined = Ok Config.empty /\
  Config.categories Config.empty = [] /\
  (forall json, exists config, parse json = Ok config) /\
  (forall json, parse_using storing_Category storing_Config json = parse json) /\
  forall new_Category new_Config json,
    (exists config, parse_using new_Category new_Config json = Ok config) /\
    (truthy json = false -> parse_using new_Category new_Config json = Ok Config.empty) /\
    (forall e, parse_body_using new_Category new_Config json = Throw e ->
               parse_using new_Category new_Config json = Ok Config.empty) /\
    (forall cat e,
        truthy json = true ->
        descends_to (prop json "categories") cat ->
        (forall pages categories collapsed,
            new_Category (prop cat "name") pages categories collapsed = Throw e) ->
        (exists e', parse_body_using new_Category new_Config json = Throw e') /\
        parse_using new_Category new_Config json = Ok Config.empty) /\
    (forall e,
        truthy json = true ->
        (forall categories, new_Config categories = Throw e) ->
        (exists e', parse_body_using new_Category new_Config json = Throw e') /\
        parse_using new_Category new_Config json = Ok Config.empty).
Proof.
  split; [reflexivity|]. split; [reflexivity|]. split; [reflexivity|].
  split; [intros json; rewrite parse_eq; eauto|].
  split; [reflexivity|].
  intros new_Category new_Config json.
  split; [apply parse_using_returns|].
  split; [intros H; unfold parse_using; rewrite H; reflexivity|].
  split; [apply parse_using_caught|].
  split.
  - intros cat e Hj Hd Hthrow.
    assert (Hb : exists e', parse_body_using new_Category new_Config json = Throw e').
    { unfold parse_body_using. rewrite (get_truthy _ _ Hj). cbn [bind].
      destruct (_parseCategories_using_Throw _ _ _ _ Hd Hthrow) as [e' ->]. cbn [bind]. eauto. }
    split; [exact Hb|]. destruct Hb as [e' He']. apply (parse_using_caught _ _ _ _ He').
  - intros e Hj Hthrow.
    assert (Hb : exists e', parse_body_using new_Category new_Config json = Throw e').
    { unfold parse_body_using. rewrite (get_truthy _ _ Hj). cbn [bind].
      destruct (_parseCategories_using new_Category _); cbn [bind]; [|eauto].
      rewrite Hthrow. eauto. }
    split; [exact Hb|]. destruct Hb as [e' He']. apply (parse_using_caught _ _ _ _ He').
Qed.

Lemma parse_never_throws_witness :
  truthy Examples.boom_config = true /\
  descends_to (prop Examples.boom_config "categories")
              (Examples.obj [("name", VStr "Boom")]) /\
  parse_body_using Examples.exploding_Category storing_Config Examples.boom_config
  = Throw TypeError /\
  parse_using Examples.exploding_Category storing_Config Examples.boom_config
  = Ok Config.empty /\
  truthy VNull = false /\
  parse_using Examples.exploding_Category storing_Config VNull = Ok Config.empty.
Proof.
  assert (Hd : descends_to (prop Examples.boom_config "categories")
                           (Examples.obj [("name", VStr "Boom")])).
  { apply (descends_below _ _
             (Examples.obj [("name", VStr "B");
                            ("categories",
                             Examples.arr [Examples.obj [("name", VStr "C")];
                                           Examples.obj [("name", VStr "Boom")]])])).
    - right. left. reflexivity.
    - reflexivity.
    - apply descends_here; [right; left; reflexivity|reflexivity]. }
  destruct parse_never_throws as (_ & _ & _ & _ & _ & H).
  split; [reflexivity|]. split; [exact Hd|]. split; [reflexivity|].
  split.
  - destruct (H Examples.exploding_Category storing_Config Examples.boom_config)
      as (_ & _ & _ & Hdeep & _).
    apply (Hdeep (Examples.obj [("name", VStr "Boom")]) TypeError eq_refl Hd).
    intros pages categories collapsed. reflexivity.
  - split; [reflexivity|].
    destruct (H Examples.exploding_Category storing_Config VNull) as (_ & Hnull & _).
    apply Hnull. reflexivity.
Defined.

(** ** migrate twice *)

(** C5: whenever [migrate] returns, migrating what it returned returns the
    same value again. *)
Theorem migrate_idempotent (x y : value) :
  migrate x = Ok y -> migrate y = Ok y.
Proof. apply migrate_fixed. Qed.

Lemma migrate_idempotent_witness :
  exists y, migrate Examples.legacy_config = Ok y /\ migrate y = Ok y.
Proof.
  eexists. split; [reflexivity|].
  apply (migrate_idempotent Examples.legacy_config). reflexivity.
Defined.

(** ** validate reports every violation *)

(** C6, as stated, fails: a [categories] that is [false] and a
    [blockTypes] that is the empty string are present and are not arrays,
    which the rules forbid; [validate] reports neither and finds the
    configuration valid. *)
Lemma validate_misses_falsy_non_array_fields :
  specified_violation Examples.falsy_fields_config
    "categories[0].categories: debe ser un array" /\
  specified_violation Examples.falsy_fields_config
    "categories[0].pages[0].blockTypes: debe ser un array" /\
  validate Examples.falsy_fields_config = Ok (mk_validation true []).
Proof.
  split; [|split; [|reflexivity]].
  - apply (cfv_category is_defined Examples.falsy_fields_config 0
             (Examples.obj
                [("name", VStr "A");
                 ("categories", VBool false);
                 ("pages", Examples.arr
                    [Examples.obj [("name", VStr "P"); ("url", VStr "u");
                                   ("blockTypes", VStr "")]])])
             _ eq_refl).
    apply (cv_categories is_defined
             (Examples.obj
                [("name", VStr "A");
                 ("categories", VBool false);
                 ("pages", Examples.arr
                    [Examples.obj [("name", VStr "P"); ("url", VStr "u");
                                   ("blockTypes", VStr "")]])])
             "categories[0]"); reflexivity.
  - apply (cfv_category is_defined Examples.falsy_fields_config 0
             (Examples.obj
                [("name", VStr "A");
                 ("categories", VBool false);
                 ("pages", Examples.arr
                    [Examples.obj [("name", VStr "P"); ("url", VStr "u");
                                   ("blockTypes", VStr "")]])])
             _ eq_refl).
    apply (cv_page is_defined
             (Examples.obj
                [("name", VStr "A");
                 ("categories", VBool false);
                 ("pages", Examples.arr
                    [Examples.obj [("name", VStr "P"); ("url", VStr "u");
                                   ("blockTypes", VStr "")]])])
             "categories[0]" 0
             (Examples.obj [("name", VStr "P"); ("url", VStr "u"); ("blockTypes", VStr "")])
             _ eq_refl eq_refl).
    apply (pv_blockTypes is_defined
             (Examples.obj [("name", VStr "P"); ("url", VStr "u"); ("blockTypes", VStr "")])
             "categories[0].pages[0]"); reflexivity.
Qed.

(** C6, amended: when the top-level [categories] is an array, the errors
    [validate] returns are exactly the violations of the rules as it tests
    them (a [pages], [categories] or [blockTypes] counts as present when it
    is truthy), in every category, page and subcategory at any depth.  Each
    of them is a violation of the rules as the specification words them, and
    the violations of those are the ones reported and, besides, every
    [pages], [categories] or [blockTypes] that is there and falsy in a
    category or page [validate] visits.  The input is valid exactly when
    no error is returned; and a page without a truthy [name], the [j]-th of
    the [i]-th category, gives [valid: false] and the error
    [categories[i].pages[j]: falta nombre o no es string]. *)
Theorem validate_reports_every_violation (json : value) :
  truthy json = true ->
  isArray (prop json "categories") = true ->
  exists result,
    validate json = Ok result /\
    (forall msg, In msg (errors result) <-> tested_violation json msg) /\
    (forall msg, specified_violation json msg <->
                 In msg (errors result) \/ unreported_violation json msg) /\
    (valid result = true <-> errors result = []) /\
    (forall i cat j page,
        nth_error (elements (prop json "categories")) i = Some cat ->
        truthy cat = true ->
        nth_error (elements (prop cat "pages")) j = Some page ->
        truthy page = true ->
        truthy (prop page "name") = false ->
        valid result = false /\
        In ((("categories[" ++ index_to_string i ++ "]")
             ++ ".pages[" ++ index_to_string j ++ "]")
            ++ ": falta nombre o no es string")%string (errors result)).
Proof.
  intros Hj Ha. rewrite (validate_array _ Hj Ha). cbv zeta.
  eexists. split; [reflexivity|]. cbn [errors valid].
  assert (Hall : forall msg,
    In msg (collect (fun cat index =>
                       category_errors cat ("categories[" ++ index_to_string index ++ "]"))
                    (elements (prop json "categories")) 0)
    <-> tested_violation json msg).
  { intros msg. rewrite in_collect. split.
    - intros (i & c & Hi & Hin). simpl in Hin.
      apply (cfv_category truthy json i c msg Hi). apply category_errors_violation, Hin.
    - intros [i c m Hi Hv]. exists i, c. split; [exact Hi|].
      apply category_errors_violation, Hv. }
  split; [exact Hall|].
  split; [intros msg; rewrite Hall; apply specified_violation_iff|].
  split; [apply length_eqb_0|].
  intros i cat j page Hi Hc Hp Hpage Hname.
  assert (Hin : In ((("categories[" ++ index_to_string i ++ "]")
                     ++ ".pages[" ++ index_to_string j ++ "]")
                    ++ ": falta nombre o no es string")%string
                   (collect (fun cat index =>
                       category_errors cat ("categories[" ++ index_to_string index ++ "]"))
                    (elements (prop json "categories")) 0)).
  { apply Hall. apply (cfv_category truthy json i cat _ Hi).
    apply (cv_page truthy cat _ j page _ Hc Hp).
    apply pv_name; [exact Hpage|]. rewrite Hname. reflexivity. }
  split; [|exact Hin].
  destruct (collect _ _ _); [destruct Hin|reflexivity].
Qed.

Lemma validate_reports_every_violation_witness :
  truthy Examples.invalid_config = true /\
  isArray (prop Examples.invalid_config "categories") = true /\
  validate Examples.invalid_config
  = Ok (mk_validation false
          ["categories[0].pages[1]: falta nombre o no es string";
           "categories[1]: falta nombre o no es string";
           "categories[1].pages: debe ser un array"]) /\
  (exists result cat page,
      validate Examples.invalid_config = Ok result /\
      (forall msg, In msg (errors result) <-> tested_violation Examples.invalid_config msg) /\
      nth_error (elements (prop Examples.invalid_config "categories")) 0 = Some cat /\
      truthy cat = true /\
      nth_error (elements (prop cat "pages")) 1 = Some page /\
      truthy page = true /\
      truthy (prop page "name") = false /\
      valid result = false /\
      In "categories[0].pages[1]: falta nombre o no es string" (errors result)) /\
  truthy Examples.falsy_fields_config = true /\
  isArray (prop Examples.falsy_fields_config "categories") = true /\
  validate Examples.falsy_fields_config = Ok (mk_validation true []) /\
  unreported_violation Examples.falsy_fields_config
    "categories[0].categories: debe ser un array".
Proof.
  split; [reflexivity|]. split; [reflexivity|]. split; [reflexivity|].
  split.
  { destruct (validate_reports_every_violation Examples.invalid_config eq_refl eq_refl)
      as (result & Hv & Hall & _ & _ & Hpage).
    exists result.
    exists (Examples.obj
              [("name", VStr "Test");
               ("pages", Examples.arr
                  [Examples.obj [("name", VStr "Page"); ("url", VStr "https://...")];
                   Examples.obj [("url", VStr "https://...")]])]).
    exists (Examples.obj [("url", VStr "https://...")]).
    split; [exact Hv|]. split; [exact Hall|].
    split; [reflexivity|]. split; [reflexivity|]. split; [reflexivity|].
    split; [reflexivity|]. split; [reflexivity|].
    apply (Hpage 0 (Examples.obj
              [("name", VStr "Test");
               ("pages", Examples.arr
                  [Examples.obj [("name", VStr "Page"); ("url", VStr "https://...")];
                   Examples.obj [("url", VStr "https://...")]])])
            1 (Examples.obj [("url", VStr "https://...")])); reflexivity. }
  split; [reflexivity|]. split; [reflexivity|]. split; [reflexivity|].
  destruct (validate_reports_every_violation Examples.falsy_fields_config eq_refl eq_refl)
    as (result & Hv & _ & Hgap & _).
  injection Hv as <-.
  destruct (proj1 (Hgap "categories[0].categories: debe ser un array")) as [[]|Hf];
    [|exact Hf].
  apply (cfv_category is_defined Examples.falsy_fields_config 0
           (Examples.obj
              [("name", VStr "A");
               ("categories", VBool false);
               ("pages", Examples.arr
                  [Examples.obj [("name", VStr "P"); ("url", VStr "u");
                                 ("blockTypes", VStr "")]])])
           _ eq_refl).
  apply (cv_categories is_defined
           (Examples.obj
              [("name", VStr "A");
               ("categories", VBool false);
               ("pages", Examples.arr
                  [Examples.obj [("name", VStr "P"); ("url", VStr "u");
                                 ("blockTypes", VStr "")]])])
           "categories[0]"); reflexivity.
Defined.

(** ** What parse keeps *)

Lemma filter_length_split {A : Type} (f : A -> bool) (l : list A) :
  List.length (filter f l) + List.length (filter (fun x => negb (f x)) l) = List.length l.
Proof.
  induction l as [|x l IH]; simpl; [reflexivity|].
  destruct (f x); simpl; lia.
Qed.

Lemma filter_all {A : Type} (f : A -> bool) (l : list A) :
  forallb f l = true -> filter f l = l.
Proof.
  induction l as [|x l IH]; simpl; [reflexivity|].
  intros H. apply andb_true_iff in H as [Hx Hl]. rewrite Hx, (IH Hl). reflexivity.
Qed.

(** C7: when the top-level [categories] is an array, [parse] returns the
    categories built from the entries that are truthy and have a truthy
    [name] (for a string: a non-empty one), in their order: as many as the
    array has when every entry is such, and otherwise fewer by the number of
    the other entries.  At every depth the pages of a kept category are built
    from the entries of its [pages] that are truthy with truthy [name] and
    [url], and its subcategories from the kept entries of its [categories],
    in their order, each sequence shorter than its array by the number of
    entries dropped. *)
Theorem parse_keeps_named_entries_in_order (json : value) :
  truthy json = true ->
  isArray (prop json "categories") = true ->
  exists config,
    parse json = Ok config /\
    let entries := elements (prop json "categories") in
    Config.categories config = map parsed_category (filter category_kept entries) /\
    map Category.name (Config.categories config)
    = map (fun cat => prop cat "name") (filter category_kept entries) /\
    List.length (Config.categories config)
    + List.length (filter (fun cat => negb (category_kept cat)) entries)
    = List.length entries /\
    (forallb category_kept entries = true ->
     List.length (Config.categories config) = List.length entries) /\
    (forall cat,
        category_kept cat = true ->
        let pages := elements (prop cat "pages") in
        let subs := elements (prop cat "categories") in
        Category.name (parsed_category cat) = prop cat "name" /\
        Category.pages (parsed_category cat) = map parsed_page (filter page_kept pages) /\
        map Page.name (Category.pages (parsed_category cat))
        = map (fun page => prop page "name") (filter page_kept pages) /\
        map Page.url (Category.pages (parsed_category cat))
        = map (fun page => prop page "url") (filter page_kept pages) /\
        List.length (Category.pages (parsed_category cat))
        + List.length (filter (fun page => negb (page_kept page)) pages)
        = List.length pages /\
        Category.categories (parsed_category cat)
        = map parsed_category (filter category_kept subs) /\
        List.length (Category.categories (parsed_category cat))
        + List.length (filter (fun sub => negb (category_kept sub)) subs)
        = List.length subs) /\
    (forall cat s,
        prop cat "name" = VStr s ->
        category_kept cat = truthy cat && negb (String.eqb s "")) /\
    (forall page n u,
        prop page "name" = VStr n -> prop page "url" = VStr u ->
        page_kept page = truthy page && negb (String.eqb n "") && negb (String.eqb u "")).
Proof.
  intros Hj Ha. rewrite parse_eq, Hj. eexists. split; [reflexivity|].
  cbv zeta. cbn [Config.new Config.categories].
  assert (Hnames : forall l,
    map Category.name (map parsed_category (filter category_kept l))
    = map (fun cat => prop cat "name") (filter category_kept l)).
  { intros l. rewrite map_map. apply map_ext_in. intros c Hc.
    apply filter_In in Hc as [_ Hk].
    rewrite (parsed_category_eq _ (category_kept_truthy _ Hk)). reflexivity. }
  split; [reflexivity|]. split; [apply Hnames|].
  split; [rewrite length_map; apply filter_length_split|].
  split.
  { intros Hall. rewrite length_map, (filter_all _ _ Hall). reflexivity. }
  split; [|split].
  - intros cat Hk. rewrite (parsed_category_eq _ (category_kept_truthy _ Hk)).
    cbn [Category.name Category.pages Category.categories].
    repeat split.
    + rewrite map_map. reflexivity.
    + rewrite map_map. reflexivity.
    + rewrite length_map. apply filter_length_split.
    + rewrite length_map. apply filter_length_split.
  - intros cat s Hs. unfold category_kept. rewrite Hs. reflexivity.
  - intros page n u Hn Hu. unfold page_kept. rewrite Hn, Hu. reflexivity.
Qed.

Lemma parse_keeps_named_entries_in_order_witness :
  truthy Examples.sparse_config = true /\
  isArray (prop Examples.sparse_config "categories") = true /\
  (exists config,
      parse Examples.sparse_config = Ok config /\
      map Category.name (Config.categories config) = [VStr "NPCs"; VStr "Places"] /\
      List.length (Config.categories config) + 2 = 4) /\
  (exists cat,
      category_kept cat = true /\
      map Page.name (Category.pages (parsed_category cat)) = [VStr "Gandalf"] /\
      List.length (Category.pages (parsed_category cat)) + 2 = 3) /\
  truthy Examples.legacy_config = true /\
  isArray (prop Examples.legacy_config "categories") = true /\
  forallb category_kept (elements (prop Examples.legacy_config "categories")) = true /\
  (exists config,
      parse Examples.legacy_config = Ok config /\
      List.length (Config.categories config) = 1) /\
  prop (Examples.obj [("name", VStr "")]) "name" = VStr "" /\
  category_kept (Examples.obj [("name", VStr "")]) = false /\
  prop (Examples.obj [("name", VStr "P"); ("url", VStr "")]) "url" = VStr "" /\
  page_kept (Examples.obj [("name", VStr "P"); ("url", VStr "")]) = false.
Proof.
  split; [reflexivity|]. split; [reflexivity|].
  destruct (parse_keeps_named_entries_in_order Examples.sparse_config eq_refl eq_refl)
    as (config & Hp & _ & Hnames & Hlen & _ & Hcat & _).
  split; [exists config; split; [exact Hp|]; split; [exact Hnames|exact Hlen]|].
  split.
  { exists (Examples.obj
              [("name", VStr "NPCs");
               ("pages", Examples.arr
                  [Examples.obj [("name", VStr "Gandalf");
                                 ("url", VStr "https://notion.so/gandalf")];
                   VNull;
                   Examples.obj [("name", VStr "No url")]])]).
    split; [reflexivity|].
    destruct (Hcat (Examples.obj
              [("name", VStr "NPCs");
               ("pages", Examples.arr
                  [Examples.obj [("name", VStr "Gandalf");
                                 ("url", VStr "https://notion.so/gandalf")];
                   VNull;
                   Examples.obj [("name", VStr "No url")]])]) eq_refl)
      as (_ & _ & Hpn & _ & Hpl & _).
    split; [exact Hpn|exact Hpl]. }
  split; [reflexivity|]. split; [reflexivity|]. split; [reflexivity|].
  destruct (parse_keeps_named_entries_in_order Examples.legacy_config eq_refl eq_refl)
    as (config' & Hp' & _ & _ & _ & Hall & _ & Hname & Hurl).
  split; [exists config'; split; [exact Hp'|]; apply Hall; reflexivity|].
  split; [reflexivity|].
  split; [apply (Hname (Examples.obj [("name", VStr "")]) ""); reflexivity|].
  split; [reflexivity|].
  apply (Hurl (Examples.obj [("name", VStr "P"); ("url", VStr "")]) "P" ""); reflexivity.
Defined.

(** ** The messages about [pages] and [categories] *)

Lemma string_append_inj (p a b : string) : (p ++ a = p ++ b)%string -> a = b.
Proof. induction p as [|c p IH]; simpl; [auto|]. intros [= H]. apply IH, H. Qed.

Lemma starts_with_inv (path more msg suffix : string) :
  starts_with (path ++ more) msg -> msg = (path ++ suffix)%string ->
  exists rest, suffix = (more ++ rest)%string.
Proof.
  intros [rest ->] H. exists rest. rewrite string_append_assoc in H.
  symmetry. apply (string_append_inj path), H.
Qed.

Lemma pages_message_iff (cat : value) (path : string) :
  truthy cat = true ->
  In (path ++ ".pages: debe ser un array")%string (category_errors cat path) <->
  truthy (prop cat "pages") = true /\ isArray (prop cat "pages") = false.
Proof.
  intros Hc. rewrite category_errors_eq, Hc, !in_app_iff. split.
  - intros [H|[H|H]].
    + exfalso. unfold name_errors in H.
      destruct (_ && _); [destruct H|]. destruct H as [H|[]].
      apply string_append_inj in H. discriminate.
    + unfold pages_errors in H. cbv zeta in H.
      destruct (truthy (prop cat "pages")) eqn:Ht, (isArray (prop cat "pages")) eqn:Ha;
        cbn [negb andb] in H; auto; exfalso;
        apply in_collect in H as (i & x & _ & H);
        apply page_errors_violation, page_violation_path in H;
        destruct (starts_with_inv _ _ _ _ H eq_refl) as [rest Hr]; discriminate.
    + exfalso. unfold subcategories_errors in H. cbv zeta in H.
      destruct (truthy (prop cat "categories") && negb (isArray (prop cat "categories"))).
      * destruct H as [H|[]]. apply string_append_inj in H. discriminate.
      * apply in_collect in H as (i & x & _ & H).
        apply category_errors_violation, category_violation_path in H.
        destruct (starts_with_inv _ _ _ _ H eq_refl) as [rest Hr]. discriminate.
  - intros [Ht Ha]. right. left. unfold pages_errors. cbv zeta. rewrite Ht, Ha.
    left. reflexivity.
Qed.

Lemma categories_message_iff (cat : value) (path : string) :
  truthy cat = true ->
  In (path ++ ".categories: debe ser un array")%string (category_errors cat path) <->
  truthy (prop cat "categories") = true /\ isArray (prop cat "categories") = false.
Proof.
  intros Hc. rewrite category_errors_eq, Hc, !in_app_iff. split.
  - intros [H|[H|H]].
    + exfalso. unfold name_errors in H.
      destruct (_ && _); [destruct H|]. destruct H as [H|[]].
      apply string_append_inj in H. discriminate.
    + exfalso. unfold pages_errors in H. cbv zeta in H.
      destruct (truthy (prop cat "pages") && negb (isArray (prop cat "pages"))).
      * destruct H as [H|[]]. apply string_append_inj in H. discriminate.
      * apply in_collect in H as (i & x & _ & H).
        apply page_errors_violation, page_violation_path in H.
        destruct (starts_with_inv _ _ _ _ H eq_refl) as [rest Hr]. discriminate.
    + unfold subcategories_errors in H. cbv zeta in H.
      destruct (truthy (prop cat "categories")) eqn:Ht,
               (isArray (prop cat "categories")) eqn:Ha;
        cbn [negb andb] in H; auto; exfalso;
        apply in_collect in H as (i & x & _ & H);
        apply category_errors_violation, category_violation_path in H;
        destruct (starts_with_inv _ _ _ _ H eq_refl) as [rest Hr]; discriminate.
  - intros [Ht Ha]. right. right. unfold subcategories_errors. cbv zeta. rewrite Ht, Ha.
    left. reflexivity.
Qed.

Lemma falsy_fields_errors (cat : value) (path : string) :
  truthy cat = true ->
  truthy (prop cat "pages") = false -> truthy (prop cat "categories") = false ->
  category_errors cat path = name_errors cat path.
Proof.
  intros Hc Hp Hs. rewrite category_errors_eq, Hc.
  unfold pages_errors, subcategories_errors. cbv zeta.
  rewrite Hp, Hs, (falsy_elements _ Hp), (falsy_elements _ Hs). simpl.
  apply app_nil_r.
Qed.

(** ** parse and validate on malformed fields *)

(** C10, as stated, fails in its last part: a category whose [pages] is
    present and is [0] is kept by [parse] with no page, and [validate]
    reports no error for it. *)
Lemma validate_accepts_falsy_non_array_pages :
  (exists cat,
      elements (prop Examples.zero_pages_config "categories") = [cat] /\
      is_defined (prop cat "pages") = true /\
      isArray (prop cat "pages") = false) /\
  parse Examples.zero_pages_config
  = Ok (Config.new [Category.mk (VStr "A") [] [] (VBool false)]) /\
  validate Examples.zero_pages_config = Ok (mk_validation true []).
Proof.
  split; [eexists; repeat split; reflexivity|]. split; reflexivity.
Qed.

(** C10, amended: a category entry that [parse] keeps is kept whatever its
    [pages] and [categories] are, and either field, when it is not an array,
    is parsed as the empty sequence; a top-level [categories] that is not an
    array gives a Config with no category; [parse] throws in none of these
    cases.  For a category that is not falsy, [validate] returns the error
    of [pages] exactly when [pages] is truthy and not an array, and the error
    of [categories] exactly when [categories] is truthy and not an array;
    when both are falsy, whatever they are ([0], the empty string, [false],
    [null]), the only error it can return for the category is that of its
    name.  [validate] finds invalid every input whose top-level [categories]
    is not an array. *)
Theorem parse_degrades_malformed_fields :
  (forall cat,
      category_kept cat = true ->
      exists category,
        _parseCategory cat = Ok category /\
        Category.name category = prop cat "name" /\
        (isArray (prop cat "pages") = false -> Category.pages category = []) /\
        (isArray (prop cat "categories") = false -> Category.categories category = []) /\
        (forall elems ps,
            In cat elems ->
            exists cats, _parseCategories (VArr elems ps) = Ok cats /\ In category cats)) /\
  (forall cat path,
      truthy cat = true ->
      exists errs,
        _validateCategory cat path = Ok errs /\
        (In (path ++ ".pages: debe ser un array")%string errs <->
         truthy (prop cat "pages") = true /\ isArray (prop cat "pages") = false) /\
        (In (path ++ ".categories: debe ser un array")%string errs <->
         truthy (prop cat "categories") = true /\ isArray (prop cat "categories") = false) /\
        (truthy (prop cat "pages") = false ->
         truthy (prop cat "categories") = false ->
         errs = if truthy (prop cat "name") && is_string (prop cat "name")
                then [] else [(path ++ ": falta nombre o no es string")%string])) /\
  (forall json,
      truthy json = true ->
      isArray (prop json "categories") = false ->
      parse json = Ok Config.empty /\
      exists result, validate json = Ok result /\ valid result = false).
Proof.
  assert (Hnil : forall v, isArray v = false -> elements v = [])
    by (intros []; simpl; congruence).
  split; [|split].
  - intros cat Hk. pose proof (category_kept_truthy _ Hk) as Hc.
    exists (parsed_category cat).
    split; [apply _parseCategory_total, Hc|].
    rewrite (parsed_category_eq _ Hc) at 1 2 3.
    cbn [Category.name Category.pages Category.categories].
    split; [reflexivity|].
    split; [intros H; rewrite (Hnil _ H); reflexivity|].
    split; [intros H; rewrite (Hnil _ H); reflexivity|].
    intros elems ps Hin. rewrite _parseCategories_total. eexists. split; [reflexivity|].
    apply in_map, filter_In. auto.
  - intros cat path Hc. exists (category_errors cat path).
    split; [apply _validateCategory_total|].
    split; [apply pages_message_iff, Hc|].
    split; [apply categories_message_iff, Hc|].
    intros Hp Hs. apply (falsy_fields_errors _ _ Hc Hp Hs).
  - intros json Hj Ha. split.
    + rewrite parse_eq, Hj, (Hnil _ Ha). reflexivity.
    + rewrite validate_eq, Hj, Ha. cbn [negb].
      destruct (truthy (prop json "categories")); eexists; split; reflexivity.
Qed.

Lemma parse_degrades_malformed_fields_witness :
  (exists cat category,
      category_kept cat = true /\
      truthy (prop cat "pages") = true /\
      isArray (prop cat "pages") = false /\
      truthy (prop cat "categories") = true /\
      isArray (prop cat "categories") = false /\
      _parseCategory cat = Ok category /\
      Category.pages category = [] /\
      Category.categories category = [] /\
      In cat [VNull; cat] /\
      (exists cats, _parseCategories (VArr [VNull; cat] []) = Ok cats /\ In category cats) /\
      (exists errs, _validateCategory cat "categories[1]" = Ok errs /\
                    In "categories[1].pages: debe ser un array" errs /\
                    In "categories[1].categories: debe ser un array" errs)) /\
  (exists cat,
      truthy cat = true /\
      prop cat "pages" = VNum 0 /\
      prop cat "categories" = VStr "" /\
      _validateCategory cat "categories[0]" = Ok []) /\
  truthy (Examples.obj [("categories", VNum 3)]) = true /\
  isArray (prop (Examples.obj [("categories", VNum 3)]) "categories") = false /\
  parse (Examples.obj [("categories", VNum 3)]) = Ok Config.empty /\
  exists result,
    validate (Examples.obj [("categories", VNum 3)]) = Ok result /\ valid result = false.
Proof.
  destruct parse_degrades_malformed_fields as (Hcat & Hval & Htop).
  split.
  { exists (Examples.obj [("name", VStr "A"); ("pages", VStr "x");
                          ("categories", Examples.obj [])]).
    destruct (Hcat (Examples.obj [("name", VStr "A"); ("pages", VStr "x");
                                  ("categories", Examples.obj [])]) eq_refl)
      as (category & Hp & _ & Hpages & Hsubs & Hkept).
    exists category.
    split; [reflexivity|]. split; [reflexivity|]. split; [reflexivity|].
    split; [reflexivity|]. split; [reflexivity|].
    split; [exact Hp|].
    split; [apply Hpages; reflexivity|]. split; [apply Hsubs; reflexivity|].
    split; [right; left; reflexivity|].
    split; [apply Hkept; right; left; reflexivity|].
    destruct (Hval (Examples.obj [("name", VStr "A"); ("pages", VStr "x");
                                  ("categories", Examples.obj [])])
                   "categories[1]" eq_refl)
      as (errs & He & Hpe & Hce & _).
    exists errs. split; [exact He|].
    split; [apply Hpe; split; reflexivity|apply Hce; split; reflexivity]. }
  split.
  { exists (Examples.obj [("name", VStr "A"); ("pages", VNum 0); ("categories", VStr "")]).
    split; [reflexivity|]. split; [reflexivity|]. split; [reflexivity|].
    destruct (Hval (Examples.obj [("name", VStr "A"); ("pages", VNum 0);
                                  ("categories", VStr "")])
                   "categories[0]" eq_refl)
      as (errs & He & _ & _ & Hfalsy).
    rewrite He, (Hfalsy eq_refl eq_refl). reflexivity. }
  split; [reflexivity|]. split; [reflexivity|].
  apply (Htop (Examples.obj [("categories", VNum 3)])); reflexivity.
Defined.

(** ** The cache service *)

(** C8: after any sequence of calls on a new cache service the
    rendered-HTML tier holds at most 20 entries, and reads leave it as it
    is.  A save into a tier that holds fewer than 20 entries, or that holds
    the key, evicts nothing.  A save of a key the tier does not hold, into a
    tier that holds 20, evicts exactly the oldest entry by insertion order:
    there is one key of the tier inserted before every other (by a save made
    when the tier did not hold it: a save of a key it held, or a read, does
    not count), that key is gone afterwards, the new key is there, the tier
    still holds 20 entries, and every other key reads as before. *)
Theorem html_cache_bounded_fifo (calls : list call) (pageId html : string) :
  let s := run calls new in
  let s' := saveHtmlToLocalCache s pageId html in
  List.length (html_keys s) <= 20 /\
  (forall reads, run (map GetHtml reads) s = s) /\
  (List.length (html_keys s) < 20 \/ getHtmlFromLocalCache s pageId <> None ->
   getHtmlFromLocalCache s' pageId = Some html /\
   forall k, k <> pageId -> getHtmlFromLocalCache s' k = getHtmlFromLocalCache s k) /\
  (List.length (html_keys s) = 20 ->
   getHtmlFromLocalCache s pageId = None ->
   (exists first, oldest calls first = true) /\
   forall first,
     oldest calls first = true ->
     getHtmlFromLocalCache s first <> None /\
     getHtmlFromLocalCache s' first = None /\
     getHtmlFromLocalCache s' pageId = Some html /\
     List.length (html_keys s') = 20 /\
     forall k, k <> first -> k <> pageId ->
               getHtmlFromLocalCache s' k = getHtmlFromLocalCache s k).
Proof.
  cbv zeta. unfold html_keys. rewrite !length_map.
  destruct (run_invariant calls new) as [Hl Hn]; [split; [simpl; lia|constructor]|].
  split; [exact Hl|]. split; [intros reads; apply run_reads|].
  split.
  { intros Hroom. split.
    - assert (Hlen : List.length (put pageId html (localHtmlCache (run calls new)))
                     <= MAX_LOCAL_HTML).
      { destruct Hroom as [Hlt|Hp].
        - pose proof (put_length pageId html (localHtmlCache (run calls new))).
          unfold MAX_LOCAL_HTML. lia.
        - assert (E : List.length (map fst (put pageId html (localHtmlCache (run calls new))))
                      = List.length (map fst (localHtmlCache (run calls new)))).
          { rewrite put_keys. unfold getHtmlFromLocalCache in Hp.
            destruct (lookup pageId (localHtmlCache (run calls new))); [reflexivity|].
            contradiction. }
          rewrite !length_map in E. lia. }
      unfold getHtmlFromLocalCache, saveHtmlToLocalCache. cbn [localHtmlCache].
      apply Nat.ltb_ge in Hlen. rewrite Hlen. apply lookup_put.
    - intros k Hk. apply save_keeps_others; auto. }
  intros Hfull Habsent.
  pose proof (save_full_absent _ pageId html Hfull Habsent) as Hs.
  unfold getHtmlFromLocalCache in *.
  assert (Hfirst' : forall kv rest, localHtmlCache (run calls new) = kv :: rest ->
                      forall k, oldest calls k = true <-> k = fst kv).
  { intros kv rest Hcache k. apply (oldest_iff_first calls (fst kv) (map fst rest)).
    unfold html_keys. rewrite Hcache. reflexivity. }
  destruct (localHtmlCache (run calls new)) as [|[k0 v0] rest]; [discriminate|].
  pose proof (Hfirst' (k0, v0) rest eq_refl) as Hfirst. cbn [fst] in Hfirst. clear Hfirst'.
  split; [exists k0; apply Hfirst; reflexivity|].
  intros first Hold. apply Hfirst in Hold. subst first.
  unfold getHtmlFromLocalCache in *. rewrite Hs. clear Hs.
  cbn [List.tl]. simpl in Hfull, Habsent, Hn.
  destruct (String.eqb k0 pageId) eqn:E0; [discriminate|].
  inversion Hn as [|? ? Hk0 Hrest]; subst.
  split; [simpl; rewrite String.eqb_refl; discriminate|].
  split.
  { rewrite lookup_app.
    apply lookup_None_keys in Hk0. rewrite Hk0. simpl.
    rewrite String.eqb_sym, E0. reflexivity. }
  split.
  { rewrite lookup_app, Habsent. simpl. rewrite String.eqb_refl. reflexivity. }
  split; [rewrite length_app; simpl; lia|].
  intros k Hk Hp. rewrite lookup_app. simpl.
  assert (String.eqb k0 k = false) as -> by (apply String.eqb_neq; congruence).
  assert (String.eqb pageId k = false) as -> by (apply String.eqb_neq; congruence).
  destruct (lookup k rest); reflexivity.
Qed.

Lemma html_cache_bounded_fifo_witness :
  let calls := (Examples.saves 0 20
                ++ [GetHtml "page-0"; SaveHtml "page-0" "<div>again</div>"])%list in
  let s := run calls new in
  let s' := saveHtmlToLocalCache s "page-20" "<div>20</div>" in
  List.length (html_keys s) = 20 /\
  getHtmlFromLocalCache s "page-20" = None /\
  getHtmlFromLocalCache s "page-0" = Some "<div>again</div>" /\
  oldest calls "page-0" = true /\
  getHtmlFromLocalCache s' "page-0" = None /\
  getHtmlFromLocalCache s' "page-20" = Some "<div>20</div>" /\
  List.length (html_keys s') = 20 /\
  "page-1" <> "page-0" /\
  "page-1" <> "page-20" /\
  getHtmlFromLocalCache s' "page-1" = getHtmlFromLocalCache s "page-1".
Proof.
  cbv zeta.
  split; [reflexivity|]. split; [reflexivity|]. split; [reflexivity|].
  split; [vm_compute; reflexivity|].
  destruct (html_cache_bounded_fifo
              (Examples.saves 0 20
               ++ [GetHtml "page-0"; SaveHtml "page-0" "<div>again</div>"])%list
              "page-20" "<div>20</div>")
    as (_ & _ & _ & H).
  destruct (H eq_refl eq_refl) as [_ Hold].
  destruct (Hold "page-0") as (_ & Hgone & Hnew & Hlen & Hkept); [vm_compute; reflexivity|].
  split; [exact Hgone|]. split; [exact Hnew|]. split; [exact Hlen|].
  split; [discriminate|]. split; [discriminate|].
  apply Hkept; discriminate.
Defined.

(** C9: [clearLocalCache] leaves the rendered-HTML tier with no entry, and
    the blocks cache and the page-info cache as they were. *)
Theorem clearLocalCache_clears_html_only (s : t) (pageId : string) :
  getHtmlFromLocalCache (clearLocalCache s) pageId = None /\
  localHtmlCache (clearLocalCache s) = [] /\
  getCachedBlocks (clearLocalCache s) pageId = getCachedBlocks s pageId /\
  getCachedPageInfo (clearLocalCache s) pageId = getCachedPageInfo s pageId /\
  blocksCache (clearLocalCache s) = blocksCache s /\
  pageInfoCache (clearLocalCache s) = pageInfoCache s.
Proof. repeat split. Qed.

(* ================================================================== *)
(** * Further properties: what parse keeps, counted *)
(* ================================================================== *)

Import Shape.

Lemma json_entries_eq (category : value) :
  json_entries category =
    1 + List.length (elements (prop category "pages"))
    + list_sum (map json_entries (elements (prop category "categories"))).
Proof.
  assert (E : forall cats,
    match cats with VArr elems _ => list_sum (map json_entries elems) | _ => 0 end
    = list_sum (map json_entries (elements cats))) by (intros []; reflexivity).
  destruct category; cbn [json_entries prop prop_k]; rewrite ?own_k_eq, ?E; reflexivity.
Qed.

Lemma fully_kept_eq (category : value) :
  fully_kept category =
    category_kept category &&
    forallb page_kept (elements (prop category "pages")) &&
    forallb fully_kept (elements (prop category "categories")).
Proof.
  assert (E : forall cats,
    match cats with VArr elems _ => forallb fully_kept elems | _ => true end
    = forallb fully_kept (elements cats)) by (intros []; reflexivity).
  destruct category; cbn [fully_kept prop prop_k]; rewrite ?own_k_eq, ?E; reflexivity.
Qed.

Lemma json_entries_pos (category : value) : 1 <= json_entries category.
Proof. rewrite json_entries_eq. lia. Qed.

(** Summing over the kept entries of a list *)
Lemma filter_sum_le {A : Type} (keep : A -> bool) (f g : A -> nat) (l : list A) :
  (forall x, In x l -> keep x = true -> f x <= g x) ->
  list_sum (map f (filter keep l)) <= list_sum (map g l).
Proof.
  induction l as [|x l IH]; intros H; simpl; [lia|].
  assert (IH' : list_sum (map f (filter keep l)) <= list_sum (map g l))
    by (apply IH; intros y Hy; apply H; right; exact Hy).
  destruct (keep x) eqn:E; simpl; [|lia].
  pose proof (H x (or_introl eq_refl) E). lia.
Qed.

Lemma filter_sum_eq_iff {A : Type} (keep : A -> bool) (f g : A -> nat) (l : list A) :
  (forall x, In x l -> keep x = true -> f x <= g x) ->
  (forall x, In x l -> 1 <= g x) ->
  (list_sum (map f (filter keep l)) = list_sum (map g l) <->
   forall x, In x l -> keep x = true /\ f x = g x).
Proof.
  induction l as [|x l IH]; intros Hle Hpos; simpl.
  - split; [intros _ y []|reflexivity].
  - assert (Hle' : forall y, In y l -> keep y = true -> f y <= g y)
      by (intros y Hy; apply Hle; right; exact Hy).
    assert (Hpos' : forall y, In y l -> 1 <= g y)
      by (intros y Hy; apply Hpos; right; exact Hy).
    specialize (IH Hle' Hpos').
    pose proof (filter_sum_le keep f g l Hle') as Hsum.
    pose proof (Hpos x (or_introl eq_refl)) as Hx.
    destruct (keep x) eqn:E; simpl.
    + pose proof (Hle x (or_introl eq_refl) E) as Hfx.
      split.
      * intros Heq y [<-|Hy].
        -- split; [exact E|lia].
        -- apply IH; [lia|exact Hy].
      * intros Hall.
        destruct (Hall x (or_introl eq_refl)) as [_ Hfg].
        assert (list_sum (map f (filter keep l)) = list_sum (map g l))
          by (apply IH; intros y Hy; apply Hall; right; exact Hy).
        lia.
    + split; [lia|].
      intros Hall. destruct (Hall x (or_introl eq_refl)) as [Hk _]. congruence.
Qed.

Lemma filter_length_eq_iff {A : Type} (keep : A -> bool) (l : list A) :
  List.length (filter keep l) <= List.length l /\
  (List.length (filter keep l) = List.length l <-> forallb keep l = true).
Proof.
  induction l as [|x l [IHle IHeq]]; simpl; [split; [lia|tauto]|].
  destruct (keep x); simpl.
  - split; [lia|]. rewrite <- IHeq. lia.
  - split; [lia|]. split; [lia|discriminate].
Qed.

Lemma category_entries_parsed (category : value) :
  truthy category = true ->
  category_entries (parsed_category category) =
    1 + List.length (filter page_kept (elements (prop category "pages")))
    + list_sum (map (fun cat => category_entries (parsed_category cat))
                    (filter category_kept (elements (prop category "categories")))).
Proof.
  intros Hc. rewrite (parsed_category_eq _ Hc). cbn [category_entries].
  rewrite length_map, map_map. reflexivity.
Qed.

Lemma parsed_entries_n (n : nat) :
  forall category, vsize category < n -> category_kept category = true ->
    category_entries (parsed_category category) <= json_entries category /\
    (category_entries (parsed_category category) = json_entries category <->
     fully_kept category = true).
Proof.
  induction n as [|n IH]; intros category Hn Hk; [lia|].
  pose proof (category_kept_truthy _ Hk) as Hc.
  rewrite (category_entries_parsed _ Hc), json_entries_eq, fully_kept_eq, Hk.
  cbn [andb].
  destruct (filter_length_eq_iff page_kept (elements (prop category "pages")))
    as [Hple Hpeq].
  assert (Hsub : forall c, In c (elements (prop category "categories")) ->
                           vsize c < n).
  { intros c Hin. pose proof (prop_element_size _ _ _ Hin). lia. }
  assert (Hle : forall c, In c (elements (prop category "categories")) ->
                  category_kept c = true ->
                  category_entries (parsed_category c) <= json_entries c).
  { intros c Hin Hkc. apply IH; auto. }
  pose proof (filter_sum_le category_kept
                (fun c => category_entries (parsed_category c)) json_entries
                (elements (prop category "categories")) Hle) as Hsle.
  pose proof (filter_sum_eq_iff category_kept
                (fun c => category_entries (parsed_category c)) json_entries
                (elements (prop category "categories")) Hle
                (fun c _ => json_entries_pos c)) as Hseq.
  split; [lia|].
  rewrite andb_true_iff, <- Hpeq, forallb_forall.
  split.
  - intros Heq.
    assert (Hs : list_sum (map (fun c => category_entries (parsed_category c))
                    (filter category_kept (elements (prop category "categories"))))
                 = list_sum (map json_entries (elements (prop category "categories"))))
      by lia.
    split; [lia|]. intros c Hin.
    destruct (proj1 Hseq Hs c Hin) as [Hkc Hec].
    apply IH; auto.
  - intros [Hp Hall].
    assert (Hs : list_sum (map (fun c => category_entries (parsed_category c))
                    (filter category_kept (elements (prop category "categories"))))
                 = list_sum (map json_entries (elements (prop category "categories")))).
    { apply Hseq. intros c Hin. specialize (Hall c Hin).
      assert (Hkc : category_kept c = true).
      { rewrite fully_kept_eq in Hall. apply andb_true_iff in Hall as [Hall _].
        apply andb_true_iff in Hall as [Hall _]. exact Hall. }
      split; [exact Hkc|]. apply IH; auto. }
    lia.
Qed.

Lemma fully_kept_kept (category : value) :
  fully_kept category = true -> category_kept category = true.
Proof.
  rewrite fully_kept_eq. intros H. apply andb_true_iff in H as [H _].
  apply andb_true_iff in H as [H _]. exact H.
Qed.

Lemma parsed_config_entries (entries : list value) :
  list_sum (map category_entries (map parsed_category (filter category_kept entries)))
  <= list_sum (map json_entries entries) /\
  (list_sum (map category_entries (map parsed_category (filter category_kept entries)))
   = list_sum (map json_entries entries) <->
   forallb fully_kept entries = true).
Proof.
  rewrite map_map.
  assert (Hle : forall c, In c entries -> category_kept c = true ->
                  category_entries (parsed_category c) <= json_entries c).
  { intros c _ Hk. apply (parsed_entries_n (S (vsize c))); auto. }
  split; [apply filter_sum_le, Hle|].
  rewrite (filter_sum_eq_iff category_kept _ json_entries entries Hle
             (fun c _ => json_entries_pos c)), forallb_forall.
  split; intros H c Hin.
  - destruct (H c Hin) as [Hk He].
    apply (parsed_entries_n (S (vsize c))); auto.
  - specialize (H c Hin). pose proof (fully_kept_kept _ H) as Hk.
    split; [exact Hk|]. apply (parsed_entries_n (S (vsize c))); auto.
Qed.

(** ** What a valid configuration is *)

Lemma collect_nil_inv (g : value -> nat -> list string) (l : list value) (index : nat) :
  collect g l index = [] ->
  forall x, In x l -> exists i, g x i = [].
Proof.
  revert index. induction l as [|y l IH]; intros index H x Hin; simpl in *; [tauto|].
  apply app_eq_nil in H as [Hy Hl].
  destruct Hin as [<-|Hin]; [eauto|]. apply (IH _ Hl x Hin).
Qed.

Lemma renderable_eq (category : value) :
  renderable category =
    negb (nullish category) &&
    arrayish (prop category "pages") &&
    forallb (fun page => negb (nullish page)) (elements (prop category "pages")) &&
    (arrayish (prop category "categories") &&
     forallb renderable (elements (prop category "categories"))).
Proof.
  assert (E : forall cats,
    match cats with VArr elems _ => forallb renderable elems | _ => true end
    = forallb renderable (elements cats)) by (intros []; reflexivity).
  destruct category; cbn [renderable prop prop_k]; rewrite ?own_k_eq, ?E; reflexivity.
Qed.

Lemma page_errors_nil (page : value) (path : string) :
  page_errors page path = [] ->
  truthy page = true /\
  truthy (prop page "name") = true /\ is_string (prop page "name") = true /\
  truthy (prop page "url") = true /\ is_string (prop page "url") = true /\
  arrayish (prop page "blockTypes") = true.
Proof.
  rewrite page_errors_eq. destruct (truthy page); [|discriminate].
  intros H. apply app_eq_nil in H as [H1 H]. apply app_eq_nil in H as [H2 H3].
  unfold arrayish.
  destruct (truthy (prop page "name")), (is_string (prop page "name")); try discriminate.
  destruct (truthy (prop page "url")), (is_string (prop page "url")); try discriminate.
  destruct (truthy (prop page "blockTypes")), (isArray (prop page "blockTypes"));
    try discriminate; auto 10.
Qed.

Lemma page_errors_nil_kept (page : value) (path : string) :
  page_errors page path = [] ->
  page_kept page = true /\ page_well_typed page = true /\ nullish page = false.
Proof.
  intros H. destruct (page_errors_nil _ _ H) as (Hp & Hn & Hns & Hu & Hus & Hb).
  unfold page_kept, page_well_typed, has_usable_url, string_if_truthy.
  rewrite Hp, Hn, Hns, Hu, Hus, Hb. repeat split. apply truthy_not_nullish, Hp.
Qed.

Lemma pages_errors_nil (category : value) (path : string) :
  pages_errors category path = [] ->
  arrayish (prop category "pages") = true /\
  forall page, In page (elements (prop category "pages")) ->
    page_kept page = true /\ page_well_typed page = true /\ nullish page = false.
Proof.
  unfold pages_errors, arrayish. cbv zeta.
  destruct (truthy (prop category "pages")) eqn:Ht,
           (isArray (prop category "pages")) eqn:Ha; simpl; try discriminate.
  - intros H. split; [reflexivity|]. intros p Hin.
    destruct (collect_nil_inv _ _ _ H p Hin) as [i Hi].
    apply (page_errors_nil_kept _ _ Hi).
  - intros _. split; [reflexivity|]. rewrite (falsy_elements _ Ht). intros p [].
  - intros _. split; [reflexivity|]. rewrite (falsy_elements _ Ht). intros p [].
Qed.

(** A category without error is kept whole by [parse], migrates, has the
    types [validate] asks for, and can be rendered. *)
Lemma valid_category_n (n : nat) :
  forall category path, vsize category < n ->
    category_errors category path = [] ->
    truthy category = true /\
    fully_kept category = true /\
    category_migratable category = true /\
    category_well_typed category = true /\
    renderable category = true.
Proof.
  induction n as [|n IH]; intros category path Hn H; [lia|].
  rewrite category_errors_eq in H.
  destruct (truthy category) eqn:Hc; [|discriminate].
  apply app_eq_nil in H as [Hname H]. apply app_eq_nil in H as [Hpages Hsubs].
  assert (Hn' : truthy (prop category "name") = true /\
                is_string (prop category "name") = true).
  { unfold name_errors in Hname.
    destruct (truthy (prop category "name")), (is_string (prop category "name"));
      try discriminate; auto. }
  destruct Hn' as [Hnt Hns].
  destruct (pages_errors_nil _ _ Hpages) as [Hpa Hpall].
  assert (Hs : arrayish (prop category "categories") = true /\
               forall c, In c (elements (prop category "categories")) ->
                 truthy c = true /\ fully_kept c = true /\
                 category_migratable c = true /\ category_well_typed c = true /\
                 renderable c = true).
  { unfold subcategories_errors, arrayish in *. cbv zeta in Hsubs.
    destruct (truthy (prop category "categories")) eqn:Ht,
             (isArray (prop category "categories")) eqn:Ha; simpl in *; try discriminate.
    - split; [reflexivity|]. intros c Hin.
      destruct (collect_nil_inv _ _ _ Hsubs c Hin) as [i Hi].
      cbv beta in Hi. eapply IH; [|exact Hi].
      pose proof (prop_element_size _ _ _ Hin). lia.
    - split; [reflexivity|]. rewrite (falsy_elements _ Ht). intros c [].
    - split; [reflexivity|]. rewrite (falsy_elements _ Ht). intros c []. }
  destruct Hs as [Hsa Hsall].
  split; [reflexivity|].
  rewrite fully_kept_eq, category_migratable_eq, category_well_typed_eq, renderable_eq.
  unfold category_kept, string_if_truthy.
  rewrite Hc, Hnt, Hns, Hpa, Hsa, (truthy_not_nullish _ Hc). cbn [negb orb andb].
  assert (F1 : forallb page_kept (elements (prop category "pages")) = true)
    by (apply forallb_forall; intros p Hp; apply Hpall, Hp).
  assert (F2 : forallb page_well_typed (elements (prop category "pages")) = true)
    by (apply forallb_forall; intros p Hp; apply Hpall, Hp).
  assert (F3 : forallb (fun page => negb (nullish page))
                       (elements (prop category "pages")) = true).
  { apply forallb_forall. intros p Hp. destruct (Hpall p Hp) as (_ & _ & ->). reflexivity. }
  assert (F4 : forallb fully_kept (elements (prop category "categories")) = true)
    by (apply forallb_forall; intros c Hin; apply Hsall, Hin).
  assert (F5 : forallb category_migratable (elements (prop category "categories")) = true)
    by (apply forallb_forall; intros c Hin; apply Hsall, Hin).
  assert (F6 : forallb category_well_typed (elements (prop category "categories")) = true)
    by (apply forallb_forall; intros c Hin; apply Hsall, Hin).
  assert (F7 : forallb renderable (elements (prop category "categories")) = true)
    by (apply forallb_forall; intros c Hin; apply Hsall, Hin).
  rewrite F1, F2, F3, F4, F5, F6, F7. auto.
Qed.

Lemma valid_config_entries (json : value) (result : validation) :
  validate json = Ok result -> valid result = true ->
  truthy json = true /\
  isArray (prop json "categories") = true /\
  forall c, In c (elements (prop json "categories")) ->
    truthy c = true /\ fully_kept c = true /\ category_migratable c = true /\
    category_well_typed c = true /\ renderable c = true.
Proof.
  rewrite validate_eq. intros [= <-].
  destruct (truthy json); cbn [negb]; [|discriminate].
  destruct (truthy (prop json "categories")); cbn [negb]; [|discriminate].
  destruct (isArray (prop json "categories")); cbn [negb]; [|discriminate].
  cbv zeta. cbn [valid]. intros H. apply length_eqb_0 in H.
  split; [reflexivity|]. split; [reflexivity|]. intros c Hin.
  destruct (collect_nil_inv _ _ _ H c Hin) as [i Hi].
  cbv beta in Hi.
  eapply (valid_category_n (S (vsize c))); [apply Nat.lt_succ_diag_r|exact Hi].
Qed.

(** ** What migrate returns, as parse and the renderer see it *)

Lemma migrated_page_kept (page : value) :
  has_usable_url page = true -> page_kept (migrated_page page) = true.
Proof.
  intros Hu. unfold migrated_page. rewrite Hu.
  unfold has_usable_url in Hu. apply andb_true_iff in Hu as [_ Hurl].
  unfold page_kept. cbn [truthy prop app own own_k String.eqb Ascii.eqb Bool.eqb].
  rewrite (truthy_or_else _ _ (eq_refl : truthy (VStr "Unnamed Page") = true)), Hurl.
  reflexivity.
Qed.

Lemma migrated_category_props (category : value) (pages categories : list value) :
  prop (migrated_category_of category pages categories) "name"
  = or_else (prop category "name") (VStr "Unnamed Category") /\
  prop (migrated_category_of category pages categories) "pages"
  = VArr (filter truthy pages) [] /\
  prop (migrated_category_of category pages categories) "categories"
  = VArr (filter truthy categories) [] /\
  prop (migrated_category_of category pages categories) "collapsed"
  = (if is_defined (prop category "collapsed")
     then prop category "collapsed" else VUndefined).
Proof.
  repeat split. unfold migrated_category_of.
  destruct (is_defined (prop category "collapsed")); reflexivity.
Qed.

Lemma migrated_truthy_source (category migrated : value) :
  _migrateCategory category = Ok migrated -> truthy migrated = true ->
  truthy category = true.
Proof.
  intros Hm Ht. destruct (truthy category) eqn:Hc; [reflexivity|].
  rewrite (_migrateCategory_falsy _ Hc) in Hm. injection Hm as <-. discriminate.
Qed.

Lemma migrated_category_shape_n (n : nat) :
  forall category migrated, vsize category < n ->
    _migrateCategory category = Ok migrated -> truthy migrated = true ->
    fully_kept migrated = true /\ renderable migrated = true.
Proof.
  induction n as [|n IH]; intros category migrated Hn Hm Ht; [lia|].
  pose proof (migrated_truthy_source _ _ Hm Ht) as Hc.
  destruct (_migrateCategory_inv _ _ Hc Hm) as (cs & Hcs & _ & _ & ->).
  destruct (migrated_category_props category
              (map migrated_page (elements (prop category "pages"))) cs)
    as (En & Ep & Es & _).
  assert (Hsub : forall y, In y (filter truthy cs) ->
                   fully_kept y = true /\ renderable y = true).
  { intros y Hy. apply filter_In in Hy as [Hy Hty]. apply mapM_inv in Hcs.
    destruct (Forall2_In_r _ _ _ y Hcs Hy) as (x & Hx & Hxy).
    apply (IH x y); auto. pose proof (prop_element_size _ _ _ Hx). lia. }
  rewrite fully_kept_eq, renderable_eq. unfold category_kept.
  rewrite En, Ep, Es. cbn [elements arrayish isArray orb andb nullish negb truthy].
  change (truthy (migrated_category_of category
            (map migrated_page (elements (prop category "pages"))) cs)) with true.
  change (nullish (migrated_category_of category
            (map migrated_page (elements (prop category "pages"))) cs)) with false.
  rewrite (truthy_or_else _ _ (eq_refl : truthy (VStr "Unnamed Category") = true)).
  assert (F1 : forallb page_kept
                 (filter truthy (map migrated_page (elements (prop category "pages"))))
               = true).
  { apply forallb_forall. intros y Hy. apply filter_In in Hy as [Hy Hty].
    apply in_map_iff in Hy as (p & <- & _). rewrite migrated_page_truthy in Hty.
    apply migrated_page_kept, Hty. }
  assert (F2 : forallb (fun page => negb (nullish page))
                 (filter truthy (map migrated_page (elements (prop category "pages"))))
               = true).
  { apply forallb_forall. intros y Hy. apply filter_In in Hy as [_ Hty].
    rewrite (truthy_not_nullish _ Hty). reflexivity. }
  assert (F3 : forallb fully_kept (filter truthy cs) = true)
    by (apply forallb_forall; intros y Hy; apply Hsub, Hy).
  assert (F4 : forallb renderable (filter truthy cs) = true)
    by (apply forallb_forall; intros y Hy; apply Hsub, Hy).
  rewrite F1, F2, F3, F4. auto.
Qed.

Lemma migrate_categories (json migrated : value) :
  migrate json = Ok migrated ->
  truthy migrated = true /\
  exists categories,
    prop migrated "categories" = VArr categories [] /\
    forall y, In y categories -> truthy y = true ->
      fully_kept y = true /\ renderable y = true.
Proof.
  intros Hm. destruct (truthy json) eqn:Hj.
  2:{ rewrite (migrate_falsy _ Hj) in Hm. injection Hm as <-.
      split; [reflexivity|]. exists []. split; [reflexivity|]. intros y []. }
  destruct (migrate_inv _ _ Hj Hm) as (cs & Hcs & Hset).
  split.
  { destruct (JSON_clone json); simpl in Hset; try discriminate;
      injection Hset as <-; reflexivity. }
  exists cs. split; [apply (prop_set _ _ _ _ Hset)|].
  intros y Hy Hty. apply mapM_inv in Hcs.
  destruct (Forall2_In_r _ _ _ y Hcs Hy) as (x & Hx & Hxy).
  apply (migrated_category_shape_n (S (vsize x)) x y); auto.
Qed.

Lemma filter_kept_truthy (entries : list value) :
  filter category_kept entries = filter category_kept (filter truthy entries).
Proof.
  induction entries as [|x l IH]; simpl; [reflexivity|].
  destruct (truthy x) eqn:Hx; simpl.
  - rewrite IH. reflexivity.
  - unfold category_kept at 1. rewrite Hx. simpl. exact IH.
Qed.

(** X1: [parse] never builds more categories and pages than the JSON has
    entries, and builds exactly as many when, and only when, every category at
    every depth is truthy with a truthy [name] and every page is truthy with
    truthy [name] and [url]. *)
Theorem parse_keeps_all_iff_fully_kept (json : value) :
  exists config,
    parse json = Ok config /\
    config_entries config <= config_json_entries json /\
    (config_entries config = config_json_entries json <->
     forallb fully_kept (elements (prop json "categories")) = true).
Proof.
  rewrite parse_eq. eexists. split; [reflexivity|].
  unfold config_entries, config_json_entries.
  destruct (truthy json) eqn:Hj.
  - cbn [Config.new Config.categories]. apply parsed_config_entries.
  - rewrite (falsy_elements (prop json "categories"))
      by (destruct json; simpl in *; try reflexivity; discriminate).
    simpl. split; [lia|tauto].
Qed.

(** X2: a configuration [validate] accepts is parsed whole: [parse] builds
    one category per top-level entry, and as many categories and pages in all
    as the JSON has entries at every depth. *)
Theorem valid_config_parses_whole (json : value) (result : validation) :
  validate json = Ok result ->
  valid result = true ->
  exists config,
    parse json = Ok config /\
    List.length (Config.categories config)
    = List.length (elements (prop json "categories")) /\
    config_entries config = config_json_entries json.
Proof.
  intros Hv Hvalid.
  destruct (valid_config_entries _ _ Hv Hvalid) as (Hj & _ & Hall).
  assert (Hfk : forallb fully_kept (elements (prop json "categories")) = true)
    by (apply forallb_forall; intros c Hin; apply Hall, Hin).
  assert (Hk : forallb category_kept (elements (prop json "categories")) = true).
  { apply forallb_forall. intros c Hin. apply fully_kept_kept, Hall, Hin. }
  rewrite parse_eq, Hj. eexists. split; [reflexivity|].
  cbn [Config.new Config.categories]. split.
  - rewrite length_map, (filter_all _ _ Hk). reflexivity.
  - unfold config_entries, config_json_entries. cbn [Config.categories].
    apply parsed_config_entries, Hfk.
Qed.

Lemma valid_config_parses_whole_witness :
  exists result config,
    validate Examples.legacy_config = Ok result /\
    valid result = false /\
    validate (Examples.config
                [Examples.obj
                   [("name", VStr "NPCs");
                    ("pages", Examples.arr
                       [Examples.obj [("name", VStr "Gandalf");
                                      ("url", VStr "https://notion.so/gandalf")]]);
                    ("categories", Examples.arr [Examples.obj [("name", VStr "Allies")]])]])
    = Ok (mk_validation true []) /\
    parse (Examples.config
             [Examples.obj
                [("name", VStr "NPCs");
                 ("pages", Examples.arr
                    [Examples.obj [("name", VStr "Gandalf");
                                   ("url", VStr "https://notion.so/gandalf")]]);
                 ("categories", Examples.arr [Examples.obj [("name", VStr "Allies")]])]])
    = Ok config /\
    config_entries config = 3.
Proof.
  eexists.
  destruct (valid_config_parses_whole
              (Examples.config
                 [Examples.obj
                    [("name", VStr "NPCs");
                     ("pages", Examples.arr
                        [Examples.obj [("name", VStr "Gandalf");
                                       ("url", VStr "https://notion.so/gandalf")]]);
                     ("categories",
                      Examples.arr [Examples.obj [("name", VStr "Allies")]])]])
              (mk_validation true []) eq_refl eq_refl)
    as (config & Hp & _ & He).
  exists config.
  split; [reflexivity|]. split; [reflexivity|]. split; [reflexivity|].
  split; [exact Hp|]. exact He.
Defined.

(** X3: a JSON configuration [validate] accepts is one [migrate] returns
    on, and [validate] accepts what [migrate] returns, with no error. *)
Theorem valid_config_migrates_valid (json : value) (result : validation) :
  is_json json = true ->
  validate json = Ok result ->
  valid result = true ->
  exists migrated,
    migrate json = Ok migrated /\
    validate migrated = Ok (mk_validation true []).
Proof.
  intros Hjson Hv Hvalid.
  destruct (valid_config_entries _ _ Hv Hvalid) as (Hj & Ha & Hall).
  assert (Hh : holds_properties json = true).
  { destruct json; simpl in *; try discriminate; reflexivity. }
  assert (Hm : json_migratable json = true).
  { unfold json_migratable, json_arrayish. rewrite Hj, Hh, Ha. cbn [negb orb andb].
    rewrite orb_true_r. apply forallb_forall. intros c Hin.
    apply (category_migratable_json_n (S (vsize c))); [lia|]. apply Hall, Hin. }
  assert (Hw : json_config_well_typed json = true).
  { unfold json_config_well_typed. apply forallb_forall. intros c Hin.
    destruct (Hall c Hin) as (_ & Hk & _ & -> & _).
    rewrite (category_kept_json_truthy _ (fully_kept_kept _ Hk)). reflexivity. }
  destruct (proj2 (json_migratable_returns json Hjson) Hm) as [migrated Hmig].
  exists migrated. split; [exact Hmig|].
  apply (json_migrated_config_valid json); assumption.
Qed.

Lemma valid_config_migrates_valid_witness :
  exists migrated,
    is_json (Examples.config
               [Examples.obj [("name", VStr "NPCs");
                              ("pages", Examples.arr
                                 [Examples.obj [("name", VStr "Gandalf");
                                                ("url", VStr "https://notion.so/gandalf");
                                                ("weight", VNonFinite Infinity)]])]])
    = true /\
    validate (Examples.config
                [Examples.obj [("name", VStr "NPCs");
                               ("pages", Examples.arr
                                  [Examples.obj [("name", VStr "Gandalf");
                                                 ("url", VStr "https://notion.so/gandalf");
                                                 ("weight", VNonFinite Infinity)]])]])
    = Ok (mk_validation true []) /\
    migrate (Examples.config
               [Examples.obj [("name", VStr "NPCs");
                              ("pages", Examples.arr
                                 [Examples.obj [("name", VStr "Gandalf");
                                                ("url", VStr "https://notion.so/gandalf");
                                                ("weight", VNonFinite Infinity)]])]])
    = Ok migrated /\
    validate migrated = Ok (mk_validation true []).
Proof.
  destruct (valid_config_migrates_valid
              (Examples.config
                 [Examples.obj [("name", VStr "NPCs");
                                ("pages", Examples.arr
                                   [Examples.obj [("name", VStr "Gandalf");
                                                  ("url", VStr "https://notion.so/gandalf");
                                                  ("weight", VNonFinite Infinity)]])]])
              (mk_validation true []) eq_refl eq_refl eq_refl)
    as (migrated & Hm & Hv).
  exists migrated. split; [reflexivity|]. split; [reflexivity|].
  split; [exact Hm|exact Hv].
Defined.

(** X4: whatever [migrate] returns, [parse] keeps whole, the [null]
    entries of its top-level [categories] apart: it builds one category per
    truthy top-level entry, and as many categories and pages in all as those
    entries have at every depth. *)
Theorem migrated_config_parses_whole (json migrated : value) :
  migrate json = Ok migrated ->
  exists config,
    parse migrated = Ok config /\
    let kept := filter truthy (elements (prop migrated "categories")) in
    List.length (Config.categories config) = List.length kept /\
    config_entries config = list_sum (map json_entries kept).
Proof.
  intros Hm. destruct (migrate_categories _ _ Hm) as (Ht & cs & Hp & Hall).
  rewrite parse_eq, Ht, Hp. eexists. split; [reflexivity|].
  cbv zeta. cbn [Config.new Config.categories elements].
  unfold config_entries. cbn [Config.categories].
  rewrite filter_kept_truthy.
  assert (Hfk : forallb fully_kept (filter truthy cs) = true).
  { apply forallb_forall. intros y Hy. apply filter_In in Hy as [Hy Hty].
    apply (Hall y Hy Hty). }
  assert (Hk : forallb category_kept (filter truthy cs) = true).
  { apply forallb_forall. intros y Hy. apply fully_kept_kept.
    rewrite forallb_forall in Hfk. apply Hfk, Hy. }
  split.
  - rewrite length_map, (filter_all _ _ Hk). reflexivity.
  - apply parsed_config_entries, Hfk.
Qed.

Lemma migrated_config_parses_whole_witness :
  exists migrated config,
    migrate Examples.legacy_config = Ok migrated /\
    parse migrated = Ok config /\
    List.length (Config.categories config) = 1 /\
    config_entries config = 4.
Proof.
  eexists.
  destruct (migrated_config_parses_whole Examples.legacy_config _ eq_refl)
    as (config & Hp & Hl & He).
  exists config. split; [reflexivity|]. split; [exact Hp|]. split; [exact Hl|exact He].
Defined.

(** ** Migrating a configuration that is already in the current format *)











(** ** Where the errors of validate point *)

(** X6: every error [validate] returns for a configuration whose
    [categories] is an array starts with [categories[i]] for the index [i] of
    an entry the array has. *)
Theorem validate_errors_point_into_categories (json : value) (result : validation)
        (msg : string) :
  truthy json = true ->
  isArray (prop json "categories") = true ->
  validate json = Ok result ->
  In msg (errors result) ->
  exists index,
    index < List.length (elements (prop json "categories")) /\
    starts_with ("categories[" ++ index_to_string index ++ "]") msg.
Proof.
  intros Hj Ha. rewrite (validate_array _ Hj Ha). cbv zeta. intros [= <-]. cbn [errors].
  rewrite in_collect. intros (i & c & Hi & Hin). simpl in Hin.
  exists i. split; [apply nth_error_Some; congruence|].
  apply category_errors_violation, category_violation_path in Hin. exact Hin.
Qed.

Lemma validate_errors_point_into_categories_witness :
  exists result msg index,
    truthy Examples.invalid_config = true /\
    isArray (prop Examples.invalid_config "categories") = true /\
    validate Examples.invalid_config = Ok result /\
    msg = "categories[1].pages: debe ser un array" /\
    In msg (errors result) /\
    index < 2 /\
    starts_with ("categories[" ++ index_to_string index ++ "]") msg.
Proof.
  eexists. exists "categories[1].pages: debe ser un array".
  destruct (validate_errors_point_into_categories Examples.invalid_config _
              "categories[1].pages: debe ser un array" eq_refl eq_refl eq_refl)
    as (index & Hlt & Hs).
  { right. right. left. reflexivity. }
  exists index. split; [reflexivity|]. split; [reflexivity|]. split; [reflexivity|].
  split; [reflexivity|]. split; [right; right; left; reflexivity|].
  split; [exact Hlt|exact Hs].
Defined.

(** ** What migrate leaves of the top level *)





(* ================================================================== *)
(** * Further properties: what a player can see *)
(* ================================================================== *)

Import UIRenderer.

Lemma hasVisibleContentForPlayers_nullish (category : value) :
  nullish category = true -> hasVisibleContentForPlayers category = Throw TypeError.
Proof. destruct category; simpl; try discriminate; reflexivity. Qed.

Lemma hasVisibleContentForPlayers_eq (category : value) :
  nullish category = false ->
  hasVisibleContentForPlayers category =
    (direct <- (if truthy (prop category "pages")
                then array_some (prop category "pages") page_visible
                else Ok false) ;;
     if direct then Ok true
     else if truthy (prop category "categories")
     then array_some (prop category "categories") hasVisibleContentForPlayers
     else Ok false).
Proof.
  intros H.
  destruct category; simpl in H; try discriminate;
    cbn [hasVisibleContentForPlayers get get_k prop]; unfold_reads;
    reflexivity.
Qed.

Lemma someM_true {A : Type} (pred : A -> result bool) (l : list A) :
  someM pred l = Ok true -> exists x, In x l /\ pred x = Ok true.
Proof.
  induction l as [|x l IH]; simpl; [discriminate|].
  destruct (pred x) as [[|]|] eqn:E; simpl; try discriminate.
  - intros _. eauto.
  - intros H. destruct (IH H) as (y & Hy & Hp). eauto.
Qed.

Lemma someM_false {A : Type} (pred : A -> result bool) (l : list A) :
  someM pred l = Ok false -> forall x, In x l -> pred x = Ok false.
Proof.
  induction l as [|x l IH]; simpl; [intros _ y []|].
  destruct (pred x) as [[|]|] eqn:E; simpl; try discriminate.
  intros H y [<-|Hy]; [exact E|apply IH; assumption].
Qed.

Lemma someM_total {A : Type} (pred : A -> result bool) (l : list A) :
  (forall x, In x l -> exists b, pred x = Ok b) -> exists b, someM pred l = Ok b.
Proof.
  induction l as [|x l IH]; intros H; simpl; [eauto|].
  destruct (H x (or_introl eq_refl)) as [[|] ->]; simpl; [eauto|].
  apply IH. intros y Hy. apply H. right. exact Hy.
Qed.

Lemma array_some_inv (v : value) (pred : value -> result bool) (b : bool) :
  array_some v pred = Ok b -> someM pred (elements v) = Ok b.
Proof. destruct v; simpl; try discriminate; auto. Qed.

Lemma page_visible_true (page : value) :
  page_visible page = Ok true -> prop page "visibleToPlayers" = VBool true.
Proof.
  unfold page_visible. rewrite get_prop.
  destruct (nullish page); [discriminate|]. simpl.
  destruct (prop page "visibleToPlayers") as [| |[|]| | | | |]; simpl; try discriminate.
  reflexivity.
Qed.

Lemma page_visible_false (page : value) :
  page_visible page = Ok false -> prop page "visibleToPlayers" <> VBool true.
Proof.
  unfold page_visible. rewrite get_prop.
  destruct (nullish page); [discriminate|]. simpl.
  intros H E. rewrite E in H. discriminate.
Qed.

Lemma hasVisibleContentForPlayers_sound_n (n : nat) :
  forall category b, vsize category < n ->
    hasVisibleContentForPlayers category = Ok b ->
    (b = true <-> has_visible_page category).
Proof.
  induction n as [|n IH]; intros category b Hn Hb; [lia|].
  destruct (nullish category) eqn:Hnull.
  { rewrite (hasVisibleContentForPlayers_nullish _ Hnull) in Hb. discriminate. }
  rewrite (hasVisibleContentForPlayers_eq _ Hnull) in Hb.
  assert (Hdirect : exists d,
    someM page_visible (elements (prop category "pages")) = Ok d /\
    (if d then Ok true
     else if truthy (prop category "categories")
     then array_some (prop category "categories") hasVisibleContentForPlayers
     else Ok false) = Ok b).
  { destruct (truthy (prop category "pages")) eqn:Ht.
    - destruct (array_some (prop category "pages") page_visible) as [d|] eqn:Ed;
        [|discriminate].
      exists d. split; [apply array_some_inv, Ed|exact Hb].
    - exists false. rewrite (falsy_elements _ Ht). split; [reflexivity|exact Hb]. }
  destruct Hdirect as ([|] & Hd & Hrest).
  - injection Hrest as <-. split; [intros _|reflexivity].
    destruct (someM_true _ _ Hd) as (p & Hp & Hv).
    apply (hvp_page category p Hp), page_visible_true, Hv.
  - assert (Hnopage : forall p, In p (elements (prop category "pages")) ->
                                prop p "visibleToPlayers" <> VBool true).
    { intros p Hp. apply page_visible_false, (someM_false _ _ Hd p Hp). }
    assert (Hsubs : someM hasVisibleContentForPlayers
                      (elements (prop category "categories")) = Ok b).
    { destruct (truthy (prop category "categories")) eqn:Ht.
      - apply array_some_inv, Hrest.
      - rewrite (falsy_elements _ Ht). exact Hrest. }
    assert (Hsize : forall s, In s (elements (prop category "categories")) ->
                              vsize s < n).
    { intros s Hs. pose proof (prop_element_size _ _ _ Hs). lia. }
    destruct b.
    + split; [intros _|reflexivity].
      destruct (someM_true _ _ Hsubs) as (s & Hs & Hv).
      apply (hvp_subcategory category s Hs).
      apply (IH s true (Hsize s Hs) Hv). reflexivity.
    + split; [discriminate|]. intros Hv. exfalso.
      destruct Hv as [c p Hp Hv|c s Hs Hv].
      * apply (Hnopage p Hp Hv).
      * pose proof (someM_false _ _ Hsubs s Hs) as Hf.
        apply (IH s false (Hsize s Hs) Hf) in Hv. discriminate.
Qed.

Lemma hasVisibleContentForPlayers_total_n (n : nat) :
  forall category, vsize category < n -> renderable category = true ->
    exists b, hasVisibleContentForPlayers category = Ok b.
Proof.
  induction n as [|n IH]; intros category Hn Hr; [lia|].
  rewrite renderable_eq in Hr.
  apply andb_true_iff in Hr as [Hr Hsubs]. apply andb_true_iff in Hsubs as [Hsa Hsubs].
  apply andb_true_iff in Hr as [Hr Hpages]. apply andb_true_iff in Hr as [Hnull Hpa].
  apply negb_true_iff in Hnull.
  rewrite (hasVisibleContentForPlayers_eq _ Hnull).
  assert (Hd : exists d,
    (if truthy (prop category "pages")
     then array_some (prop category "pages") page_visible else Ok false) = Ok d).
  { unfold arrayish in Hpa. destruct (truthy (prop category "pages")); [|eauto].
    simpl in Hpa. destruct (prop category "pages"); try discriminate.
    cbn [array_some]. apply someM_total. intros p Hp.
    rewrite forallb_forall in Hpages. specialize (Hpages p Hp).
    apply negb_true_iff in Hpages. unfold page_visible.
    rewrite get_prop, Hpages. simpl. eauto. }
  destruct Hd as [d ->]. cbn [bind]. destruct d; [eauto|].
  unfold arrayish in Hsa. destruct (truthy (prop category "categories")); [|eauto].
  simpl in Hsa.
  assert (Hsize : forall s, In s (elements (prop category "categories")) -> vsize s < n).
  { intros s Hs. pose proof (prop_element_size _ _ _ Hs). lia. }
  destruct (prop category "categories"); try discriminate.
  cbn [array_some]. apply someM_total. intros s Hs.
  apply IH; [apply Hsize, Hs|]. rewrite forallb_forall in Hsubs. apply Hsubs, Hs.
Qed.

(** X8: whenever [hasVisibleContentForPlayers] returns, it returns [true]
    exactly when some page of the category, or of a subcategory at any depth,
    has [visibleToPlayers] equal to [true] (a truthy value other than [true]
    does not count); and it returns, without throwing, on every category that
    is not [null], whose [pages] and [categories] at every depth are arrays or
    falsy, with no [null] page and no [null] subcategory. *)
Theorem hasVisibleContentForPlayers_finds_visible_pages (category : value) :
  (forall b, hasVisibleContentForPlayers category = Ok b ->
             (b = true <-> has_visible_page category)) /\
  (renderable category = true ->
   exists b, hasVisibleContentForPlayers category = Ok b).
Proof.
  split.
  - intros b. apply (hasVisibleContentForPlayers_sound_n (S (vsize category))). lia.
  - apply (hasVisibleContentForPlayers_total_n (S (vsize category))). lia.
Qed.

Lemma hasVisibleContentForPlayers_finds_visible_pages_witness :
  let hidden := Examples.obj [("name", VStr "Secret"); ("url", VStr "https://a");
                              ("visibleToPlayers", VNum 1)] in
  let shown := Examples.obj [("name", VStr "Map"); ("url", VStr "https://b");
                             ("visibleToPlayers", VBool true)] in
  let nested := Examples.obj
                  [("name", VStr "World"); ("pages", Examples.arr [hidden]);
                   ("categories",
                    Examples.arr [Examples.obj [("name", VStr "Maps");
                                                ("pages", Examples.arr [shown])]])] in
  let all_hidden := Examples.obj
                      [("name", VStr "World"); ("pages", Examples.arr [hidden]);
                       ("categories",
                        Examples.arr [Examples.obj [("name", VStr "Maps");
                                                    ("pages", Examples.arr [hidden])]])] in
  renderable nested = true /\
  hasVisibleContentForPlayers nested = Ok true /\
  has_visible_page nested /\
  hasVisibleContentForPlayers all_hidden = Ok false /\
  ~ has_visible_page all_hidden.
Proof.
  cbv zeta.
  split; [reflexivity|]. split; [reflexivity|].
  split.
  - apply (hasVisibleContentForPlayers_finds_visible_pages
             (Examples.obj
                [("name", VStr "World");
                 ("pages", Examples.arr
                    [Examples.obj [("name", VStr "Secret"); ("url", VStr "https://a");
                                   ("visibleToPlayers", VNum 1)]]);
                 ("categories",
                  Examples.arr
                    [Examples.obj
                       [("name", VStr "Maps");
                        ("pages", Examples.arr
                           [Examples.obj [("name", VStr "Map"); ("url", VStr "https://b");
                                          ("visibleToPlayers", VBool true)]])]])]) )
      with (b := true); reflexivity.
  - split; [reflexivity|]. intros H.
    assert (E : false = true); [|discriminate E].
    apply (hasVisibleContentForPlayers_finds_visible_pages
             (Examples.obj
                [("name", VStr "World");
                 ("pages", Examples.arr
                    [Examples.obj [("name", VStr "Secret"); ("url", VStr "https://a");
                                   ("visibleToPlayers", VNum 1)]]);
                 ("categories",
                  Examples.arr
                    [Examples.obj
                       [("name", VStr "Maps");
                        ("pages", Examples.arr
                           [Examples.obj [("name", VStr "Secret"); ("url", VStr "https://a");
                                          ("visibleToPlayers", VNum 1)]])]])]) )
      with (b := false); [reflexivity|exact H].
Defined.

(** X9: on every category [migrate] returns that is not [null], at the
    top level of its output, [hasVisibleContentForPlayers] returns without
    throwing; on a [null] entry, which [migrate] leaves in the top-level
    [categories], it throws a TypeError. *)
Theorem hasVisibleContentForPlayers_on_migrated (json migrated category : value) :
  migrate json = Ok migrated ->
  In category (elements (prop migrated "categories")) ->
  if truthy category
  then exists b, hasVisibleContentForPlayers category = Ok b
  else category = VNull /\ hasVisibleContentForPlayers category = Throw TypeError.
Proof.
  intros Hm Hin.
  destruct (truthy category) eqn:Ht.
  - destruct (migrate_categories _ _ Hm) as (_ & cs & Hp & Hall).
    rewrite Hp in Hin. cbn [elements] in Hin.
    apply (hasVisibleContentForPlayers_total_n (S (vsize category))); [lia|].
    apply (Hall category Hin Ht).
  - assert (E : category = VNull); [|subst; split; reflexivity].
    destruct (truthy json) eqn:Hj.
    + destruct (migrate_inv _ _ Hj Hm) as (cs & Hcs & Hset).
      rewrite (prop_set _ _ _ _ Hset) in Hin. cbn [elements] in Hin.
      apply mapM_inv in Hcs.
      destruct (Forall2_In_r _ _ _ category Hcs Hin) as (x & _ & Hx).
      destruct (truthy x) eqn:Hx'.
      * destruct (_migrateCategory_inv _ _ Hx' Hx) as (? & _ & _ & _ & ->).
        discriminate.
      * rewrite (_migrateCategory_falsy _ Hx') in Hx. congruence.
    + rewrite (migrate_falsy _ Hj) in Hm. injection Hm as <-. destruct Hin.
Qed.

Lemma hasVisibleContentForPlayers_on_migrated_witness :
  exists migrated kept,
    migrate (Examples.config [VNull; Examples.obj [("pages", VNull)]]) = Ok migrated /\
    elements (prop migrated "categories") = [VNull; kept] /\
    truthy kept = true /\
    (exists b, hasVisibleContentForPlayers kept = Ok b) /\
    hasVisibleContentForPlayers VNull = Throw TypeError.
Proof.
  eexists. eexists. split; [reflexivity|]. split; [reflexivity|]. split; [reflexivity|].
  split.
  - apply (hasVisibleContentForPlayers_on_migrated
             (Examples.config [VNull; Examples.obj [("pages", VNull)]]) _ _ eq_refl
             (or_intror (or_introl eq_refl))).
  - apply (hasVisibleContentForPlayers_on_migrated
             (Examples.config [VNull; Examples.obj [("pages", VNull)]]) _ VNull eq_refl
             (or_introl eq_refl)).
Defined.

Import UIRenderer.
(* ================================================================== *)
(** * Further properties: pages written and read back *)
(* ================================================================== *)

Lemma _parsePage_non_nullish (json : value) :
  _parsePage json = if nullish json then Throw TypeError else Ok (parsed_page json).
Proof.
  unfold _parsePage, parsed_page. rewrite !get_prop.
  destruct (nullish json); [reflexivity|]. cbn [bind].
  unfold Page.new, get. simpl. rewrite !or_else_idem. reflexivity.
Qed.

Lemma fromJSON_non_nullish (json : value) :
  Page.fromJSON json = if nullish json then Throw TypeError else Ok (parsed_page json).
Proof.
  unfold Page.fromJSON, parsed_page. rewrite !get_prop.
  destruct (nullish json); [reflexivity|]. cbn [bind].
  unfold Page.new, get. simpl. reflexivity.
Qed.

(** X10: [Page.fromJSON] and the parser's [_parsePage] build the same page
    from every value, and both throw a TypeError on [null] and
    [undefined]. *)
Theorem fromJSON_is_parsePage (json : value) :
  Page.fromJSON json = _parsePage json /\
  (nullish json = true -> Page.fromJSON json = Throw TypeError).
Proof.
  rewrite _parsePage_non_nullish, fromJSON_non_nullish.
  split; [reflexivity|]. intros ->. reflexivity.
Qed.

Lemma fromJSON_is_parsePage_witness :
  nullish VNull = true /\ Page.fromJSON VNull = Throw TypeError.
Proof.
  split; [reflexivity|].
  apply (fromJSON_is_parsePage VNull). reflexivity.
Defined.

Section PageRoundTrip.

Variable gt : value -> bool.

Lemma length_gt_zero_truthy (v : value) :
  truthy v = true ->
  Page.length_gt_zero gt v = Ok (unwrap false (Page.length_gt_zero gt v)).
Proof. destruct v; simpl; try discriminate; reflexivity. Qed.

Lemma toJSON_serialised (page : Page.t) :
  Page.toJSON gt page = Ok (serialised gt page).
Proof.
  unfold Page.toJSON, serialised, block_types_kept, spread_if.
  destruct (truthy (Page.visibleToPlayers page)); cbn [set assign String.eqb Ascii.eqb Bool.eqb bind];
  (destruct (truthy (Page.blockTypes page)) eqn:Hb;
   [rewrite (length_gt_zero_truthy _ Hb);
    destruct (unwrap false (Page.length_gt_zero gt (Page.blockTypes page)))|]);
  cbn [set assign String.eqb Ascii.eqb Bool.eqb bind andb];
  destruct (truthy (Page.icon page));
  cbn [set assign String.eqb Ascii.eqb Bool.eqb bind];
  destruct (truthy (Page.linkedTokenId page)); reflexivity.
Qed.

Lemma parsed_serialised (page : Page.t) :
  parsed_page (serialised gt page) = reloaded gt page.
Proof.
  unfold parsed_page, serialised, reloaded, spread_if.
  assert (Hk : block_types_kept gt page = true -> truthy (Page.blockTypes page) = true).
  { unfold block_types_kept. intros H. apply andb_true_iff in H as [H _]. exact H. }
  destruct (truthy (Page.visibleToPlayers page)) eqn:Hv,
           (block_types_kept gt page) eqn:Hb,
           (truthy (Page.icon page)) eqn:Hi,
           (truthy (Page.linkedTokenId page)) eqn:Hl;
    cbn [prop app own own_k String.eqb Ascii.eqb Bool.eqb];
    unfold or_else; cbn [truthy]; rewrite ?Hi, ?Hl, ?(Hk eq_refl); reflexivity.
Qed.

Lemma fromJSON_serialised (page : Page.t) :
  Page.fromJSON (serialised gt page) = Ok (reloaded gt page).
Proof. rewrite fromJSON_non_nullish, <- parsed_serialised. reflexivity. Qed.

Lemma serialised_reloaded (page : Page.t) :
  serialised gt (reloaded gt page) = serialised gt page.
Proof.
  unfold serialised, reloaded, spread_if, block_types_kept. cbn [Page.name Page.url
    Page.visibleToPlayers Page.blockTypes Page.icon Page.linkedTokenId truthy].
  destruct (truthy (Page.visibleToPlayers page)) eqn:Hv,
           (truthy (Page.blockTypes page)) eqn:Hb,
           (unwrap false (Page.length_gt_zero gt (Page.blockTypes page))) eqn:Hg,
           (truthy (Page.icon page)) eqn:Hi,
           (truthy (Page.linkedTokenId page)) eqn:Hl;
    unfold or_else; cbn [andb truthy]; rewrite ?Hi, ?Hl, ?Hb, ?Hg; cbn [andb truthy];
    rewrite ?Hi, ?Hl; reflexivity.
Qed.

End PageRoundTrip.

(** X11: [toJSON] returns on every page; what it writes reads back, with
    [Page.fromJSON] as with the parser's [_parsePage], as a page that
    [toJSON] writes as the same JSON again. *)
Theorem toJSON_reload_is_stable (gt : value -> bool) (page : Page.t) :
  exists json page',
    Page.toJSON gt page = Ok json /\
    Page.fromJSON json = Ok page' /\
    _parsePage json = Ok page' /\
    Page.toJSON gt page' = Ok json.
Proof.
  exists (serialised gt page), (reloaded gt page).
  split; [apply toJSON_serialised|].
  split; [apply fromJSON_serialised|].
  split; [rewrite _parsePage_non_nullish, <- parsed_serialised; reflexivity|].
  rewrite toJSON_serialised, serialised_reloaded. reflexivity.
Qed.

(** X12: a page the parser built, written with [toJSON] and parsed again,
    comes back as the same page exactly when its [visibleToPlayers], if
    truthy, is [true], and its [blockTypes], if truthy, has a [length] greater
    than zero: a truthy [visibleToPlayers] other than [true] comes back as
    [true], and an empty [blockTypes] array comes back as [null]. *)
Theorem parsed_page_survives_save_iff (gt : value -> bool) (json : value) (page : Page.t) :
  _parsePage json = Ok page ->
  exists written,
    Page.toJSON gt page = Ok written /\
    (_parsePage written = Ok page <->
     (truthy (Page.visibleToPlayers page) = true ->
      Page.visibleToPlayers page = VBool true) /\
     (truthy (Page.blockTypes page) = true ->
      Page.length_gt_zero gt (Page.blockTypes page) = Ok true)).
Proof.
  rewrite _parsePage_non_nullish. destruct (nullish json); [discriminate|].
  intros [= <-]. exists (serialised gt (parsed_page json)).
  split; [apply toJSON_serialised|].
  rewrite _parsePage_non_nullish, parsed_serialised. cbn [nullish serialised].
  unfold reloaded, block_types_kept, parsed_page.
  cbn [Page.name Page.url Page.visibleToPlayers Page.blockTypes Page.icon Page.linkedTokenId].
  rewrite !or_else_idem.
  set (v := or_else (prop json "visibleToPlayers") (VBool false)).
  set (b := or_else (prop json "blockTypes") VNull).
  assert (Hv : truthy v = false -> v = VBool false).
  { unfold v, or_else. destruct (truthy (prop json "visibleToPlayers")) eqn:E;
      [congruence|reflexivity]. }
  assert (Hb : truthy b = false -> b = VNull).
  { unfold b, or_else. destruct (truthy (prop json "blockTypes")) eqn:E;
      [congruence|reflexivity]. }
  clearbody v b.
  split.
  - intros [= E1 E2]. split.
    + intros Ht. rewrite Ht in E1. symmetry. exact E1.
    + intros Ht. rewrite Ht in E2. rewrite (length_gt_zero_truthy gt _ Ht).
      destruct (unwrap false (Page.length_gt_zero gt b)); [reflexivity|].
      simpl in E2. rewrite <- E2 in Ht. discriminate.
  - intros [C1 C2]. f_equal. f_equal.
    + destruct (truthy v) eqn:Ht; [symmetry; apply C1; reflexivity|].
      symmetry. apply Hv. reflexivity.
    + destruct (truthy b) eqn:Ht.
      * rewrite (C2 eq_refl). reflexivity.
      * simpl. symmetry. apply Hb. reflexivity.
Qed.

Lemma parsed_page_survives_save_iff_witness :
  (exists page,
      _parsePage (Examples.obj [("name", VStr "Map"); ("url", VStr "https://b");
                                ("visibleToPlayers", VBool true);
                                ("blockTypes", Examples.arr [VStr "quote"])]) = Ok page /\
      exists written,
        Page.toJSON (fun _ => false) page = Ok written /\
        _parsePage written = Ok page) /\
  (exists page,
      _parsePage (Examples.obj [("name", VStr "Map"); ("url", VStr "https://b");
                                ("blockTypes", Examples.arr [])]) = Ok page /\
      Page.blockTypes page = Examples.arr [] /\
      exists written,
        Page.toJSON (fun _ => false) page = Ok written /\
        _parsePage written <> Ok page).
Proof.
  split.
  - eexists. split; [reflexivity|].
    destruct (parsed_page_survives_save_iff (fun _ => false)
                (Examples.obj [("name", VStr "Map"); ("url", VStr "https://b");
                               ("visibleToPlayers", VBool true);
                               ("blockTypes", Examples.arr [VStr "quote"])]) _ eq_refl)
      as (written & Hw & Hiff).
    exists written. split; [exact Hw|]. apply Hiff. split; reflexivity.
  - eexists. split; [reflexivity|]. split; [reflexivity|].
    destruct (parsed_page_survives_save_iff (fun _ => false)
                (Examples.obj [("name", VStr "Map"); ("url", VStr "https://b");
                               ("blockTypes", Examples.arr [])]) _ eq_refl)
      as (written & Hw & Hiff).
    exists written. split; [exact Hw|].
    intros H. apply Hiff in H. destruct H as [_ H].
    specialize (H eq_refl). discriminate H.
Defined.

(* ================================================================== *)
(** * Further properties: the debug-mode function *)
(* ================================================================== *)

Lemma is_string_eq_iff (x : option string) (s : string) :
  DebugMode.is_string_eq x s = true <-> x = Some s.
Proof.
  destruct x as [x|]; simpl; [|split; discriminate].
  rewrite String.eqb_eq. split; congruence.
Qed.

(** X13: the debug-mode function answers [debug: true] exactly to a GET
    request, when the variable [DEBUG_MODE] is ['true'] or ['1'], and, if the
    variable [OWNER_TOKEN] is set and not empty, only when the request's
    [token] parameter is that token; it answers 405 exactly to the methods
    other than OPTIONS and GET, and 200 to those two. *)
Theorem debug_mode_only_for_owner (e : DebugMode.event) (v : DebugMode.env) :
  (DebugMode.body (DebugMode.handler e v) = DebugMode.stringify_debug true <->
   DebugMode.httpMethod e = "GET" /\
   (DebugMode.DEBUG_MODE v = Some "true" \/ DebugMode.DEBUG_MODE v = Some "1") /\
   (DebugMode.set_and_not_empty (DebugMode.OWNER_TOKEN v) = true ->
    DebugMode.userToken e = DebugMode.OWNER_TOKEN v)) /\
  (DebugMode.statusCode (DebugMode.handler e v) = 405 <->
   DebugMode.httpMethod e <> "OPTIONS" /\ DebugMode.httpMethod e <> "GET") /\
  (DebugMode.statusCode (DebugMode.handler e v) = 200 <->
   DebugMode.httpMethod e = "OPTIONS" \/ DebugMode.httpMethod e = "GET").
Proof.
  unfold DebugMode.handler.
  destruct (String.eqb (DebugMode.httpMethod e) "OPTIONS") eqn:Eo.
  { apply String.eqb_eq in Eo. cbn [DebugMode.body DebugMode.statusCode].
    split; [|split].
    - split; [discriminate|]. intros (Hg & _). rewrite Eo in Hg. discriminate.
    - split; [discriminate|]. intros [H _]. congruence.
    - split; auto. }
  apply String.eqb_neq in Eo.
  destruct (String.eqb (DebugMode.httpMethod e) "GET") eqn:Eg; cbn [negb].
  2:{ apply String.eqb_neq in Eg. cbn [DebugMode.body DebugMode.statusCode].
      split; [|split].
      - split; [discriminate|]. intros (Hg & _). congruence.
      - split; auto.
      - split; [discriminate|]. intros [H|H]; congruence. }
  apply String.eqb_eq in Eg. cbn [DebugMode.body DebugMode.statusCode].
  split; [|split].
  2:{ split; [discriminate|]. intros [_ H]. congruence. }
  2:{ split; auto. }
  assert (Hd : DebugMode.debug_mode e v = true <->
    (DebugMode.DEBUG_MODE v = Some "true" \/ DebugMode.DEBUG_MODE v = Some "1") /\
    (DebugMode.set_and_not_empty (DebugMode.OWNER_TOKEN v) = true ->
     DebugMode.userToken e = DebugMode.OWNER_TOKEN v)).
  { unfold DebugMode.debug_mode. cbv zeta.
    destruct (DebugMode.set_and_not_empty (DebugMode.OWNER_TOKEN v)) eqn:Ho.
    - rewrite andb_true_iff, orb_true_iff, !is_string_eq_iff.
      destruct (DebugMode.OWNER_TOKEN v) as [o|]; [|discriminate].
      destruct (DebugMode.userToken e) as [t|].
      + rewrite String.eqb_eq. split.
        * intros [H ->]. auto.
        * intros [H Ht]. split; [exact H|]. specialize (Ht eq_refl). congruence.
      + split; [intros [_ H]; discriminate|].
        intros [_ Ht]. specialize (Ht eq_refl). discriminate.
    - rewrite orb_true_iff, !is_string_eq_iff. split; [|tauto].
      intros H. split; [exact H|discriminate]. }
  rewrite <- Hd.
  destruct (DebugMode.debug_mode e v); split; auto; try discriminate.
  intros (_ & H). discriminate.
Qed.

Lemma debug_mode_only_for_owner_witness :
  let owner := DebugMode.mk_env (Some "1") (Some "s3cret") in
  let good := DebugMode.mk_event "GET" (Some [("token", "s3cret")]) in
  let bad := DebugMode.mk_event "GET" (Some [("token", "guess")]) in
  DebugMode.set_and_not_empty (DebugMode.OWNER_TOKEN owner) = true /\
  DebugMode.userToken good = DebugMode.OWNER_TOKEN owner /\
  DebugMode.body (DebugMode.handler good owner) = DebugMode.stringify_debug true /\
  DebugMode.body (DebugMode.handler bad owner) <> DebugMode.stringify_debug true.
Proof.
  cbv zeta. split; [reflexivity|]. split; [reflexivity|].
  split.
  - apply (debug_mode_only_for_owner
             (DebugMode.mk_event "GET" (Some [("token", "s3cret")]))
             (DebugMode.mk_env (Some "1") (Some "s3cret"))).
    split; [reflexivity|]. split; [right; reflexivity|]. intros _. reflexivity.
  - intros H.
    apply (debug_mode_only_for_owner
             (DebugMode.mk_event "GET" (Some [("token", "guess")]))
             (DebugMode.mk_env (Some "1") (Some "s3cret"))) in H.
    destruct H as (_ & _ & H). specialize (H eq_refl). discriminate H.
Defined.

(* ================================================================== *)
(** * Further properties: persisting what migrate returns *)
(* ================================================================== *)

(** X14: what [migrate] returns for an input that is not an array is
    plain JSON: written with [JSON.stringify] and read back with [JSON.parse]
    it is the same value.  For an array input the [categories] that [migrate]
    adds is a named property of the array, which the round trip drops. *)
Theorem migrate_output_survives_json_round_trip (json migrated : value) :
  migrate json = Ok migrated ->
  if isArray json
  then exists elems,
         migrated = VArr elems [("categories", VArr [] [])] /\
         JSON_parse_stringify migrated = Ok (VArr elems [])
  else JSON_parse_stringify migrated = Ok migrated.
Proof.
  intros Hm. destruct (truthy json) eqn:Hj.
  2:{ rewrite (migrate_falsy _ Hj) in Hm. injection Hm as <-.
      destruct json; try discriminate; reflexivity. }
  destruct (migrate_inv _ _ Hj Hm) as (cs & Hcs & Hset).
  assert (Hjson : json_fixed (JSON_clone json) = true)
    by (apply JSON_clone_json_fixed, truthy_is_defined, Hj).
  assert (Hcsj : forallb json_fixed cs = true).
  { apply forallb_forall. intros y Hy. apply mapM_inv in Hcs.
    destruct (Forall2_In_r _ _ _ y Hcs Hy) as (x & Hx & Hxy).
    apply (_migrateCategory_fixed x y); [|exact Hxy].
    apply (json_fixed_prop_element _ _ _ Hjson Hx). }
  destruct json as [| | | | | |elems ps|fs]; try discriminate;
    try (simpl in Hset; discriminate).
  - cbn [isArray].
    assert (Hcl : exists elems', JSON_clone (VArr elems ps) = VArr elems' [])
      by (eexists; reflexivity).
    destruct Hcl as [elems' Hcl]. rewrite Hcl in *.
    simpl in Hcs. injection Hcs as <-. simpl in Hset. injection Hset as <-.
    exists elems'. split; [reflexivity|].
    change (JSON_parse_stringify (VArr elems' [("categories", VArr [] [])]))
      with (Ok (JSON_clone (VArr elems' []))).
    rewrite (JSON_clone_fixed _ Hjson). reflexivity.
  - cbn [isArray].
    assert (Hcl : exists fs', JSON_clone (VObj fs) = VObj fs')
      by (eexists; reflexivity).
    destruct Hcl as [fs' Hcl]. rewrite Hcl in *.
    simpl in Hset. injection Hset as <-.
    change (JSON_parse_stringify (VObj (assign "categories" (VArr cs []) fs')))
      with (Ok (JSON_clone (VObj (assign "categories" (VArr cs []) fs')))).
    rewrite JSON_clone_fixed; [reflexivity|].
    simpl. apply json_fixed_assign; [|exact Hjson]. simpl. rewrite Hcsj. reflexivity.
Qed.

Lemma migrate_output_survives_json_round_trip_witness :
  exists migrated,
    migrate Examples.legacy_config = Ok migrated /\
    isArray Examples.legacy_config = false /\
    JSON_parse_stringify migrated = Ok migrated.
Proof.
  eexists. split; [reflexivity|]. split; [reflexivity|].
  apply (migrate_output_survives_json_round_trip Examples.legacy_config _ eq_refl).
Defined.

Import UIRenderer.
(* ================================================================== *)
(** * Further properties: rendering a valid configuration *)
(* ================================================================== *)

(** X15: on every top-level category of a configuration [validate]
    accepts, [hasVisibleContentForPlayers] returns without throwing. *)
Theorem hasVisibleContentForPlayers_on_valid (json : value) (result : validation)
        (category : value) :
  validate json = Ok result ->
  valid result = true ->
  In category (elements (prop json "categories")) ->
  exists b, hasVisibleContentForPlayers category = Ok b.
Proof.
  intros Hv Hvalid Hin.
  destruct (valid_config_entries _ _ Hv Hvalid) as (_ & _ & Hall).
  apply (hasVisibleContentForPlayers_total_n (S (vsize category))); [lia|].
  apply (Hall category Hin).
Qed.

Lemma hasVisibleContentForPlayers_on_valid_witness :
  let cat := Examples.obj
               [("name", VStr "NPCs");
                ("pages", Examples.arr
                   [Examples.obj [("name", VStr "Gandalf");
                                  ("url", VStr "https://notion.so/gandalf")]])] in
  validate (Examples.config [cat]) = Ok (mk_validation true []) /\
  In cat (elements (prop (Examples.config [cat]) "categories")) /\
  exists b, hasVisibleContentForPlayers cat = Ok b.
Proof.
  cbv zeta. split; [reflexivity|]. split; [left; reflexivity|].
  apply (hasVisibleContentForPlayers_on_valid
           (Examples.config
              [Examples.obj
                 [("name", VStr "NPCs");
                  ("pages", Examples.arr
                     [Examples.obj [("name", VStr "Gandalf");
                                    ("url", VStr "https://notion.so/gandalf")]])]])
           (mk_validation true []) _ eq_refl eq_refl (or_introl eq_refl)).
Defined.
